(** * The Netezza connection handshake of nz-node

    A shallow embedding of [lib/netezza-handshake.js] (class
    [NetezzaHandshake]): the byte packers, the buffered reader
    [readBytes], version negotiation, session setup, the in-band TLS
    switch, authentication and the completion drain, followed by the
    properties of the handshake that the specification states and by
    further properties of the code.

    Conventions.
    - A [Buffer] is a [list byte]; a JavaScript string is a [string],
      read as its UTF-8 encoding (so [Buffer.from(s, 'utf8')] lists its
      bytes).  [database] and [pgOptions] are only used behind a test of
      their truth, so for them a falsy argument ([undefined], [null], the
      empty string) is the empty [string].  [user] and [password] go to
      [Buffer.from] as they are: they are an [option string], [None] for
      [undefined] and [null] (a password that was not configured), on
      which [Buffer.from] throws a [TypeError].
    - The object's mutable fields are the record [NetezzaHandshake]; the
      socket is part of it: what it will still emit ([incoming]) and
      what was handed to [stream.write] ([written]).
    - The socket emits a finite list of events.  The driver is their only
      consumer: an event is taken when a read has to wait for it, which
      for data is the same as having it buffered by the permanent
      handler.  After the last event the socket is silent, and a waiting
      read ends by its 30 s timer.
    - An [async] method is a state-passing function that returns an
      [outcome]: the promise resolved, rejected, or never settled.
    - [securityLevel || 0] is the identity on numbers and is left out. *)

From Stdlib Require Import ZArith NArith String Ascii List Bool Lia.
From Stdlib Require Import Strings.Byte.
Import ListNotations.

Local Open Scope Z_scope.

(** ** Bytes and integers *)

Definition byte_of_Z (z : Z) : byte :=
  match Byte.of_N (Z.to_N (z mod 256)) with
  | Some b => b
  | None => x00
  end.

Definition Z_of_byte (b : byte) : Z := Z.of_N (Byte.to_N b).

Definition utf8 (s : string) : list byte := list_byte_of_string s.

Definition NULL_BYTE : list byte := [x00].

(** ** Protocol constants *)

Definition CP_VERSION_2 : Z := 2.
Definition CP_VERSION_3 : Z := 3.
Definition CP_VERSION_4 : Z := 4.
Definition CP_VERSION_5 : Z := 5.
Definition CP_VERSION_6 : Z := 6.

Definition HSV2_CLIENT_BEGIN : Z := 1.
Definition HSV2_DB : Z := 2.
Definition HSV2_USER : Z := 3.
Definition HSV2_OPTIONS : Z := 4.
Definition HSV2_REMOTE_PID : Z := 6.
Definition HSV2_CLIENT_TYPE : Z := 8.
Definition HSV2_PROTOCOL : Z := 9.
Definition HSV2_SSL_NEGOTIATE : Z := 11.
Definition HSV2_SSL_CONNECT : Z := 12.
Definition HSV2_APPNAME : Z := 13.
Definition HSV2_CLIENT_OS : Z := 14.
Definition HSV2_CLIENT_HOST_NAME : Z := 15.
Definition HSV2_CLIENT_OS_USER : Z := 16.
Definition HSV2_64BIT_VARLENA_ENABLED : Z := 17.
Definition HSV2_CLIENT_DONE : Z := 1000.

Definition PG_PROTOCOL_3 : Z := 3.
Definition PG_PROTOCOL_4 : Z := 4.
Definition PG_PROTOCOL_5 : Z := 5.

Definition AUTH_REQ_OK : Z := 0.
Definition AUTH_REQ_PASSWORD : Z := 3.
Definition AUTH_REQ_MD5 : Z := 5.
Definition AUTH_REQ_SHA256 : Z := 6.

Definition IPS_CLIENT : Z := 1.
Definition NPSCLIENT_TYPE_NODE : Z := 15.

(** ['R'], ['E'], ['N'], ['K'], ['Z'] *)
Definition AUTHENTICATION_REQUEST : byte := x52.
Definition ERROR_RESPONSE : byte := x45.
Definition NOTICE_RESPONSE : byte := x4e.
Definition BACKEND_KEY_DATA : byte := x4b.
Definition READY_FOR_QUERY : byte := x5a.

(** The other letters the handshake compares replies with:
    ['M'], ['S'] and the digits ['2'] to ['5']. *)
Definition CHAR_M : byte := x4d.
Definition CHAR_S : byte := x53.
Definition CHAR_2 : byte := x32.
Definition CHAR_3 : byte := x33.
Definition CHAR_4 : byte := x34.
Definition CHAR_5 : byte := x35.

(** ** Errors

    The source throws plain [Error] objects; each constructor stands for
    one message template and carries what the template interpolates. *)

Inductive HandshakeError : Type :=
| HandshakeNegotiationFailed      (* 'Handshake negotiation failed' *)
| HandshakeInfoFailed             (* 'Failed to send handshake information' *)
| AuthenticationFailed            (* 'Authentication failed' *)
| ConnectionCompletionFailed      (* 'Connection completion failed' *)
| UnsupportedVersion (versionChar : byte)
                                  (* 'Unsupported version suggested: ..' *)
| BadAttributeValue               (* 'Bad attribute value error' *)
| BadProtocol                     (* 'Bad protocol error' *)
| DatabaseRejected                (* 'Database authentication error' *)
| TlsRejected                     (* 'Server rejected security negotiation' *)
| UnknownSslResponse (responseChar : byte)
                                  (* 'Unknown SSL negotiation response: ..' *)
| TlsHandshakeFailed (message : string)
                                  (* 'TLS upgrade failed: ..' *)
| MetadataRejected                (* 'Connection failed during handshake' *)
| UnexpectedMessage (response : byte)
                                  (* 'Expected authentication request, got: ..' *)
| UnsupportedAuthMethod (authType : Z)
                                  (* 'Unsupported authentication type: ..' *)
| ServerError (errorMsg : list byte)
                                  (* 'Server error: ..' *)
| ReadTimeout (count buffered : nat)
                                  (* 'Timeout reading .. bytes. Buffer has .. bytes.' *)
| TransportClosed                 (* 'Stream ended before reading required bytes' *)
| TransportError (message : string)
                                  (* the stream's own 'error' event *)
| RangeError (value : Z)          (* writeInt16BE / writeInt32BE out of range *)
| TypeError.                      (* Buffer.from(undefined | null, 'utf8') *)

(** ** The packers *)

(** [Buffer.from(value, 'utf8')] for a string, [undefined] or [null]. *)
Definition bufferFrom (value : option string) : HandshakeError + list byte :=
  match value with
  | Some s => inr (utf8 s)
  | None => inl TypeError
  end.

(** [buf.writeInt16BE(value, 0)]: throws outside the signed 16-bit range. *)
Definition packShort (value : Z) : HandshakeError + list byte :=
  if (-32768 <=? value) && (value <=? 32767)
  then inr [byte_of_Z (Z.shiftr value 8); byte_of_Z value]
  else inl (RangeError value).

(** [buf.writeInt32BE(value, 0)]: throws outside the signed 32-bit range. *)
Definition packInt (value : Z) : HandshakeError + list byte :=
  if (-2147483648 <=? value) && (value <=? 2147483647)
  then inr [byte_of_Z (Z.shiftr value 24); byte_of_Z (Z.shiftr value 16);
            byte_of_Z (Z.shiftr value 8); byte_of_Z value]
  else inl (RangeError value).

(** [buffer.readInt32BE(0)] on the first four bytes, as a signed number;
    [None] where Node throws for a buffer shorter than four bytes. *)
Definition unpackInt (buf : list byte) : option Z :=
  match buf with
  | b0 :: b1 :: b2 :: b3 :: _ =>
      let u := ((Z_of_byte b0 * 256 + Z_of_byte b1) * 256 + Z_of_byte b2) * 256
               + Z_of_byte b3 in
      Some (if u <? 2147483648 then u else u - 4294967296)
  | _ => None
  end.

(** ** The driver's state *)

(** What the socket emits while the handshake listens. *)
Inductive event : Type :=
| EvData (chunk : list byte)
| EvEnd
| EvError (message : string).

(** How [tls.connect] ends: ['secureConnect'], ['error'], or neither. *)
Inductive TlsOutcome : Type :=
| SecureConnect
| TlsFailure (message : string)
| TlsSilent.

(** What the driver takes from its host: the audit strings read once at
    construction, the process id, and how a TLS handshake on this
    connection will end. *)
Record Host : Type := mkHost {
  clientOS : string;
  clientOSUser : string;
  clientHostName : string;
  appName : string;
  pid : Z;                       (* process.pid *)
  tlsOutcome : TlsOutcome
}.

(** The digesters and the encoder of Node's [crypto] and [Buffer]. *)
Record Crypto : Type := mkCrypto {
  md5 : list byte -> list byte;
  sha256 : list byte -> list byte;
  base64 : list byte -> list byte   (* [digest('base64')], an ASCII string *)
}.

Record NetezzaHandshake : Type := mkHandshake {
  incoming : list event;          (* events the stream has yet to emit *)
  written : list (list byte);     (* arguments of [stream.write], oldest first *)
  secure : bool;                  (* [this.stream] is the TLS socket *)
  buffer : list byte;             (* [this.buffer] *)
  dataHandler : bool;             (* [this.dataHandler] is attached *)
  hsVersion : option Z;
  protocol1 : option Z;
  protocol2 : option Z
}.

(** The object as the constructor leaves it, on a socket that will emit
    [evs]. *)
Definition new_handshake (evs : list event) : NetezzaHandshake :=
  mkHandshake evs [] false [] true None None None.

Definition set_io (d : NetezzaHandshake) (buf : list byte) (evs : list event)
  : NetezzaHandshake :=
  mkHandshake evs (written d) (secure d) buf (dataHandler d)
              (hsVersion d) (protocol1 d) (protocol2 d).

Definition set_buffer (d : NetezzaHandshake) (buf : list byte) : NetezzaHandshake :=
  set_io d buf (incoming d).

Definition push_write (d : NetezzaHandshake) (w : list byte) : NetezzaHandshake :=
  mkHandshake (incoming d) (written d ++ [w]) (secure d) (buffer d)
              (dataHandler d) (hsVersion d) (protocol1 d) (protocol2 d).

Definition set_dataHandler (d : NetezzaHandshake) (h : bool) : NetezzaHandshake :=
  mkHandshake (incoming d) (written d) (secure d) (buffer d) h
              (hsVersion d) (protocol1 d) (protocol2 d).

Definition set_secure (d : NetezzaHandshake) (s : bool) : NetezzaHandshake :=
  mkHandshake (incoming d) (written d) s (buffer d) (dataHandler d)
              (hsVersion d) (protocol1 d) (protocol2 d).

Definition set_accepted (d : NetezzaHandshake) (version : Z) : NetezzaHandshake :=
  mkHandshake (incoming d) (written d) (secure d) (buffer d) (dataHandler d)
              (Some version) (protocol1 d) (Some 0).

Definition set_protocol (d : NetezzaHandshake) (p1 p2 : option Z) : NetezzaHandshake :=
  mkHandshake (incoming d) (written d) (secure d) (buffer d) (dataHandler d)
              (hsVersion d) p1 p2.

(** ** Promises as state passing *)

Inductive outcome (A : Type) : Type :=
| Resolved (a : A)
| Rejected (e : HandshakeError)
| Pending.

Arguments Resolved {A} a.
Arguments Rejected {A} e.
Arguments Pending {A}.

Definition M (A : Type) : Type := NetezzaHandshake -> outcome A * NetezzaHandshake.

Definition ret {A} (a : A) : M A := fun d => (Resolved a, d).

Definition throw {A} (e : HandshakeError) : M A := fun d => (Rejected e, d).

Definition bind {A B} (m : M A) (k : A -> M B) : M B :=
  fun d =>
    match m d with
    | (Resolved a, d') => k a d'
    | (Rejected e, d') => (Rejected e, d')
    | (Pending, d') => (Pending, d')
    end.

Declare Scope handshake_scope.
Delimit Scope handshake_scope with hs.
Notation "x <- m ;; k" := (bind m (fun x => k))
  (at level 61, m at next level, right associativity) : handshake_scope.
Notation "m ;;; k" := (bind m (fun _ => k))
  (at level 61, right associativity) : handshake_scope.
Local Open Scope handshake_scope.

(** A packer's exception becomes the rejection of the enclosing method. *)
Definition lift {A} (r : HandshakeError + A) : M A :=
  match r with
  | inl e => throw e
  | inr a => ret a
  end.

(** [this.stream.write(buf)] *)
Definition write (buf : list byte) : M unit :=
  fun d => (Resolved tt, push_write d buf).

(** The pair of writes every message is sent with:
    [this.stream.write(this.packInt(payload.length + 4))] and then
    [this.stream.write(payload)].  [packInt] runs before the first write. *)
Definition writeFrame (payload : list byte) : M unit :=
  header <- lift (packInt (Z.of_nat (length payload) + 4)) ;;
  write header ;;;
  write payload.

(** ** readBytes *)

(** The wait of [readBytes]: the temporary handlers see the stream's next
    events until [count] bytes are buffered.  A chunk is appended to the
    buffer; ['end'] and ['error'] reject; when the stream stays silent the
    30 s timer rejects. *)
Fixpoint awaitBytes (count : nat) (evs : list event) (buf : list byte)
  : outcome (list byte) * (list byte * list event) :=
  match evs with
  | [] => (Rejected (ReadTimeout count (length buf)), (buf, []))
  | EvData chunk :: evs' =>
      let buf' := buf ++ chunk in
      if (count <=? length buf')%nat
      then (Resolved (firstn count buf'), (skipn count buf', evs'))
      else awaitBytes count evs' buf'
  | EvEnd :: evs' => (Rejected TransportClosed, (buf, evs'))
  | EvError message :: evs' => (Rejected (TransportError message), (buf, evs'))
  end.

Definition readBytes (count : nat) : M (list byte) :=
  fun d =>
    if (count <=? length (buffer d))%nat
    then (Resolved (firstn count (buffer d)), set_buffer d (skipn count (buffer d)))
    else
      let '(r, (buf, evs)) := awaitBytes count (incoming d) (buffer d) in
      (r, set_io d buf evs).

(** [await this.readBytes(1)] followed by [response[0]]. *)
Definition readByte : M byte :=
  response <- readBytes 1 ;;
  ret (hd x00 response).

(** ** Loops

    A [while (true)] whose body either leaves with a value or goes round
    again with new loop variables.  [None] is the only result that does
    not come from the body: the bound was reached. *)
Fixpoint loop {S A : Type} (bound : nat) (body : S -> M (S + A)) (s : S)
  (d : NetezzaHandshake) : option (outcome A * NetezzaHandshake) :=
  match bound with
  | O => None
  | Datatypes.S bound' =>
      match body s d with
      | (Resolved (inl s'), d') => loop bound' body s' d'
      | (Resolved (inr a), d') => Some (Resolved a, d')
      | (Rejected e, d') => Some (Rejected e, d')
      | (Pending, d') => Some (Pending, d')
      end
  end.

(** The bytes the driver can still read: the buffer, then every chunk the
    stream will deliver. *)
Fixpoint chunks (evs : list event) : list byte :=
  match evs with
  | [] => []
  | EvData chunk :: evs' => chunk ++ chunks evs'
  | _ :: evs' => chunks evs'
  end.

Definition inbound (d : NetezzaHandshake) : list byte :=
  buffer d ++ chunks (incoming d).

(** Every round of the handshake's two loops reads at least one byte
    ([negotiateBody_progresses], [drainBody_progresses]), so one more round
    than there are inbound bytes is enough and the [None] branch is never
    taken ([run_loop_eq]). *)
Definition run_loop {S A : Type} (body : S -> M (S + A)) (s : S) : M A :=
  fun d =>
    match loop (Datatypes.S (length (inbound d))) body s d with
    | Some r => r
    | None => (Pending, d)
    end.

(** ** Phase 1: negotiateHandshake *)

Definition negotiateBody (version : Z) : M (Z + bool) :=
  begin <- lift (packShort HSV2_CLIENT_BEGIN) ;;
  v <- lift (packShort version) ;;
  writeFrame (begin ++ v) ;;;
  response <- readByte ;;
  if Byte.eqb response NOTICE_RESPONSE then
    fun d => (Resolved (inr true), set_accepted d version)
  else if Byte.eqb response CHAR_M then
    versionChar <- readByte ;;
    if Byte.eqb versionChar CHAR_2 then ret (inl CP_VERSION_2)
    else if Byte.eqb versionChar CHAR_3 then ret (inl CP_VERSION_3)
    else if Byte.eqb versionChar CHAR_4 then ret (inl CP_VERSION_4)
    else if Byte.eqb versionChar CHAR_5 then ret (inl CP_VERSION_5)
    else throw (UnsupportedVersion versionChar)
  else if Byte.eqb response ERROR_RESPONSE then throw BadAttributeValue
  else throw BadProtocol.

Definition negotiateHandshake : M bool := run_loop negotiateBody CP_VERSION_6.

(** ** Phase 2: sendHandshakeInfo *)

Definition is_num (field : option Z) (n : Z) : bool :=
  match field with
  | Some z => z =? n
  | None => false
  end.

(** [+value] as the integer writers apply it to a field: [null] is 0. *)
Definition js_number (field : option Z) : Z :=
  match field with
  | Some z => z
  | None => 0
  end.

(** [!s] for a string argument. *)
Definition falsy (s : string) : bool :=
  match s with
  | EmptyString => true
  | _ => false
  end.

Definition sendDatabase (database : string) : M bool :=
  if falsy database then ret true
  else
    op <- lift (packShort HSV2_DB) ;;
    writeFrame (op ++ utf8 database ++ NULL_BYTE) ;;;
    response <- readByte ;;
    if Byte.eqb response NOTICE_RESPONSE then ret true
    else if Byte.eqb response ERROR_RESPONSE then throw DatabaseRejected
    else ret false.

Definition setNextDataProtocol : M bool :=
  fun d =>
    if is_num (protocol2 d) 0 then
      (Resolved true, set_protocol d (Some PG_PROTOCOL_3) (Some PG_PROTOCOL_5))
    else if is_num (protocol2 d) 5 then
      (Resolved true, set_protocol d (Some PG_PROTOCOL_3) (Some PG_PROTOCOL_4))
    else if is_num (protocol2 d) 4 then
      (Resolved true, set_protocol d (Some PG_PROTOCOL_3) (Some PG_PROTOCOL_3))
    else (Resolved false, d).

(** [cleanup()]: detach the data handler when there is one. *)
Definition cleanup (d : NetezzaHandshake) : NetezzaHandshake :=
  if dataHandler d then set_dataHandler d false else d.

Section Driver.

Variable host : Host.
Variable crypto : Crypto.

(** [upgradeToTLS()]: the handler is detached, [tls.connect] wraps the
    socket; on ['secureConnect'] the TLS socket becomes [this.stream] and
    the handler is attached to it.  [this.buffer] is not touched. *)
Definition upgradeToTLS : M unit :=
  fun d =>
    let d1 := cleanup d in
    match tlsOutcome host with
    | SecureConnect => (Resolved tt, set_dataHandler (set_secure d1 true) true)
    | TlsFailure message => (Rejected (TlsHandshakeFailed message), d1)
    | TlsSilent => (Pending, d1)
    end.

Definition secureSession (securityLevel : Z) : M bool :=
  op <- lift (packShort HSV2_SSL_NEGOTIATE) ;;
  level <- lift (packInt securityLevel) ;;
  writeFrame (op ++ level) ;;;
  responseChar <- readByte ;;
  if Byte.eqb responseChar NOTICE_RESPONSE then ret true
  else if Byte.eqb responseChar CHAR_S then
    op' <- lift (packShort HSV2_SSL_CONNECT) ;;
    level' <- lift (packInt securityLevel) ;;
    writeFrame (op' ++ level') ;;;
    upgradeToTLS ;;;
    ret true
  else if Byte.eqb responseChar ERROR_RESPONSE then throw TlsRejected
  else throw (UnknownSslResponse responseChar).

(** One entry of the [steps] arrays; [data = None] is [data: null]. *)
Record Step : Type := mkStep {
  opcode : Z;
  data : option (list byte)
}.

Definition is_null (o : option (list byte)) : bool :=
  match o with
  | None => true
  | Some _ => false
  end.

(** The [for (const step of steps)] loop shared by the two senders. *)
Fixpoint sendSteps (steps : list Step) : M bool :=
  match steps with
  | [] => ret true
  | step :: rest =>
      if is_null (data step) && negb (opcode step =? HSV2_CLIENT_DONE)
      then sendSteps rest
      else
        op <- lift (packShort (opcode step)) ;;
        (let payload := match data step with
                        | Some body => op ++ body
                        | None => op
                        end in
         writeFrame payload) ;;;
        if opcode step =? HSV2_CLIENT_DONE then ret true
        else
          response <- readByte ;;
          if negb (Byte.eqb response NOTICE_RESPONSE) then
            if Byte.eqb response ERROR_RESPONSE then throw MetadataRejected
            else ret false
          else sendSteps rest
  end.

Definition cstring (s : string) : list byte := utf8 s ++ NULL_BYTE.

(** The [pgOptions ? ... : null] entry. *)
Definition optionsData (pgOptions : string) : option (list byte) :=
  if falsy pgOptions then None else Some (cstring pgOptions).

(** [if (hsVersion === 5 || hsVersion === 6) steps.push(VARLENA)] and then
    [steps.push(CLIENT_DONE)]. *)
Definition finishSteps (d : NetezzaHandshake) (steps : list Step) : M (list Step) :=
  steps' <- (if is_num (hsVersion d) CP_VERSION_5 || is_num (hsVersion d) CP_VERSION_6
             then
               one <- lift (packShort IPS_CLIENT) ;;
               ret (steps ++ [mkStep HSV2_64BIT_VARLENA_ENABLED (Some one)])
             else ret steps) ;;
  ret (steps' ++ [mkStep HSV2_CLIENT_DONE None]).

Definition sendHandshakeVersion2 (user : option string) (pgOptions : string) : M bool :=
  fun d =>
    (userBuffer <- lift (bufferFrom user) ;;
     p1 <- lift (packShort (js_number (protocol1 d))) ;;
     p2 <- lift (packShort (js_number (protocol2 d))) ;;
     remotePid <- lift (packInt (pid host)) ;;
     clientType <- lift (packShort NPSCLIENT_TYPE_NODE) ;;
     steps <- finishSteps d
       [ mkStep HSV2_USER (Some (userBuffer ++ NULL_BYTE));
         mkStep HSV2_PROTOCOL (Some (p1 ++ p2));
         mkStep HSV2_REMOTE_PID (Some remotePid);
         mkStep HSV2_OPTIONS (optionsData pgOptions);
         mkStep HSV2_CLIENT_TYPE (Some clientType) ] ;;
     sendSteps steps) d.

Definition sendHandshakeVersion4 (user : option string) (pgOptions : string) : M bool :=
  fun d =>
    (userBuffer <- lift (bufferFrom user) ;;
     p1 <- lift (packShort (js_number (protocol1 d))) ;;
     p2 <- lift (packShort (js_number (protocol2 d))) ;;
     remotePid <- lift (packInt (pid host)) ;;
     clientType <- lift (packShort NPSCLIENT_TYPE_NODE) ;;
     steps <- finishSteps d
       [ mkStep HSV2_USER (Some (userBuffer ++ NULL_BYTE));
         mkStep HSV2_APPNAME (Some (cstring (appName host)));
         mkStep HSV2_CLIENT_OS (Some (cstring (clientOS host)));
         mkStep HSV2_CLIENT_HOST_NAME (Some (cstring (clientHostName host)));
         mkStep HSV2_CLIENT_OS_USER (Some (cstring (clientOSUser host)));
         mkStep HSV2_PROTOCOL (Some (p1 ++ p2));
         mkStep HSV2_REMOTE_PID (Some remotePid);
         mkStep HSV2_OPTIONS (optionsData pgOptions);
         mkStep HSV2_CLIENT_TYPE (Some clientType) ] ;;
     sendSteps steps) d.

(** The last statement of [sendHandshakeInfo]: the sender is chosen by
    [this.hsVersion]. *)
Definition sendHandshakeVersion (user : option string) (pgOptions : string) : M bool :=
  fun d =>
    if is_num (hsVersion d) CP_VERSION_6 || is_num (hsVersion d) CP_VERSION_4
    then sendHandshakeVersion4 user pgOptions d
    else if is_num (hsVersion d) CP_VERSION_5 || is_num (hsVersion d) CP_VERSION_3
            || is_num (hsVersion d) CP_VERSION_2
    then sendHandshakeVersion2 user pgOptions d
    else (Resolved true, d).

Definition sendHandshakeInfo (database : string) (securityLevel : Z)
  (user : option string) (pgOptions : string) : M bool :=
  ok <- sendDatabase database ;;
  if negb ok then ret false
  else
    ok <- setNextDataProtocol ;;
    if negb ok then ret false
    else
      ok <- secureSession securityLevel ;;
      if negb ok then ret false
      else sendHandshakeVersion user pgOptions.

(** ** Phase 3: authenticate *)

Definition BufferOutOfBounds : HandshakeError := RangeError 4.

(** [this.unpackInt(await this.readBytes(4))] *)
Definition readInt : M Z :=
  raw <- readBytes 4 ;;
  match unpackInt raw with
  | Some z => ret z
  | None => throw BufferOutOfBounds
  end.

(** [s.replace(/=+$/, '')] on an ASCII string: the run of ['='] at the end
    is removed. *)
Fixpoint stripPadding (s : list byte) : list byte :=
  match s with
  | [] => []
  | b :: s' =>
      match stripPadding s' with
      | [] => if Byte.eqb b x3d then [] else [b]
      | r => b :: r
      end
  end.

Definition authenticate (password : option string) : M bool :=
  first <- readByte ;;
  response <- (if Byte.eqb first NOTICE_RESPONSE then readByte else ret first) ;;
  if negb (Byte.eqb response AUTHENTICATION_REQUEST)
  then throw (UnexpectedMessage response)
  else
    authType <- readInt ;;
    if authType =? AUTH_REQ_OK then ret true
    else
      passwordBuffer <- lift (bufferFrom password) ;;
      if authType =? AUTH_REQ_PASSWORD then
        writeFrame (passwordBuffer ++ NULL_BYTE) ;;;
        ret true
      else if authType =? AUTH_REQ_MD5 then
        salt <- readBytes 2 ;;
        (let md5pwd := stripPadding (base64 crypto (md5 crypto (salt ++ passwordBuffer))) in
         writeFrame (md5pwd ++ NULL_BYTE)) ;;;
        ret true
      else if authType =? AUTH_REQ_SHA256 then
        salt <- readBytes 2 ;;
        (let sha256pwd :=
           stripPadding (base64 crypto (sha256 crypto (salt ++ passwordBuffer))) in
         writeFrame (sha256pwd ++ NULL_BYTE)) ;;;
        ret true
      else throw (UnsupportedAuthMethod authType).

(** ** Phase 4: waitConnectionComplete *)

(** [buf.toString('utf8')], as the UTF-8 bytes of the string it gives.
    The decoder is the one of the Encoding Standard, which Node follows:
    a well-formed sequence is one character, and every maximal part of
    an ill-formed sequence, also one that the end of the buffer cuts
    short, becomes U+FFFD (EF BF BD). *)
Definition REPLACEMENT : list byte := [xef; xbf; xbd].

(** The decoder's state: continuation bytes still needed, the bytes of
    the sequence so far, and the range allowed for the next byte. *)
Record Utf8State : Type := mkUtf8 {
  u8_needed : nat;
  u8_seen : list byte;
  u8_lower : Z;
  u8_upper : Z
}.

Definition utf8_initial : Utf8State := mkUtf8 0 [] 128 191.

Definition between (lo hi : Z) (b : byte) : bool :=
  (lo <=? Z_of_byte b) && (Z_of_byte b <=? hi).

(** A byte met with no sequence open. *)
Definition utf8_lead (b : byte) : list byte * Utf8State :=
  if between 0 127 b then ([b], utf8_initial)
  else if between 194 223 b then ([], mkUtf8 1 [b] 128 191)
  else if between 224 239 b then
    ([], mkUtf8 2 [b] (if Z_of_byte b =? 224 then 160 else 128)
                      (if Z_of_byte b =? 237 then 159 else 191))
  else if between 240 244 b then
    ([], mkUtf8 3 [b] (if Z_of_byte b =? 240 then 144 else 128)
                      (if Z_of_byte b =? 244 then 143 else 191))
  else (REPLACEMENT, utf8_initial).

Fixpoint utf8_decode (st : Utf8State) (buf : list byte) : list byte :=
  match buf with
  | [] =>
      match u8_needed st with
      | O => []
      | S _ => REPLACEMENT
      end
  | b :: rest =>
      let '(out, st') :=
        match u8_needed st with
        | O => utf8_lead b
        | S n =>
            if between (u8_lower st) (u8_upper st) b then
              match n with
              | O => (u8_seen st ++ [b], utf8_initial)
              | S _ => ([], mkUtf8 n (u8_seen st ++ [b]) 128 191)
              end
            else
              (* the open sequence is ill-formed; [b] is read again *)
              let '(out, st') := utf8_lead b in
              (REPLACEMENT ++ out, st')
        end in
      out ++ utf8_decode st' rest
  end.

Definition toStringUtf8 (buf : list byte) : list byte := utf8_decode utf8_initial buf.

(** [s.replace(/\0/g, '')]: every U+0000 goes; in UTF-8 these are the
    bytes 0x00. *)
Definition removeNulls (text : list byte) : list byte :=
  filter (fun b => negb (Byte.eqb b x00)) text.

(** One round of the [while (true)]: [inl tt] for [break] out of the
    [switch], [inr] for [return]. *)
Definition drainBody (_ : unit) : M (unit + bool) :=
  msgType <- readByte ;;
  (if negb (Byte.eqb msgType AUTHENTICATION_REQUEST)
      && negb (Byte.eqb msgType NOTICE_RESPONSE)
      && negb (Byte.eqb msgType ERROR_RESPONSE)
   then readBytes 8 ;;; ret tt
   else ret tt) ;;;
  if Byte.eqb msgType AUTHENTICATION_REQUEST then
    authType <- readInt ;;
    ret (inl tt)
  else if Byte.eqb msgType BACKEND_KEY_DATA then
    backendPid <- readInt ;;
    key <- readInt ;;
    ret (inl tt)
  else if Byte.eqb msgType READY_FOR_QUERY then ret (inr true)
  else if Byte.eqb msgType NOTICE_RESPONSE then
    readBytes 4 ;;;
    ret (inl tt)
  else if Byte.eqb msgType ERROR_RESPONSE then
    errorBuf <- readBytes 2000 ;;
    throw (ServerError (removeNulls (toStringUtf8 errorBuf)))
  else ret (inl tt).

Definition waitConnectionComplete : M bool := run_loop drainBody tt.

(** ** startup *)

Record HandshakeResult : Type := mkResult {
  success : bool;
  stream : bool;                 (* [this.stream]: is it the TLS socket *)
  remainingBuffer : list byte;
  needsInitialization : bool
}.

Definition startup_try (database : string) (securityLevel : Z)
  (user password : option string) (pgOptions : string) : M HandshakeResult :=
  ok <- negotiateHandshake ;;
  if negb ok then throw HandshakeNegotiationFailed
  else
    ok <- sendHandshakeInfo database securityLevel user pgOptions ;;
    if negb ok then throw HandshakeInfoFailed
    else
      ok <- authenticate password ;;
      if negb ok then throw AuthenticationFailed
      else
        ok <- waitConnectionComplete ;;
        if negb ok then throw ConnectionCompletionFailed
        else
          fun d =>
            (Resolved (mkResult true (secure d) (buffer d) true), set_buffer d []).

(** The [try] above with its [catch]: [cleanup()] and rethrow. *)
Definition startup (database : string) (securityLevel : Z)
  (user password : option string) (pgOptions : string) : M HandshakeResult :=
  fun d =>
    match startup_try database securityLevel user password pgOptions d with
    | (Rejected e, d') => (Rejected e, cleanup d')
    | r => r
    end.

End Driver.

(** ** Node's digests and base64

    [crypto.createHash('md5')], [crypto.createHash('sha256')] and the
    ['base64'] encoding, written out (RFC 1321, FIPS 180-4, RFC 4648) so
    that a handshake can be run on concrete bytes. *)

Module NodeCrypto.

Definition w32 (z : Z) : Z := z mod 4294967296.
Definition not32 (x : Z) : Z := Z.lxor x 4294967295.
Definition rotl32 (x n : Z) : Z := w32 (Z.lor (Z.shiftl x n) (Z.shiftr x (32 - n))).
Definition rotr32 (x n : Z) : Z := rotl32 x (32 - n).

Definition nthZ (i : nat) (l : list Z) : Z := nth i l 0.

(** A message cut into blocks of [size] bytes; [bound] blocks at most. *)
Fixpoint blocks (bound size : nat) (bs : list byte) : list (list byte) :=
  match bound, bs with
  | O, _ => []
  | _, [] => []
  | S bound', _ => firstn size bs :: blocks bound' size (skipn size bs)
  end.

(** Four bytes at a time, as little-endian or big-endian words. *)
Fixpoint words_le (bs : list byte) : list Z :=
  match bs with
  | b0 :: b1 :: b2 :: b3 :: rest =>
      (Z_of_byte b0 + 256 * (Z_of_byte b1 + 256 * (Z_of_byte b2 + 256 * Z_of_byte b3)))
        :: words_le rest
  | _ => []
  end.

Fixpoint words_be (bs : list byte) : list Z :=
  match bs with
  | b0 :: b1 :: b2 :: b3 :: rest =>
      (((Z_of_byte b0 * 256 + Z_of_byte b1) * 256 + Z_of_byte b2) * 256 + Z_of_byte b3)
        :: words_be rest
  | _ => []
  end.

Definition bytes_le (width : nat) (x : Z) : list byte :=
  map (fun i => byte_of_Z (Z.shiftr x (8 * Z.of_nat i))) (seq 0 width).

Definition bytes_be (width : nat) (x : Z) : list byte := rev (bytes_le width x).

(** Both digests pad with [0x80], zeros up to 56 modulo 64, and the bit
    length in eight bytes. *)
Definition zero_fill (len : nat) : list byte :=
  repeat x00 (Z.to_nat ((55 - Z.of_nat len) mod 64)).

(** *** MD5 *)

Definition md5_K : list Z :=
  [3614090360; 3905402710; 606105819; 3250441966; 4118548399; 1200080426;
   2821735955; 4249261313; 1770035416; 2336552879; 4294925233; 2304563134;
   1804603682; 4254626195; 2792965006; 1236535329; 4129170786; 3225465664;
   643717713; 3921069994; 3593408605; 38016083; 3634488961; 3889429448;
   568446438; 3275163606; 4107603335; 1163531501; 2850285829; 4243563512;
   1735328473; 2368359562; 4294588738; 2272392833; 1839030562; 4259657740;
   2763975236; 1272893353; 4139469664; 3200236656; 681279174; 3936430074;
   3572445317; 76029189; 3654602809; 3873151461; 530742520; 3299628645;
   4096336452; 1126891415; 2878612391; 4237533241; 1700485571; 2399980690;
   4293915773; 2240044497; 1873313359; 4264355552; 2734768916; 1309151649;
   4149444226; 3174756917; 718787259; 3951481745].

Definition md5_S : list Z :=
  [7; 12; 17; 22; 7; 12; 17; 22; 7; 12; 17; 22; 7; 12; 17; 22;
   5; 9; 14; 20; 5; 9; 14; 20; 5; 9; 14; 20; 5; 9; 14; 20;
   4; 11; 16; 23; 4; 11; 16; 23; 4; 11; 16; 23; 4; 11; 16; 23;
   6; 10; 15; 21; 6; 10; 15; 21; 6; 10; 15; 21; 6; 10; 15; 21].

Definition md5_state : Type := (Z * Z * Z * Z)%type.

Definition md5_round (m : list Z) (st : md5_state) (i : nat) : md5_state :=
  let '(a, b, c, d) := st in
  let '(f, g) :=
    if (i <? 16)%nat then
      (Z.lor (Z.land b c) (Z.land (not32 b) d), i)
    else if (i <? 32)%nat then
      (Z.lor (Z.land d b) (Z.land (not32 d) c), ((5 * i + 1) mod 16)%nat)
    else if (i <? 48)%nat then
      (Z.lxor b (Z.lxor c d), ((3 * i + 5) mod 16)%nat)
    else
      (Z.lxor c (Z.lor b (not32 d)), ((7 * i) mod 16)%nat) in
  let f' := w32 (f + a + nthZ i md5_K + nthZ g m) in
  (d, w32 (b + rotl32 f' (nthZ i md5_S)), b, c).

Definition md5_block (st : md5_state) (block : list byte) : md5_state :=
  let '(a0, b0, c0, d0) := st in
  let '(a, b, c, d) := fold_left (md5_round (words_le block)) (seq 0 64) st in
  (w32 (a0 + a), w32 (b0 + b), w32 (c0 + c), w32 (d0 + d)).

Definition md5_pad (msg : list byte) : list byte :=
  msg ++ [x80] ++ zero_fill (length msg) ++ bytes_le 8 (8 * Z.of_nat (length msg)).

Definition md5_digest (msg : list byte) : list byte :=
  let padded := md5_pad msg in
  let '(a, b, c, d) :=
    fold_left md5_block (blocks (length padded) 64 padded)
              (1732584193, 4023233417, 2562383102, 271733878) in
  bytes_le 4 a ++ bytes_le 4 b ++ bytes_le 4 c ++ bytes_le 4 d.

(** *** SHA-256 *)

Definition sha256_K : list Z :=
  [1116352408; 1899447441; 3049323471; 3921009573; 961987163; 1508970993;
   2453635748; 2870763221; 3624381080; 310598401; 607225278; 1426881987;
   1925078388; 2162078206; 2614888103; 3248222580; 3835390401; 4022224774;
   264347078; 604807628; 770255983; 1249150122; 1555081692; 1996064986;
   2554220882; 2821834349; 2952996808; 3210313671; 3336571891; 3584528711;
   113926993; 338241895; 666307205; 773529912; 1294757372; 1396182291;
   1695183700; 1986661051; 2177026350; 2456956037; 2730485921; 2820302411;
   3259730800; 3345764771; 3516065817; 3600352804; 4094571909; 275423344;
   430227734; 506948616; 659060556; 883997877; 958139571; 1322822218;
   1537002063; 1747873779; 1955562222; 2024104815; 2227730452; 2361852424;
   2428436474; 2756734187; 3204031479; 3329325298].

Definition sha256_H : list Z :=
  [1779033703; 3144134277; 1013904242; 2773480762;
   1359893119; 2600822924; 528734635; 1541459225].

Definition sha256_extend (w : list Z) (i : nat) : list Z :=
  let w15 := nthZ (i - 15) w in
  let w2 := nthZ (i - 2) w in
  let s0 := Z.lxor (rotr32 w15 7) (Z.lxor (rotr32 w15 18) (Z.shiftr w15 3)) in
  let s1 := Z.lxor (rotr32 w2 17) (Z.lxor (rotr32 w2 19) (Z.shiftr w2 10)) in
  w ++ [w32 (nthZ (i - 16) w + s0 + nthZ (i - 7) w + s1)].

Definition sha256_schedule (block : list byte) : list Z :=
  fold_left sha256_extend (seq 16 48) (words_be block).

Definition sha256_round (w : list Z) (st : list Z) (i : nat) : list Z :=
  match st with
  | [a; b; c; d; e; f; g; h] =>
      let S1 := Z.lxor (rotr32 e 6) (Z.lxor (rotr32 e 11) (rotr32 e 25)) in
      let ch := Z.lxor (Z.land e f) (Z.land (not32 e) g) in
      let temp1 := w32 (h + S1 + ch + nthZ i sha256_K + nthZ i w) in
      let S0 := Z.lxor (rotr32 a 2) (Z.lxor (rotr32 a 13) (rotr32 a 22)) in
      let maj := Z.lxor (Z.land a b) (Z.lxor (Z.land a c) (Z.land b c)) in
      let temp2 := w32 (S0 + maj) in
      [w32 (temp1 + temp2); a; b; c; w32 (d + temp1); e; f; g]
  | _ => st
  end.

Definition sha256_block (st : list Z) (block : list byte) : list Z :=
  let st' := fold_left (sha256_round (sha256_schedule block)) (seq 0 64) st in
  map (fun p => w32 (fst p + snd p)) (combine st st').

Definition sha256_pad (msg : list byte) : list byte :=
  msg ++ [x80] ++ zero_fill (length msg) ++ bytes_be 8 (8 * Z.of_nat (length msg)).

Definition sha256_digest (msg : list byte) : list byte :=
  let padded := sha256_pad msg in
  flat_map (bytes_be 4)
           (fold_left sha256_block (blocks (length padded) 64 padded) sha256_H).

(** *** base64 *)

Definition base64_char (n : Z) : byte :=
  if n <? 26 then byte_of_Z (65 + n)
  else if n <? 52 then byte_of_Z (97 + (n - 26))
  else if n <? 62 then byte_of_Z (48 + (n - 52))
  else if n =? 62 then x2b
  else x2f.

Definition sextet (n shift : Z) : byte := base64_char (Z.land (Z.shiftr n shift) 63).

Fixpoint base64_encode (bs : list byte) : list byte :=
  match bs with
  | [] => []
  | [b0] =>
      let n := Z_of_byte b0 * 16 in
      [sextet n 6; sextet n 0; x3d; x3d]
  | [b0; b1] =>
      let n := (Z_of_byte b0 * 256 + Z_of_byte b1) * 4 in
      [sextet n 12; sextet n 6; sextet n 0; x3d]
  | b0 :: b1 :: b2 :: rest =>
      let n := (Z_of_byte b0 * 256 + Z_of_byte b1) * 256 + Z_of_byte b2 in
      sextet n 18 :: sextet n 12 :: sextet n 6 :: sextet n 0 :: base64_encode rest
  end.

Definition node : Crypto := mkCrypto md5_digest sha256_digest base64_encode.

End NodeCrypto.


(** ** Reading the write log

    Every message leaves as two writes, the length word and the payload;
    [frames] joins them again. *)

Fixpoint frames (ws : list (list byte)) : list (list byte) :=
  match ws with
  | header :: payload :: rest => (header ++ payload) :: frames rest
  | _ => []
  end.

(** The writes of a list of (length word, payload) pairs. *)
Definition writes_of (fs : list (list byte * list byte)) : list (list byte) :=
  flat_map (fun f => [fst f; snd f]) fs.

Definition joined (f : list byte * list byte) : list byte := fst f ++ snd f.

(** The 16-bit word after the length word. *)
Definition frame_opcode (f : list byte) : option Z :=
  match f with
  | _ :: _ :: _ :: _ :: hi :: lo :: _ => Some (Z_of_byte hi * 256 + Z_of_byte lo)
  | _ => None
  end.

Definition has_opcode (op : Z) (f : list byte) : bool := is_num (frame_opcode f) op.

Definition count_opcode (op : Z) (fs : list (list byte)) : nat :=
  length (filter (has_opcode op) fs).

(** The version a [CLIENT_BEGIN] frame carries. *)
Definition frame_version (f : list byte) : Z :=
  match f with
  | _ :: _ :: _ :: _ :: _ :: _ :: hi :: lo :: _ => Z_of_byte hi * 256 + Z_of_byte lo
  | _ => 0
  end.

(** The first four bytes, read as a big-endian int32, give the length of
    the whole frame. *)
Definition length_prefixed (f : list byte) : Prop :=
  unpackInt f = Some (Z.of_nat (length f)).

(** [len(int32 BE) || opcode(int16 BE) || body], [len] counting all three,
    with an opcode among those [P] allows. *)
Definition opcoded_with (P : Z -> Prop) (f : list byte) : Prop :=
  exists (op : Z) (header opbytes body : list byte),
    P op /\
    packInt (Z.of_nat (length f)) = inr header /\
    packShort op = inr opbytes /\
    f = header ++ opbytes ++ body.

Definition opcoded (f : list byte) : Prop := opcoded_with (fun _ => True) f.

(** ** The wire format in the specification's words *)

Definition be16 (z : Z) : list byte := [byte_of_Z (z / 256); byte_of_Z z].

Definition be32 (z : Z) : list byte :=
  [byte_of_Z (z / 16777216); byte_of_Z (z / 65536); byte_of_Z (z / 256); byte_of_Z z].

(** An opcoded frame: the length counts itself, the opcode and the body. *)
Definition spec_frame (op : Z) (body : list byte) : list byte :=
  be32 (4 + 2 + Z.of_nat (length body)) ++ be16 op ++ body.

(** The credential frame: no opcode. *)
Definition spec_credential (body : list byte) : list byte :=
  be32 (4 + Z.of_nat (length body)) ++ body.

(** A UTF-8 string followed by 0x00. *)
Definition spec_cstring (s : string) : list byte := utf8 s ++ [x00].

Definition in_versions (v : Z) (vs : list Z) : bool := existsb (Z.eqb v) vs.

(** The metadata stream of section 4.3 (d). *)
Definition metadataStream (host : Host) (v : Z) (user pgOptions : string)
  (p1 p2 : Z) : list (list byte) :=
  let options :=
    match pgOptions with
    | EmptyString => []
    | _ => [spec_frame 4 (spec_cstring pgOptions)]
    end in
  [spec_frame 3 (spec_cstring user)]
  ++ (if in_versions v [4; 6]
      then [spec_frame 13 (spec_cstring (appName host));
            spec_frame 14 (spec_cstring (clientOS host));
            spec_frame 15 (spec_cstring (clientHostName host));
            spec_frame 16 (spec_cstring (clientOSUser host))]
      else [])
  ++ [spec_frame 9 (be16 p1 ++ be16 p2); spec_frame 6 (be32 (pid host))]
  ++ options
  ++ [spec_frame 8 (be16 15)]
  ++ (if in_versions v [5; 6] then [spec_frame 17 (be16 1)] else [])
  ++ [spec_frame 1000 []].

(** Trailing NULs removed, the others kept. *)
Fixpoint trimTrailingNulls (s : list byte) : list byte :=
  match s with
  | [] => []
  | b :: s' =>
      match trimTrailingNulls s' with
      | [] => if Byte.eqb b x00 then [] else [b]
      | r => b :: r
      end
  end.

(** ** Relations between the state before and after a run *)

(** The run read [consumed] from the inbound bytes. *)
Definition consumes (consumed : list byte) (d d' : NetezzaHandshake) : Prop :=
  inbound d = consumed ++ inbound d'.

Definition reads_ahead (d d' : NetezzaHandshake) : Prop :=
  exists consumed, consumes consumed d d'.

(** The run wrote whole frames, each of them satisfying [ok]. *)
Definition wrote (ok : list byte -> Prop) (d d' : NetezzaHandshake) : Prop :=
  exists fs, written d' = written d ++ writes_of fs /\ Forall (fun f => ok (joined f)) fs.

(** The run left the negotiated values alone. *)
Definition keeps_protocol (d d' : NetezzaHandshake) : Prop :=
  hsVersion d' = hsVersion d /\ protocol1 d' = protocol1 d /\ protocol2 d' = protocol2 d.

(** Every run of [m] relates its start and end states by [R]. *)
Definition preserves {A : Type} (R : NetezzaHandshake -> NetezzaHandshake -> Prop)
  (m : M A) : Prop :=
  forall d r d', m d = (r, d') -> R d d'.

(** The state after [writeFrame payload] went through. *)
Definition sent (header payload : list byte) (d : NetezzaHandshake) : NetezzaHandshake :=
  push_write (push_write d header) payload.

(** ** Loops and rounds *)

(** A round that goes on has read something. *)
Definition progresses {S A : Type} (body : S -> M (S + A)) : Prop :=
  forall s d s' d',
    body s d = (Resolved (inl s'), d') ->
    (length (inbound d') < length (inbound d))%nat.


(** What a counter-offered digit leads to. *)
Definition counterOffer (versionChar : byte) : outcome (Z + bool) :=
  if Byte.eqb versionChar CHAR_2 then Resolved (inl CP_VERSION_2)
  else if Byte.eqb versionChar CHAR_3 then Resolved (inl CP_VERSION_3)
  else if Byte.eqb versionChar CHAR_4 then Resolved (inl CP_VERSION_4)
  else if Byte.eqb versionChar CHAR_5 then Resolved (inl CP_VERSION_5)
  else Rejected (UnsupportedVersion versionChar).

(** The [CLIENT_BEGIN] message for [version], as it is written. *)
Definition beginSent (version : Z) (d : NetezzaHandshake) : NetezzaHandshake :=
  sent (be32 8) (be16 HSV2_CLIENT_BEGIN ++ be16 version) d.

(** One round, case by case on what the server answers. *)
Inductive negotiateRound (version : Z) (d : NetezzaHandshake)
  : outcome (Z + bool) -> NetezzaHandshake -> Prop :=
| RoundUnanswered e d' :
    readByte (beginSent version d) = (Rejected e, d') ->
    negotiateRound version d (Rejected e) d'
| RoundAccepted d1 :
    readByte (beginSent version d) = (Resolved NOTICE_RESPONSE, d1) ->
    negotiateRound version d (Resolved (inr true)) (set_accepted d1 version)
| RoundOfferCut d1 e d' :
    readByte (beginSent version d) = (Resolved CHAR_M, d1) ->
    readByte d1 = (Rejected e, d') ->
    negotiateRound version d (Rejected e) d'
| RoundOffer d1 versionChar d2 :
    readByte (beginSent version d) = (Resolved CHAR_M, d1) ->
    readByte d1 = (Resolved versionChar, d2) ->
    negotiateRound version d (counterOffer versionChar) d2
| RoundBadAttribute d1 :
    readByte (beginSent version d) = (Resolved ERROR_RESPONSE, d1) ->
    negotiateRound version d (Rejected BadAttributeValue) d1
| RoundBadProtocol response d1 :
    readByte (beginSent version d) = (Resolved response, d1) ->
    response <> NOTICE_RESPONSE -> response <> CHAR_M -> response <> ERROR_RESPONSE ->
    negotiateRound version d (Rejected BadProtocol) d1.


(** A [CLIENT_BEGIN] frame for one of the versions 2 to 6. *)
Definition is_begin (f : list byte) : Prop :=
  exists version, 2 <= version <= 6 /\ f = spec_frame HSV2_CLIENT_BEGIN (be16 version).

(** The frame a [steps] entry stands for; an entry without data stands for
    none. *)
Definition live_frame (step : Step) : list (list byte) :=
  match data step with
  | Some body => [spec_frame (opcode step) body]
  | None => []
  end.

Definition done_step : Step := mkStep HSV2_CLIENT_DONE None.

(** What a run of the metadata senders wrote, whatever the server
    answered. *)
Definition streamed (stream : list (list byte)) (d : NetezzaHandshake)
  (r : outcome bool) (d' : NetezzaHandshake) : Prop :=
  exists fs acks rest,
    written d' = written d ++ writes_of fs /\
    consumes acks d d' /\
    keeps_protocol d d' /\
    map joined fs ++ rest = stream /\
    r <> Pending /\
    (r = Resolved true ->
     rest = [] /\ acks = repeat NOTICE_RESPONSE (pred (length fs))) /\
    (rest = [] -> r = Resolved true).

(** ** Concrete runs *)

Definition exampleHost : Host :=
  mkHost "linux" "nz" "client.example.org" "app.js" 4242 SecureConnect.

(** Four bytes of a big-endian code, as the server sends them. *)
Definition code (n : Z) : list byte := be32 n.

(** A server that counter-offers version 2, acknowledges the database, the
    TLS request and the four metadata frames of version 2, needs no
    password, and ends with ['Z'] and its eight filler bytes. *)
Definition counterOfferServer : list event :=
  [ EvData (utf8 "M2"); EvData (utf8 "N");
    EvData (utf8 "N"); EvData (utf8 "N"); EvData (utf8 "NNNN");
    EvData (AUTHENTICATION_REQUEST :: code 0);
    EvData (READY_FOR_QUERY :: repeat x00 8) ].

(** [n] counter-offers of version 5. *)
Definition offers (n : nat) : list byte := concat (repeat [CHAR_M; CHAR_5] n).

(** Successive versions, each lower than the one before. *)
Fixpoint lowering (versions : list Z) : Prop :=
  match versions with
  | a :: (b :: _) as rest => b < a /\ lowering rest
  | _ => True
  end.

(** *** The statements that the code does not meet, as they are worded *)

(** C3: one [CLIENT_BEGIN] per attempt. *)
Definition begin_once_as_stated : Prop :=
  forall host crypto database securityLevel user password pgOptions evs res d',
    startup host crypto database securityLevel user password pgOptions
            (new_handshake evs) = (Resolved res, d') ->
    count_opcode HSV2_CLIENT_BEGIN (frames (written d')) = 1%nat.

(** C4: the number of rounds has a bound (six, say). *)
Definition rounds_bounded_as_stated : Prop :=
  exists bound,
    forall evs,
      (length (frames (written (snd (negotiateHandshake (new_handshake evs)))))
       <= bound)%nat.

(** C4: every counter-offer lowers the version. *)
Definition offers_lower_as_stated : Prop :=
  forall evs,
    lowering (map frame_version
                  (frames (written (snd (negotiateHandshake (new_handshake evs)))))).

(** What the drain does with a message of a type other than ['R'], ['N']
    and ['E'], once the eight filler bytes are gone. *)
Definition afterFiller (msgType : byte) : M (unit + bool) :=
  if Byte.eqb msgType BACKEND_KEY_DATA then
    backendPid <- readInt ;;
    key <- readInt ;;
    ret (inl tt)
  else if Byte.eqb msgType READY_FOR_QUERY then ret (inr true)
  else ret (inl tt).

(** C9: after ['N'], eight filler bytes and a four-byte length are read. *)
Definition notice_filler_as_stated : Prop :=
  forall d filler len rest,
    buffer d = NOTICE_RESPONSE :: filler ++ len ++ rest ->
    length filler = 8%nat -> length len = 4%nat ->
    drainBody tt d = (Resolved (inl tt), set_buffer d rest).

(** A parameter-status message, as a server may send it right after
    ['Z']. *)
Definition parameterStatus : list byte :=
  utf8 "S" ++ code 25 ++ utf8 "client_encoding" ++ [x00] ++ utf8 "UTF8" ++ [x00].

(** The counter-offering server, with the parameter status in the segment
    of ['Z']. *)
Definition readAheadServer : list event :=
  [ EvData (utf8 "M2"); EvData (utf8 "N");
    EvData (utf8 "N"); EvData (utf8 "N"); EvData (utf8 "NNNN");
    EvData (AUTHENTICATION_REQUEST :: code 0);
    EvData (READY_FOR_QUERY :: parameterStatus) ].

(** C8: what is handed back is what came after ['Z']. *)
Definition remaining_after_marker_as_stated : Prop :=
  forall host crypto database securityLevel user password pgOptions evs res d',
    startup host crypto database securityLevel user password pgOptions
            (new_handshake evs) = (Resolved res, d') ->
    buffer d' = [] /\
    exists handshake,
      chunks evs
      = handshake ++ [READY_FOR_QUERY] ++ remainingBuffer res ++ chunks (incoming d').

(** A server that accepts version 6, refuses TLS with ['N'], asks for the
    plain password and completes. *)
Definition cleartextServer : list event :=
  [ EvData (utf8 "N"); EvData (utf8 "N"); EvData (utf8 "N");
    EvData (utf8 "NNNNNNNNN");
    EvData (AUTHENTICATION_REQUEST :: code 3);
    EvData (AUTHENTICATION_REQUEST :: code 0);
    EvData (BACKEND_KEY_DATA :: repeat x00 8 ++ code 42 ++ code 99);
    EvData (READY_FOR_QUERY :: repeat x00 8) ].


(** ** Further notions for the properties of the code *)

(** [readBytes] on the buffer and the pending events alone. *)
Definition readFrom (count : nat) (buf : list byte) (evs : list event)
  : outcome (list byte) * (list byte * list event) :=
  if (count <=? length buf)%nat
  then (Resolved (firstn count buf), (skipn count buf, evs))
  else awaitBytes count evs buf.

Definition int32_range (v : Z) : Prop := -2147483648 <= v <= 2147483647.

Definition int16_range (v : Z) : Prop := -32768 <= v <= 32767.

(** The bytes that arrive before the stream ends, fails or goes silent. *)
Fixpoint arriving (evs : list event) : list byte :=
  match evs with
  | EvData chunk :: evs' => chunk ++ arriving evs'
  | _ => []
  end.

(** What a read that is still waiting then fails with. *)
Fixpoint failure (count buffered : nat) (evs : list event) : HandshakeError :=
  match evs with
  | [] => ReadTimeout count buffered
  | EvData chunk :: evs' => failure count (buffered + length chunk) evs'
  | EvEnd :: _ => TransportClosed
  | EvError message :: _ => TransportError message
  end.

(** What a run can end in: a value in [V], an error in [E], or pending
    in a state in [P]. *)
Definition ends {A : Type} (V : A -> Prop) (E : HandshakeError -> Prop)
  (P : NetezzaHandshake -> Prop) (m : M A) : Prop :=
  forall d r d',
    m d = (r, d') ->
    match r with
    | Resolved a => V a
    | Rejected e => E e
    | Pending => P d'
    end.

(** Nothing stays pending. *)
Definition settled (d : NetezzaHandshake) : Prop := False.

(** The TLS handshake neither completed nor failed; no handler is
    attached. *)
Definition awaiting_tls (host : Host) (d : NetezzaHandshake) : Prop :=
  tlsOutcome host = TlsSilent /\ dataHandler d = false.


(** The rejections of [readBytes]. *)
Definition read_failure (e : HandshakeError) : Prop :=
  match e with
  | ReadTimeout _ _ | TransportClosed | TransportError _ => True
  | _ => False
  end.

(** The errors of [startup]'s own four [throw] statements. *)
Definition phase_failure (e : HandshakeError) : Prop :=
  match e with
  | HandshakeNegotiationFailed | HandshakeInfoFailed
  | AuthenticationFailed | ConnectionCompletionFailed => True
  | _ => False
  end.

(** The errors each phase can reject with; the [TypeError] of
    [Buffer.from] only when the user name, or the password, is missing. *)
Definition negotiation_error (e : HandshakeError) : Prop :=
  match e with
  | BadAttributeValue | BadProtocol | UnsupportedVersion _ => True
  | _ => read_failure e
  end.

Definition info_error (user : option string) (e : HandshakeError) : Prop :=
  match e with
  | DatabaseRejected | TlsRejected | UnknownSslResponse _ | TlsHandshakeFailed _
  | MetadataRejected | RangeError _ => True
  | TypeError => user = None
  | _ => read_failure e
  end.

Definition authentication_error (password : option string) (e : HandshakeError)
  : Prop :=
  match e with
  | UnexpectedMessage _ | UnsupportedAuthMethod _ | RangeError _ => True
  | TypeError => password = None
  | _ => read_failure e
  end.

Definition completion_error (e : HandshakeError) : Prop :=
  match e with
  | ServerError _ => True
  | _ => read_failure e
  end.

Definition startup_error (user password : option string) (e : HandshakeError)
  : Prop :=
  negotiation_error e \/ info_error user e \/ e = HandshakeInfoFailed \/
  authentication_error password e \/ completion_error e.

(** A host on which the TLS handshake neither completes nor fails. *)
Definition silentHost : Host :=
  mkHost "linux" "nz" "client.example.org" "app.js" 4242 TlsSilent.

(** A message that the completion drain reads over: the type byte and
    what is read behind it. *)
Definition skipped (message : list byte) : bool :=
  match message with
  | [] => false
  | msgType :: body =>
      if Byte.eqb msgType AUTHENTICATION_REQUEST || Byte.eqb msgType NOTICE_RESPONSE
      then (length body =? 4)%nat
      else if Byte.eqb msgType ERROR_RESPONSE || Byte.eqb msgType READY_FOR_QUERY
      then false
      else if Byte.eqb msgType BACKEND_KEY_DATA then (length body =? 16)%nat
      else (length body =? 8)%nat
  end.

(** What the drain reads when it returns: messages read over, then
    ['Z'] and its filler. *)
Definition completion (messages : list (list byte)) (filler : list byte) : list byte :=
  concat messages ++ READY_FOR_QUERY :: filler.

(** The state without the record of what was written. *)
Definition unwritten (d : NetezzaHandshake) : NetezzaHandshake :=
  mkHandshake (incoming d) [] (secure d) (buffer d) (dataHandler d)
              (hsVersion d) (protocol1 d) (protocol2 d).

(** The run changed the buffer and the pending events only. *)
Definition only_reads (d d' : NetezzaHandshake) : Prop :=
  d' = set_io d (buffer d') (incoming d').

(** The [SSL_NEGOTIATE] and [SSL_CONNECT] messages, as they are written. *)
Definition negotiateSent (securityLevel : Z) (d : NetezzaHandshake) : NetezzaHandshake :=
  sent (be32 10) (be16 HSV2_SSL_NEGOTIATE ++ be32 securityLevel) d.

Definition connectSent (securityLevel : Z) (d : NetezzaHandshake) : NetezzaHandshake :=
  sent (be32 10) (be16 HSV2_SSL_CONNECT ++ be32 securityLevel) d.

(** The frames of a successful attempt. *)
Definition beginFrame (version : Z) : list byte :=
  spec_frame HSV2_CLIENT_BEGIN (be16 version).

Definition databaseFrames (database : string) : list (list byte) :=
  if falsy database then [] else [spec_frame HSV2_DB (spec_cstring database)].

Definition negotiateFrame (securityLevel : Z) : list byte :=
  spec_frame HSV2_SSL_NEGOTIATE (be32 securityLevel).

Definition connectFrame (securityLevel : Z) : list byte :=
  spec_frame HSV2_SSL_CONNECT (be32 securityLevel).

(** The answers of a server that makes the counter-offers [digits] and
    then accepts. *)
Definition answers (digits : list byte) : list byte :=
  concat (map (fun versionChar => [CHAR_M; versionChar]) digits) ++ [NOTICE_RESPONSE].

(** The version a counter-offered digit stands for. *)
Definition offered (versionChar : byte) (version : Z) : Prop :=
  counterOffer versionChar = Resolved (inl version).

(** The two writes of each [CLIENT_BEGIN] message. *)
Definition beginWrites (versions : list Z) : list (list byte) :=
  writes_of (map (fun version => (be32 8, be16 HSV2_CLIENT_BEGIN ++ be16 version))
                 versions).

(** The state with another record of what was written. *)
Definition with_written (d : NetezzaHandshake) (ws : list (list byte))
  : NetezzaHandshake :=
  mkHandshake (incoming d) ws (secure d) (buffer d) (dataHandler d)
              (hsVersion d) (protocol1 d) (protocol2 d).

(** The last byte that the run read is an answer that is neither ['N']
    nor ['E']. *)
Definition refused (d d' : NetezzaHandshake) : Prop :=
  exists consumed response,
    consumes (consumed ++ [response]) d d' /\
    response <> NOTICE_RESPONSE /\ response <> ERROR_RESPONSE.

(** How a run of the metadata senders ended, and the answer it read
    behind the acknowledgements. *)
Definition answered (r : outcome bool) (tail : list byte) : Prop :=
  match r with
  | Resolved true => tail = []
  | Resolved false =>
      exists response,
        tail = [response] /\
        response <> NOTICE_RESPONSE /\ response <> ERROR_RESPONSE
  | Rejected e =>
      (e = MetadataRejected /\ tail = [ERROR_RESPONSE]) \/ (read_failure e /\ tail = [])
  | Pending => False
  end.

(** The two writes of each frame: the length word, then the rest. *)
Definition frameWrites (stream : list (list byte)) : list (list byte) :=
  flat_map (fun f => [firstn 4 f; skipn 4 f]) stream.

(** Every frame fits the 32-bit length word. *)
Definition fits (stream : list (list byte)) : Prop :=
  Forall (fun f => Z.of_nat (length f) <= 2147483647) stream.

(** The run left the transport as it was. *)
Definition same_transport (d d' : NetezzaHandshake) : Prop := secure d' = secure d.
Example md5_abc :
  NodeCrypto.md5_digest (utf8 "abc")
  = map byte_of_Z [144; 1; 80; 152; 60; 210; 79; 176; 214; 150; 63; 125; 40; 225; 127; 114].
Proof. vm_compute. reflexivity. Qed.

Example md5_long :
  NodeCrypto.md5_digest (repeat x61 100)
  = map byte_of_Z [54; 169; 44; 201; 74; 158; 15; 162; 31; 98; 95; 139; 251; 0; 122; 223].
Proof. vm_compute. reflexivity. Qed.

Example sha256_abc :
  NodeCrypto.sha256_digest (utf8 "abc")
  = map byte_of_Z [186; 120; 22; 191; 143; 1; 207; 234; 65; 65; 64; 222; 93; 174; 34; 35;
                   176; 3; 97; 163; 150; 23; 122; 156; 180; 16; 255; 97; 242; 0; 21; 173].
Proof. vm_compute. reflexivity. Qed.

Example sha256_long :
  NodeCrypto.sha256_digest (repeat x61 100)
  = map byte_of_Z [40; 22; 89; 120; 136; 228; 160; 211; 163; 107; 130; 184; 51; 22; 171; 50;
                   104; 14; 184; 240; 15; 140; 211; 185; 4; 214; 129; 36; 109; 40; 90; 14].
Proof. vm_compute. reflexivity. Qed.

Example base64_salted_md5 :
  NodeCrypto.base64_encode (NodeCrypto.md5_digest ([xab; xcd] ++ utf8 "secret"))
  = utf8 "7ewRqfGM3Q1lvtaWUmB86g==".
Proof. vm_compute. reflexivity. Qed.

Example base64_salted_sha256 :
  NodeCrypto.base64_encode (NodeCrypto.sha256_digest ([xab; xcd] ++ utf8 "secret"))
  = utf8 "9vH6nE6JUMs7LDyoWCHBTqG0yVsg3IY2ARZXaPZplDQ=".
Proof. vm_compute. reflexivity. Qed.

(** * Properties *)

(** ** Bytes and packers *)

Lemma Z_of_byte_range (b : byte) : 0 <= Z_of_byte b < 256.
Proof.
  unfold Z_of_byte. pose proof (Byte.to_N_bounded b). lia.
Qed.

Lemma Z_of_byte_of_Z (z : Z) : Z_of_byte (byte_of_Z z) = z mod 256.
Proof.
  assert (Hr : 0 <= z mod 256 < 256) by (apply Z.mod_pos_bound; lia).
  unfold byte_of_Z, Z_of_byte.
  destruct (Byte.of_N (Z.to_N (z mod 256))) as [b|] eqn:E.
  - apply Byte.to_of_N in E. rewrite E. lia.
  - apply Byte.of_N_None_iff in E. lia.
Qed.

Lemma byte_eqb_eq (a b : byte) : Byte.eqb a b = true <-> a = b.
Proof.
  split; [apply Byte.byte_dec_bl | apply Byte.byte_dec_lb].
Qed.

Lemma byte_eqb_neq (a b : byte) : Byte.eqb a b = false <-> a <> b.
Proof.
  split.
  - apply Byte.eqb_false.
  - intros N. destruct (Byte.eqb a b) eqn:E; [|reflexivity].
    apply byte_eqb_eq in E. contradiction.
Qed.

Lemma packInt_be32 (v : Z) (bs : list byte) : packInt v = inr bs -> bs = be32 v.
Proof.
  unfold packInt, be32. destruct (_ && _); [|discriminate].
  intros H. injection H as <-.
  rewrite !Z.shiftr_div_pow2 by lia. reflexivity.
Qed.

Lemma packShort_be16 (v : Z) (bs : list byte) : packShort v = inr bs -> bs = be16 v.
Proof.
  unfold packShort, be16. destruct (_ && _); [|discriminate].
  intros H. injection H as <-.
  rewrite !Z.shiftr_div_pow2 by lia. reflexivity.
Qed.

Lemma packInt_length (v : Z) (bs : list byte) : packInt v = inr bs -> length bs = 4%nat.
Proof.
  intros H. apply packInt_be32 in H. subst. reflexivity.
Qed.

Lemma packShort_length (v : Z) (bs : list byte) : packShort v = inr bs -> length bs = 2%nat.
Proof.
  intros H. apply packShort_be16 in H. subst. reflexivity.
Qed.

Lemma packInt_range (v : Z) (bs : list byte) :
  packInt v = inr bs -> -2147483648 <= v <= 2147483647.
Proof.
  unfold packInt. destruct (_ && _) eqn:E; [|discriminate]. lia.
Qed.

Lemma packInt_in_range (v : Z) :
  -2147483648 <= v <= 2147483647 -> packInt v = inr (be32 v).
Proof.
  intros Hr. destruct (packInt v) as [e|bs] eqn:E.
  - unfold packInt in E. destruct (_ && _) eqn:C; [discriminate|]. lia.
  - apply packInt_be32 in E. subst. reflexivity.
Qed.

(** The length word read back is the number that was packed. *)
Lemma unpackInt_be32 (v : Z) (rest : list byte) :
  -2147483648 <= v <= 2147483647 -> unpackInt (be32 v ++ rest) = Some v.
Proof.
  intros Hr. unfold be32, unpackInt. cbn [app].
  rewrite !Z_of_byte_of_Z. f_equal.
  match goal with |- context [if ?c then _ else _] => destruct c eqn:C end;
    Z.div_mod_to_equations; lia.
Qed.

Lemma unpackInt_packInt (v : Z) (bs rest : list byte) :
  packInt v = inr bs -> unpackInt (bs ++ rest) = Some v.
Proof.
  intros H. pose proof (packInt_range _ _ H). apply packInt_be32 in H. subst.
  now apply unpackInt_be32.
Qed.

(** ** The reader *)

Lemma awaitBytes_spec (count : nat) (evs : list event) :
  forall buf r buf' evs',
    awaitBytes count evs buf = (r, (buf', evs')) ->
    match r with
    | Resolved bs => length bs = count /\ buf ++ chunks evs = bs ++ buf' ++ chunks evs'
    | Rejected _ => buf ++ chunks evs = buf' ++ chunks evs'
    | Pending => False
    end.
Proof.
  induction evs as [|ev evs IH]; intros buf r buf' evs' H; cbn in H.
  - injection H as <- <- <-. reflexivity.
  - destruct ev as [chunk| |message].
    + destruct (count <=? length (buf ++ chunk))%nat eqn:C.
      * injection H as <- <- <-. apply Nat.leb_le in C. split.
        -- now apply firstn_length_le.
        -- cbn. rewrite app_assoc, (app_assoc (firstn _ _)), firstn_skipn. reflexivity.
      * apply IH in H. cbn. rewrite app_assoc. exact H.
    + injection H as <- <- <-. reflexivity.
    + injection H as <- <- <-. reflexivity.
Qed.

(** [readBytes] touches the buffer and the pending events only; what it
    returns is the front of the inbound bytes, and it always settles. *)
Lemma readBytes_spec (count : nat) (d : NetezzaHandshake) r d' :
  readBytes count d = (r, d') ->
  exists buf evs,
    d' = set_io d buf evs /\
    match r with
    | Resolved bs => length bs = count /\ inbound d = bs ++ inbound d'
    | Rejected _ => inbound d = inbound d'
    | Pending => False
    end.
Proof.
  unfold readBytes. intros H.
  destruct (count <=? length (buffer d))%nat eqn:C.
  - injection H as <- <-. exists (skipn count (buffer d)), (incoming d).
    split; [reflexivity|]. apply Nat.leb_le in C. split.
    + now apply firstn_length_le.
    + unfold inbound. cbn. now rewrite app_assoc, firstn_skipn.
  - destruct (awaitBytes count (incoming d) (buffer d)) as [r0 [buf evs]] eqn:E.
    injection H as <- <-. exists buf, evs. split; [reflexivity|].
    apply awaitBytes_spec in E. unfold inbound. cbn. exact E.
Qed.

Lemma readBytes_buffered (count : nat) (d : NetezzaHandshake) :
  (count <= length (buffer d))%nat ->
  readBytes count d
  = (Resolved (firstn count (buffer d)), set_buffer d (skipn count (buffer d))).
Proof.
  intros H. unfold readBytes. apply Nat.leb_le in H. now rewrite H.
Qed.

Lemma readByte_spec (d : NetezzaHandshake) r d' :
  readByte d = (r, d') ->
  exists buf evs,
    d' = set_io d buf evs /\
    match r with
    | Resolved b => inbound d = b :: inbound d'
    | Rejected _ => inbound d = inbound d'
    | Pending => False
    end.
Proof.
  unfold readByte, bind. intros H.
  destruct (readBytes 1 d) as [[bs|e|] d1] eqn:E;
    apply readBytes_spec in E; destruct E as (buf & evs & -> & E).
  - cbn in H. injection H as <- <-. exists buf, evs. split; [reflexivity|].
    destruct E as [L E]. destruct bs as [|b [|]]; try discriminate. exact E.
  - injection H as <- <-. exists buf, evs. now split.
  - contradiction.
Qed.

(** ** The monad *)

Lemma bind_inv {A B : Type} (m : M A) (k : A -> M B) d r d' :
  bind m k d = (r, d') ->
  (exists a d1, m d = (Resolved a, d1) /\ k a d1 = (r, d'))
  \/ (exists e, m d = (Rejected e, d') /\ r = Rejected e)
  \/ (m d = (Pending, d') /\ r = Pending).
Proof.
  unfold bind. destruct (m d) as [[a|e|] d1]; intros H.
  - left. now exists a, d1.
  - right. left. injection H as <- <-. now exists e.
  - right. right. now injection H as <- <-.
Qed.

Lemma writeFrame_inv (payload : list byte) d r d' :
  writeFrame payload d = (r, d') ->
  (exists header, packInt (Z.of_nat (length payload) + 4) = inr header /\
                  r = Resolved tt /\ d' = sent header payload d)
  \/ (exists e, packInt (Z.of_nat (length payload) + 4) = inl e /\
                r = Rejected e /\ d' = d).
Proof.
  unfold writeFrame, bind, lift, write, sent.
  destruct (packInt _) as [e|header]; cbn; intros H; injection H as <- <-.
  - right. now exists e.
  - left. now exists header.
Qed.

Lemma writeFrame_ok (payload header : list byte) d :
  packInt (Z.of_nat (length payload) + 4) = inr header ->
  writeFrame payload d = (Resolved tt, sent header payload d).
Proof.
  unfold writeFrame, bind, lift, write, sent. now intros ->.
Qed.

(** ** Relations kept by the primitives *)

Section Preserves.

Context (R : NetezzaHandshake -> NetezzaHandshake -> Prop).
Context (R_refl : forall d, R d d).
Context (R_trans : forall d1 d2 d3, R d1 d2 -> R d2 d3 -> R d1 d3).

Lemma preserves_ret {A} (a : A) : preserves R (ret a).
Proof. intros d r d' H. injection H as <- <-. apply R_refl. Qed.

Lemma preserves_throw {A} (e : HandshakeError) : preserves R (@throw A e).
Proof. intros d r d' H. injection H as <- <-. apply R_refl. Qed.

Lemma preserves_lift {A} (x : HandshakeError + A) : preserves R (lift x).
Proof. destruct x; [apply preserves_throw | apply preserves_ret]. Qed.

Lemma preserves_bind {A B} (m : M A) (k : A -> M B) :
  preserves R m -> (forall a, preserves R (k a)) -> preserves R (bind m k).
Proof.
  intros Hm Hk d r d' H.
  apply bind_inv in H as [(a & d1 & H1 & H2)|[(e & H1 & _)|(H1 & _)]].
  - eapply R_trans; [eapply Hm | eapply Hk]; eassumption.
  - eapply Hm; eassumption.
  - eapply Hm; eassumption.
Qed.

(** The continuation may use where a packed value came from. *)
Lemma preserves_bind_lift {A B} (x : HandshakeError + A) (k : A -> M B) :
  (forall a, x = inr a -> preserves R (k a)) -> preserves R (bind (lift x) k).
Proof.
  intros Hk. destruct x as [e|a].
  - intros d r d' H. cbn in H. injection H as <- <-. apply R_refl.
  - intros d r d' H. cbn in H. eapply Hk; [reflexivity | eassumption].
Qed.

Lemma loop_preserves {S A} (body : S -> M (S + A)) :
  (forall s, preserves R (body s)) ->
  forall bound s d r d', loop bound body s d = Some (r, d') -> R d d'.
Proof.
  intros Hb. induction bound as [|bound IH]; intros s d r d' H; cbn in H.
  - discriminate.
  - destruct (body s d) as [[[s'|a]|e|] d1] eqn:E.
    + eapply R_trans; [eapply Hb | eapply IH]; eassumption.
    + injection H as <- <-. eapply Hb; eassumption.
    + injection H as <- <-. eapply Hb; eassumption.
    + injection H as <- <-. eapply Hb; eassumption.
Qed.

Lemma run_loop_preserves {S A} (body : S -> M (S + A)) (s : S) :
  (forall s, preserves R (body s)) -> preserves R (@run_loop S A body s).
Proof.
  intros Hb d r d' H. unfold run_loop in H.
  destruct (loop _ body s d) as [[r0 d0]|] eqn:E.
  - injection H as <- <-. eapply loop_preserves; eassumption.
  - injection H as <- <-. apply R_refl.
Qed.

End Preserves.

(** ** Loops end *)

Lemma loop_enough {S A} (body : S -> M (S + A)) :
  progresses body ->
  forall bound s d,
    (length (inbound d) < bound)%nat -> exists r, loop bound body s d = Some r.
Proof.
  intros Hp. induction bound as [|bound IH]; intros s d Hb; [lia|]. cbn.
  destruct (body s d) as [[[s'|a]|e|] d1] eqn:E; eauto.
  apply IH. apply Hp in E. lia.
Qed.

Lemma loop_stable {S A} (body : S -> M (S + A)) :
  forall bound s d r,
    loop bound body s d = Some r ->
    forall bound', (bound <= bound')%nat -> loop bound' body s d = Some r.
Proof.
  induction bound as [|bound IH]; intros s d r H bound' Hb; cbn in H; [discriminate|].
  destruct bound' as [|bound']; [lia|]. cbn.
  destruct (body s d) as [[[s'|a]|e|] d1] eqn:E; auto.
  eapply IH; [eassumption | lia].
Qed.

(** [run_loop] is the loop, whatever bound above the inbound length is
    taken. *)
Lemma run_loop_eq {S A} (body : S -> M (S + A)) (s : S) (d : NetezzaHandshake) :
  progresses body ->
  forall bound,
    (length (inbound d) < bound)%nat ->
    loop bound body s d = Some (run_loop body s d).
Proof.
  intros Hp bound Hb. unfold run_loop.
  destruct (loop_enough body Hp (Datatypes.S (length (inbound d))) s d) as [r Hr]; [lia|].
  rewrite Hr. eapply loop_stable; [eassumption | lia].
Qed.

(** One round of [run_loop]. *)
Lemma run_loop_unfold {S A} (body : S -> M (S + A)) (s : S) (d : NetezzaHandshake) :
  progresses body ->
  run_loop body s d
  = match body s d with
    | (Resolved (inl s'), d') => run_loop body s' d'
    | (Resolved (inr a), d') => (Resolved a, d')
    | (Rejected e, d') => (Rejected e, d')
    | (Pending, d') => (Pending, d')
    end.
Proof.
  intros Hp.
  pose proof (run_loop_eq body s d Hp (Datatypes.S (length (inbound d)))) as H.
  cbn in H. specialize (H (Nat.lt_succ_diag_r _)).
  destruct (body s d) as [[[s'|a]|e|] d1] eqn:E.
  - rewrite run_loop_eq in H by (auto; apply Hp in E; lia). now injection H.
  - now injection H.
  - now injection H.
  - now injection H.
Qed.

(** ** Relations kept by the phases *)

Ltac pres_step Rr Rt :=
  lazymatch goal with
  | |- preserves _ (ret _) => apply (preserves_ret _ Rr)
  | |- preserves _ (throw _) => apply (preserves_throw _ Rr)
  | |- preserves _ (lift _) => apply (preserves_lift _ Rr)
  | |- preserves _ (bind (lift _) _) => apply (preserves_bind_lift _ Rr); intros ? ?
  | |- preserves _ (bind _ _) => apply (preserves_bind _ Rt); [| intros ?]
  | |- preserves _ (if ?c then _ else _) => destruct c eqn:?
  | |- preserves _ (match ?c with _ => _ end) => destruct c eqn:?
  end.

Section Framed.

Context (R : NetezzaHandshake -> NetezzaHandshake -> Prop).
Context (okop : Z -> Prop).
Context (R_refl : forall d, R d d).
Context (R_trans : forall d1 d2 d3, R d1 d2 -> R d2 d3 -> R d1 d3).
Context (R_read : forall count, preserves R (readBytes count)).
Context (R_frame : forall op opbytes body,
            okop op -> packShort op = inr opbytes ->
            preserves R (writeFrame (opbytes ++ body))).
Context (R_handler : forall d h, R d (set_dataHandler d h)).
Context (R_secure : forall d s, R d (set_secure d s)).
Context (ok_session : forall op,
            In op [HSV2_DB; HSV2_SSL_NEGOTIATE; HSV2_SSL_CONNECT] -> okop op).
Context (ok_metadata : forall op,
            In op [HSV2_USER; HSV2_OPTIONS; HSV2_REMOTE_PID; HSV2_CLIENT_TYPE;
                   HSV2_PROTOCOL; HSV2_APPNAME; HSV2_CLIENT_OS; HSV2_CLIENT_HOST_NAME;
                   HSV2_CLIENT_OS_USER; HSV2_64BIT_VARLENA_ENABLED; HSV2_CLIENT_DONE] ->
            okop op).

Variable host : Host.

Ltac pres := repeat pres_step R_refl R_trans.

Lemma readByte_preserves : preserves R readByte.
Proof. unfold readByte. pres. apply R_read. Qed.

Lemma cleanup_keeps (d : NetezzaHandshake) : R d (cleanup d).
Proof. unfold cleanup. destruct (dataHandler d); auto. Qed.

Lemma upgradeToTLS_preserves : preserves R (upgradeToTLS host).
Proof.
  intros d r d' H. unfold upgradeToTLS in H.
  destruct (tlsOutcome host); injection H as <- <-.
  - eapply R_trans; [apply cleanup_keeps|].
    eapply R_trans; [apply R_secure | apply R_handler].
  - apply cleanup_keeps.
  - apply cleanup_keeps.
Qed.

Lemma sendDatabase_preserves (database : string) : preserves R (sendDatabase database).
Proof.
  unfold sendDatabase. pres.
  - pose proof (R_frame HSV2_DB a (utf8 database ++ NULL_BYTE)) as F.
    apply F; [apply ok_session; cbn; auto | assumption].
  - apply readByte_preserves.
Qed.

Lemma secureSession_preserves (securityLevel : Z) :
  preserves R (secureSession host securityLevel).
Proof.
  unfold secureSession. pres.
  - apply (R_frame HSV2_SSL_NEGOTIATE); [apply ok_session; cbn; auto | assumption].
  - apply readByte_preserves.
  - apply (R_frame HSV2_SSL_CONNECT); [apply ok_session; cbn; auto | assumption].
  - apply upgradeToTLS_preserves.
Qed.

Lemma sendSteps_preserves (steps : list Step) :
  Forall (fun step => okop (opcode step)) steps -> preserves R (sendSteps steps).
Proof.
  induction steps as [|step rest IH]; intros Hs; cbn [sendSteps].
  - pres.
  - inversion Hs as [|? ? Hop Hrest]; subst. specialize (IH Hrest).
    destruct (is_null (data step) && negb (opcode step =? HSV2_CLIENT_DONE)); [exact IH|].
    destruct (data step) as [body|]; cbv zeta;
      pres; try exact IH; try apply readByte_preserves.
    + apply (R_frame (opcode step) a body); assumption.
    + rewrite <- (app_nil_r a). apply (R_frame (opcode step) a []); assumption.
Qed.

Lemma finishSteps_spec (d0 : NetezzaHandshake) (steps : list Step) d r d' :
  finishSteps d0 steps d = (r, d') ->
  d' = d /\ exists tail,
    r = Resolved (steps ++ tail) /\
    Forall (fun step => In (opcode step) [HSV2_64BIT_VARLENA_ENABLED; HSV2_CLIENT_DONE]) tail.
Proof.
  unfold finishSteps. intros H.
  destruct (is_num (hsVersion d0) CP_VERSION_5 || is_num (hsVersion d0) CP_VERSION_6);
    cbn in H; injection H as <- <-; (split; [reflexivity|]).
  - eexists. rewrite <- app_assoc. split; [reflexivity|].
    cbn. repeat (apply Forall_cons || apply Forall_nil); cbn; auto.
  - eexists. split; [reflexivity|].
    repeat (apply Forall_cons || apply Forall_nil); cbn; auto.
Qed.

(** Both senders: the packed fields, the array, the loop. *)
Lemma send_array_preserves (d0 : NetezzaHandshake) (mk : list byte -> list byte ->
    list byte -> list byte -> list Step) :
  (forall p1 p2 remotePid clientType,
      Forall (fun step => okop (opcode step)) (mk p1 p2 remotePid clientType)) ->
  preserves R
    (p1 <- lift (packShort (js_number (protocol1 d0))) ;;
     p2 <- lift (packShort (js_number (protocol2 d0))) ;;
     remotePid <- lift (packInt (pid host)) ;;
     clientType <- lift (packShort NPSCLIENT_TYPE_NODE) ;;
     steps <- finishSteps d0 (mk p1 p2 remotePid clientType) ;;
     sendSteps steps).
Proof.
  intros Hmk. do 4 pres_step R_refl R_trans.
  intros d r d' E.
  apply bind_inv in E as [(steps & d1 & E1 & E2)|[(e & E1 & _)|(E1 & _)]];
    apply finishSteps_spec in E1 as (-> & tail & Hr & Ht); try discriminate.
  injection Hr as ->. revert E2. apply sendSteps_preserves.
  apply Forall_app. split; [apply Hmk|].
  eapply Forall_impl; [|exact Ht]. cbn. intros step [<-|[<-|[]]]; apply ok_metadata; cbn; auto 12.
Qed.

Lemma sendHandshakeVersion2_preserves (user : option string) (pgOptions : string) :
  preserves R (sendHandshakeVersion2 host user pgOptions).
Proof.
  intros d r d' E. unfold sendHandshakeVersion2 in E.
  destruct user as [user|]; [|cbn in E; injection E as <- <-; apply R_refl].
  unfold bind at 1 in E. cbn [bufferFrom lift ret] in E.
  refine (send_array_preserves d (fun p1 p2 remotePid clientType =>
    [ mkStep HSV2_USER (Some (cstring user));
      mkStep HSV2_PROTOCOL (Some (p1 ++ p2));
      mkStep HSV2_REMOTE_PID (Some remotePid);
      mkStep HSV2_OPTIONS (optionsData pgOptions);
      mkStep HSV2_CLIENT_TYPE (Some clientType) ]) _ d r d' E).
  intros. repeat (apply Forall_cons || apply Forall_nil); cbn; apply ok_metadata; cbn; auto 12.
Qed.

Lemma sendHandshakeVersion4_preserves (user : option string) (pgOptions : string) :
  preserves R (sendHandshakeVersion4 host user pgOptions).
Proof.
  intros d r d' E. unfold sendHandshakeVersion4 in E.
  destruct user as [user|]; [|cbn in E; injection E as <- <-; apply R_refl].
  unfold bind at 1 in E. cbn [bufferFrom lift ret] in E.
  refine (send_array_preserves d (fun p1 p2 remotePid clientType =>
    [ mkStep HSV2_USER (Some (cstring user));
      mkStep HSV2_APPNAME (Some (cstring (appName host)));
      mkStep HSV2_CLIENT_OS (Some (cstring (clientOS host)));
      mkStep HSV2_CLIENT_HOST_NAME (Some (cstring (clientHostName host)));
      mkStep HSV2_CLIENT_OS_USER (Some (cstring (clientOSUser host)));
      mkStep HSV2_PROTOCOL (Some (p1 ++ p2));
      mkStep HSV2_REMOTE_PID (Some remotePid);
      mkStep HSV2_OPTIONS (optionsData pgOptions);
      mkStep HSV2_CLIENT_TYPE (Some clientType) ]) _ d r d' E).
  intros. repeat (apply Forall_cons || apply Forall_nil); cbn; apply ok_metadata; cbn; auto 12.
Qed.

Lemma sendHandshakeVersion_preserves (user : option string) (pgOptions : string) :
  preserves R (sendHandshakeVersion host user pgOptions).
Proof.
  intros d r d' H. unfold sendHandshakeVersion in H.
  destruct (_ || _) in H.
  - eapply sendHandshakeVersion4_preserves; eassumption.
  - destruct (_ || _) in H.
    + eapply sendHandshakeVersion2_preserves; eassumption.
    + injection H as <- <-. apply R_refl.
Qed.

Context (R_protocol : forall d p1 p2, R d (set_protocol d p1 p2)).

Lemma setNextDataProtocol_preserves : preserves R setNextDataProtocol.
Proof.
  intros d r d' H. unfold setNextDataProtocol in H.
  repeat match type of H with
         | (if ?c then _ else _) = _ => destruct c
         end; injection H as <- <-; auto.
Qed.

Lemma sendHandshakeInfo_preserves (database : string) (securityLevel : Z)
  (user : option string) (pgOptions : string) :
  preserves R (sendHandshakeInfo host database securityLevel user pgOptions).
Proof.
  unfold sendHandshakeInfo. pres.
  - apply sendDatabase_preserves.
  - apply setNextDataProtocol_preserves.
  - apply secureSession_preserves.
  - apply sendHandshakeVersion_preserves.
Qed.

Lemma readInt_preserves : preserves R readInt.
Proof. unfold readInt. pres. apply R_read. Qed.

Lemma drainBody_preserves (u : unit) : preserves R (drainBody u).
Proof.
  unfold drainBody. pres; try apply readByte_preserves; try apply readInt_preserves;
    apply R_read.
Qed.

Lemma waitConnectionComplete_preserves : preserves R waitConnectionComplete.
Proof.
  unfold waitConnectionComplete. apply run_loop_preserves; auto.
  apply drainBody_preserves.
Qed.

Context (R_write : forall payload, preserves R (writeFrame payload)).

Variable crypto : Crypto.

Lemma authenticate_preserves (password : option string) :
  preserves R (authenticate crypto password).
Proof.
  unfold authenticate. pres; try apply readByte_preserves; try apply readInt_preserves;
    try apply R_read; apply R_write.
Qed.

End Framed.

(** *** The three relations *)

Lemma reads_ahead_refl d : reads_ahead d d.
Proof. now exists []. Qed.

Lemma reads_ahead_trans d1 d2 d3 :
  reads_ahead d1 d2 -> reads_ahead d2 d3 -> reads_ahead d1 d3.
Proof.
  intros [c1 H1] [c2 H2]. exists (c1 ++ c2).
  unfold consumes in *. now rewrite H1, H2, app_assoc.
Qed.

Lemma reads_ahead_same d d' : inbound d' = inbound d -> reads_ahead d d'.
Proof. intros H. exists []. unfold consumes. now rewrite H. Qed.

Lemma reads_ahead_read count : preserves reads_ahead (readBytes count).
Proof.
  intros d r d' H. apply readBytes_spec in H as (buf & evs & _ & H).
  destruct r as [bs|e|]; [|now apply reads_ahead_same|contradiction].
  exists bs. apply H.
Qed.

Lemma reads_ahead_write payload : preserves reads_ahead (writeFrame payload).
Proof.
  intros d r d' H.
  apply writeFrame_inv in H as [(h & _ & _ & ->)|(e & _ & _ & ->)];
    now apply reads_ahead_same.
Qed.

Lemma keeps_protocol_refl d : keeps_protocol d d.
Proof. now repeat split. Qed.

Lemma keeps_protocol_trans d1 d2 d3 :
  keeps_protocol d1 d2 -> keeps_protocol d2 d3 -> keeps_protocol d1 d3.
Proof.
  unfold keeps_protocol. intros (A1 & B1 & C1) (A2 & B2 & C2).
  repeat split; congruence.
Qed.

Lemma keeps_protocol_read count : preserves keeps_protocol (readBytes count).
Proof.
  intros d r d' H. apply readBytes_spec in H as (buf & evs & -> & _).
  now repeat split.
Qed.

Lemma keeps_protocol_write payload : preserves keeps_protocol (writeFrame payload).
Proof.
  intros d r d' H.
  apply writeFrame_inv in H as [(h & _ & _ & ->)|(e & _ & _ & ->)]; now repeat split.
Qed.

Lemma wrote_refl ok d : wrote ok d d.
Proof. exists []. cbn. now rewrite app_nil_r. Qed.

Lemma wrote_trans ok d1 d2 d3 : wrote ok d1 d2 -> wrote ok d2 d3 -> wrote ok d1 d3.
Proof.
  intros (f1 & H1 & F1) (f2 & H2 & F2). exists (f1 ++ f2). split.
  - unfold writes_of in *. now rewrite flat_map_app, H2, H1, app_assoc.
  - now apply Forall_app.
Qed.

Lemma wrote_same ok d d' : written d' = written d -> wrote ok d d'.
Proof. intros H. exists []. cbn. now rewrite app_nil_r. Qed.

Lemma wrote_read ok count : preserves (wrote ok) (readBytes count).
Proof.
  intros d r d' H. apply readBytes_spec in H as (buf & evs & -> & _).
  now apply wrote_same.
Qed.

Lemma wrote_frame (P : Z -> Prop) op opbytes body :
  P op -> packShort op = inr opbytes ->
  preserves (wrote (opcoded_with P)) (writeFrame (opbytes ++ body)).
Proof.
  intros HP Hop d r d' H.
  apply writeFrame_inv in H as [(h & Hh & _ & ->)|(e & _ & _ & ->)];
    [|now apply wrote_same].
  exists [(h, opbytes ++ body)]. split.
  - cbn. unfold sent, push_write. cbn. now rewrite <- app_assoc.
  - constructor; [|constructor]. exists op, h, opbytes, body.
    repeat split; auto. unfold joined. cbn [fst snd].
    rewrite length_app, (packInt_length _ _ Hh), <- Hh. f_equal. lia.
Qed.

(** ** Version negotiation *)

Lemma packShort_in_range (v : Z) :
  -32768 <= v <= 32767 -> packShort v = inr (be16 v).
Proof.
  intros Hr. destruct (packShort v) as [e|bs] eqn:E.
  - unfold packShort in E. destruct (_ && _) eqn:C; [discriminate|]. lia.
  - apply packShort_be16 in E. subst. reflexivity.
Qed.

Lemma bind_resolved {A B} (m : M A) (k : A -> M B) d a d1 :
  m d = (Resolved a, d1) -> bind m k d = k a d1.
Proof. unfold bind. now intros ->. Qed.

Lemma bind_rejected {A B} (m : M A) (k : A -> M B) d e d1 :
  m d = (Rejected e, d1) -> bind m k d = (Rejected e, d1).
Proof. unfold bind. now intros ->. Qed.

Lemma bind_lift {A B} (x : HandshakeError + A) (k : A -> M B) d a :
  x = inr a -> bind (lift x) k d = k a d.
Proof. now intros ->. Qed.

Lemma readByte_settles d d' : readByte d <> (Pending, d').
Proof.
  intros H. apply readByte_spec in H as (_ & _ & _ & []).
Qed.

Lemma negotiateBody_round (version : Z) (d : NetezzaHandshake) :
  -32768 <= version <= 32767 ->
  negotiateRound version d (fst (negotiateBody version d)) (snd (negotiateBody version d)).
Proof.
  intros Hv. unfold negotiateBody.
  rewrite (bind_lift _ _ _ (be16 HSV2_CLIENT_BEGIN)) by reflexivity.
  rewrite (bind_lift _ _ _ (be16 version)) by (apply packShort_in_range; lia).
  rewrite (bind_resolved _ _ _ tt (beginSent version d))
    by (apply writeFrame_ok; reflexivity).
  destruct (readByte (beginSent version d)) as [[response|e|] d1] eqn:E1.
  - rewrite (bind_resolved _ _ _ _ _ E1).
    destruct (Byte.eqb response NOTICE_RESPONSE) eqn:CN.
    { apply byte_eqb_eq in CN. subst. cbn. now constructor. }
    destruct (Byte.eqb response CHAR_M) eqn:CM.
    { apply byte_eqb_eq in CM. subst.
      destruct (readByte d1) as [[versionChar|e|] d2] eqn:E2.
      - rewrite (bind_resolved _ _ _ _ _ E2).
        pose proof (RoundOffer version d d1 versionChar d2 E1 E2) as R.
        unfold counterOffer in R.
        repeat match goal with
               | |- context [if ?c then _ else _] => destruct c
               end; exact R.
      - rewrite (bind_rejected _ _ _ _ _ E2). cbn. econstructor 3; eassumption.
      - now apply readByte_settles in E2. }
    destruct (Byte.eqb response ERROR_RESPONSE) eqn:CE.
    { apply byte_eqb_eq in CE. subst. cbn. now constructor. }
    cbn. apply byte_eqb_neq in CN, CM, CE. econstructor 6; eassumption.
  - rewrite (bind_rejected _ _ _ _ _ E1). cbn. now constructor.
  - now apply readByte_settles in E1.
Qed.

Lemma negotiateBody_inv (version : Z) d r d' :
  -32768 <= version <= 32767 ->
  negotiateBody version d = (r, d') -> negotiateRound version d r d'.
Proof.
  intros Hv E. pose proof (negotiateBody_round version d Hv) as H.
  now rewrite E in H.
Qed.

Lemma negotiateBody_unpackable (version : Z) d r d' :
  ~ -32768 <= version <= 32767 ->
  negotiateBody version d = (r, d') -> r = Rejected (RangeError version) /\ d' = d.
Proof.
  intros Hv. unfold negotiateBody.
  rewrite (bind_lift _ _ _ (be16 HSV2_CLIENT_BEGIN)) by reflexivity.
  unfold packShort. destruct (_ && _) eqn:C; [lia|].
  cbn. intros H. now injection H as <- <-.
Qed.

Lemma counterOffer_inv (versionChar : byte) (r : Z + bool) :
  counterOffer versionChar = Resolved r ->
  exists version, r = inl version /\ 2 <= version <= 5.
Proof.
  unfold counterOffer.
  repeat match goal with
         | |- context [if ?c then _ else _] => destruct c
         end; intros H; try discriminate; injection H as <-;
    eexists; (split; [reflexivity|]); cbv; intuition discriminate.
Qed.

Lemma counterOffer_outside (versionChar : byte) :
  versionChar <> CHAR_2 -> versionChar <> CHAR_3 ->
  versionChar <> CHAR_4 -> versionChar <> CHAR_5 ->
  counterOffer versionChar = Rejected (UnsupportedVersion versionChar).
Proof.
  intros N2 N3 N4 N5. unfold counterOffer.
  apply byte_eqb_neq in N2, N3, N4, N5. now rewrite N2, N3, N4, N5.
Qed.

Lemma readByte_consumes d b d' :
  readByte d = (Resolved b, d') ->
  consumes [b] d d' /\ written d' = written d /\ keeps_protocol d d'.
Proof.
  intros H. apply readByte_spec in H as (buf & evs & -> & H).
  repeat split. exact H.
Qed.

Lemma readByte_rejected d e d' :
  readByte d = (Rejected e, d') ->
  consumes [] d d' /\ written d' = written d /\ keeps_protocol d d'.
Proof.
  intros H. apply readByte_spec in H as (buf & evs & -> & H).
  repeat split. exact H.
Qed.

Lemma negotiateBody_progresses : progresses negotiateBody.
Proof.
  intros version d version' d' E.
  destruct (Z_le_dec (-32768) version) as [L|L];
    [destruct (Z_le_dec version 32767) as [U|U]|];
    try (apply negotiateBody_unpackable in E as [E _]; [discriminate | lia]).
  apply negotiateBody_inv in E; [|lia].
  inversion E as [| | |d1 c d2 E1 E2 Hc| |]; subst.
  apply readByte_consumes in E1 as (C1 & _), E2 as (C2 & _).
  unfold consumes in *. change (inbound (beginSent version d)) with (inbound d) in C1.
  rewrite C1, C2. cbn. lia.
Qed.

(** The whole loop: what it wrote and how much it read. *)
Lemma negotiate_loop_spec :
  forall bound version d r d',
    2 <= version <= 6 ->
    loop bound negotiateBody version d = Some (r, d') ->
    exists consumed fs,
      consumes consumed d d' /\
      written d' = written d ++ writes_of fs /\
      Forall (fun f => is_begin (joined f)) fs /\
      (1 <= length fs)%nat /\
      (2 * length fs <= length consumed + 2)%nat /\
      r <> Pending /\
      forall ok, r = Resolved ok ->
        ok = true /\
        (2 * length fs = length consumed + 1)%nat /\
        (exists accepted, hsVersion d' = Some accepted /\ 2 <= accepted <= 6 /\
           exists earlier header,
             fs = earlier ++ [(header, be16 HSV2_CLIENT_BEGIN ++ be16 accepted)]) /\
        protocol2 d' = Some 0.
Proof.
  induction bound as [|bound IH]; intros version d r d' Hv H; cbn [loop] in H;
    [discriminate|].
  pose (frame := (be32 8, be16 HSV2_CLIENT_BEGIN ++ be16 version)).
  assert (Hb : is_begin (joined frame))
    by (exists version; split; [lia | reflexivity]).
  assert (Hw : forall d1, written d1 = written (beginSent version d) ->
                 written d1 = written d ++ writes_of [frame]).
  { intros d1 ->. cbn. now rewrite <- app_assoc. }
  assert (Hf : Forall (fun f => is_begin (joined f)) [frame]) by now constructor.
  destruct (negotiateBody version d) as [r0 d0] eqn:E.
  apply negotiateBody_inv in E; [|lia].
  inversion E as [e dd E1|d1 E1|d1 e dd E1 E2|d1 c d2 E1 E2 Hc|d1 E1|b d1 E1 N1 N2 N3];
    subst.
  - injection H as <- <-. apply readByte_rejected in E1 as (C1 & W1 & _).
    exists [], [frame]. repeat split; auto; try discriminate; cbn; lia.
  - injection H as <- <-. apply readByte_consumes in E1 as (C1 & W1 & _).
    exists [NOTICE_RESPONSE], [frame]. repeat split; auto; try discriminate.
    + now injection H.
    + exists version. repeat split; try lia. now exists [], (be32 8).
  - injection H as <- <-.
    apply readByte_consumes in E1 as (C1 & W1 & _).
    apply readByte_rejected in E2 as (C2 & W2 & _).
    exists [CHAR_M], [frame]. repeat split; auto; try discriminate.
    + unfold consumes in *. cbn in C2. rewrite <- C2. exact C1.
    + apply Hw. congruence.
  - rename d0 into d2.
    apply readByte_consumes in E1 as (C1 & W1 & _), E2 as (C2 & W2 & _).
    assert (C : consumes [CHAR_M; c] d d2).
    { unfold consumes in *. cbn. cbn in C2. rewrite <- C2. exact C1. }
    assert (W : written d2 = written d ++ writes_of [frame])
      by (apply Hw; congruence).
    destruct (counterOffer c) as [[version'|ok]|e|] eqn:Ec.
    + destruct (counterOffer_inv _ _ Ec) as (v & Ev & Hv'). injection Ev as ->.
      apply IH in H as (consumed & fs & C' & W' & F' & L1 & L2 & NP & S'); [|lia].
      exists (CHAR_M :: c :: consumed), (frame :: fs).
      split; [unfold consumes in *; cbn; now rewrite <- C'|].
      split; [rewrite W', W; cbn; now rewrite <- app_assoc|].
      split; [now constructor|].
      split; [cbn; lia|].
      split; [cbn; lia|].
      split; [exact NP|].
      intros ok Hok. destruct (S' ok Hok) as (S0 & S1 & (acc & Ha & Hr & earlier & header & Hfs) & S3).
      split; [exact S0|].
      split; [cbn; lia|].
      split; [|exact S3].
      exists acc. split; [exact Ha|]. split; [exact Hr|].
      exists (frame :: earlier), header. now rewrite Hfs.
    + destruct (counterOffer_inv _ _ Ec) as (v & Ev & _). discriminate.
    + injection H as <- <-. exists [CHAR_M; c], [frame].
      repeat split; auto; try discriminate. cbn. lia.
    + unfold counterOffer in Ec.
      repeat match type of Ec with
             | (if ?c then _ else _) = _ => destruct c
             end; discriminate.
  - injection H as <- <-. apply readByte_consumes in E1 as (C1 & W1 & _).
    exists [ERROR_RESPONSE], [frame]. repeat split; auto; try discriminate.
  - injection H as <- <-. apply readByte_consumes in E1 as (C1 & W1 & _).
    exists [b], [frame]. repeat split; auto; try discriminate.
Qed.

(** *** The rounds, forwards *)

Lemma negotiateBody_sent (version : Z) (d : NetezzaHandshake) :
  -32768 <= version <= 32767 ->
  negotiateBody version d
  = match readByte (beginSent version d) with
    | (Resolved response, d1) =>
        if Byte.eqb response NOTICE_RESPONSE then
          (Resolved (inr true), set_accepted d1 version)
        else if Byte.eqb response CHAR_M then
          match readByte d1 with
          | (Resolved versionChar, d2) => (counterOffer versionChar, d2)
          | (Rejected e, d2) => (Rejected e, d2)
          | (Pending, d2) => (Pending, d2)
          end
        else if Byte.eqb response ERROR_RESPONSE then (Rejected BadAttributeValue, d1)
        else (Rejected BadProtocol, d1)
    | (Rejected e, d1) => (Rejected e, d1)
    | (Pending, d1) => (Pending, d1)
    end.
Proof.
  intros Hv. unfold negotiateBody.
  rewrite (bind_lift _ _ _ (be16 HSV2_CLIENT_BEGIN)) by reflexivity.
  rewrite (bind_lift _ _ _ (be16 version)) by (apply packShort_in_range; lia).
  rewrite (bind_resolved _ _ _ tt (beginSent version d))
    by (apply writeFrame_ok; reflexivity).
  unfold bind at 1.
  destruct (readByte (beginSent version d)) as [[response|e|] d1]; try reflexivity.
  destruct (Byte.eqb response NOTICE_RESPONSE); [reflexivity|].
  destruct (Byte.eqb response CHAR_M); [|now destruct (Byte.eqb response ERROR_RESPONSE)].
  unfold bind. destruct (readByte d1) as [[versionChar|e|] d2]; try reflexivity.
  unfold counterOffer.
  repeat match goal with
         | |- context [if ?c then _ else _] => destruct c
         end; reflexivity.
Qed.

Lemma readByte_buffered (b : byte) (rest : list byte) (d : NetezzaHandshake) :
  buffer d = b :: rest -> readByte d = (Resolved b, set_buffer d rest).
Proof.
  intros H. unfold readByte, bind.
  rewrite readBytes_buffered by (rewrite H; cbn; lia). now rewrite H.
Qed.

(** No cap on the rounds: a server that counter-offers version 5 [n] times
    before it accepts is sent [n + 1] [CLIENT_BEGIN] frames. *)
Lemma rounds_follow_offers (n : nat) :
  forall version d rest,
    2 <= version <= 6 ->
    buffer d = offers n ++ NOTICE_RESPONSE :: rest ->
    exists fs d',
      run_loop negotiateBody version d = (Resolved true, d') /\
      written d' = written d ++ writes_of fs /\
      length fs = S n.
Proof.
  induction n as [|n IH]; intros version d rest Hv Hb;
    rewrite (run_loop_unfold _ _ _ negotiateBody_progresses);
    rewrite negotiateBody_sent by lia.
  - rewrite (readByte_buffered NOTICE_RESPONSE rest) by exact Hb.
    change (Byte.eqb NOTICE_RESPONSE NOTICE_RESPONSE) with true. cbv iota.
    exists [(be32 8, be16 HSV2_CLIENT_BEGIN ++ be16 version)]. eexists.
    split; [reflexivity|]. split; [|reflexivity].
    cbn. now rewrite <- app_assoc.
  - rewrite (readByte_buffered CHAR_M (CHAR_5 :: offers n ++ NOTICE_RESPONSE :: rest))
      by exact Hb.
    change (Byte.eqb CHAR_M NOTICE_RESPONSE) with false.
    change (Byte.eqb CHAR_M CHAR_M) with true. cbv iota.
    rewrite (readByte_buffered CHAR_5 (offers n ++ NOTICE_RESPONSE :: rest))
      by reflexivity.
    change (counterOffer CHAR_5) with (@Resolved (Z + bool) (inl CP_VERSION_5)).
    cbv iota.
    destruct (IH CP_VERSION_5
                (set_buffer
                   (set_buffer (beginSent version d)
                               (CHAR_5 :: offers n ++ NOTICE_RESPONSE :: rest))
                   (offers n ++ NOTICE_RESPONSE :: rest)) rest)
      as (fs & d' & E & W & L); [cbv; split; discriminate | reflexivity |].
    exists ((be32 8, be16 HSV2_CLIENT_BEGIN ++ be16 version) :: fs), d'.
    split; [exact E|]. split; [|cbn; now rewrite L].
    rewrite W.
    cbn [writes_of flat_map fst snd written set_buffer set_io beginSent sent
         push_write app].
    now rewrite <- !app_assoc.
Qed.

(** ** The metadata stream *)

Lemma frame_header (op : Z) (opbytes body header : list byte) :
  packShort op = inr opbytes ->
  packInt (Z.of_nat (length (opbytes ++ body)) + 4) = inr header ->
  header ++ opbytes ++ body = spec_frame op body.
Proof.
  intros Hop Hh. unfold spec_frame.
  rewrite length_app, (packShort_length _ _ Hop) in Hh.
  apply packInt_be32 in Hh. apply packShort_be16 in Hop. subst.
  do 2 f_equal. lia.
Qed.

(** The loop over an array that ends with [CLIENT_DONE]: whatever the
    server answers, the frames written are a front part of the array's
    frames; all of them when the loop returns [true], and then every
    frame but the last was answered with ['N']. *)
Lemma sendSteps_stream (steps : list Step) :
  Forall (fun step => opcode step <> HSV2_CLIENT_DONE
                      /\ -32768 <= opcode step <= 32767) steps ->
  forall d r d',
    sendSteps (steps ++ [done_step]) d = (r, d') ->
    exists fs acks rest,
      written d' = written d ++ writes_of fs /\
      consumes acks d d' /\
      keeps_protocol d d' /\
      map joined fs ++ rest
      = flat_map live_frame steps ++ [spec_frame HSV2_CLIENT_DONE []] /\
      r <> Pending /\
      (r = Resolved true ->
       rest = [] /\ acks = repeat NOTICE_RESPONSE (pred (length fs))) /\
      (rest = [] -> r = Resolved true).
Proof.
  induction steps as [|step steps IH]; intros Hs d r d' H.
  - cbn in H. injection H as <- <-.
    exists [(be32 6, be16 HSV2_CLIENT_DONE)], [], [].
    repeat split; try discriminate.
    cbn. unfold sent, push_write. cbn. now rewrite <- app_assoc.
  - inversion Hs as [|? ? [Hd Hr] Hs']; subst. specialize (IH Hs').
    cbn [app sendSteps] in H.
    assert (Hne : (opcode step =? HSV2_CLIENT_DONE) = false) by now apply Z.eqb_neq.
    rewrite Hne in H. cbn [negb] in H. rewrite andb_true_r in H.
    unfold live_frame at 1. cbn [flat_map].
    destruct (data step) as [body|] eqn:Ed; cbn [is_null] in H.
    2:{ apply IH in H. exact H. }
    rewrite (bind_lift _ _ _ (be16 (opcode step))) in H
      by now apply packShort_in_range.
    pose proof (packShort_in_range _ Hr) as Hop.
    destruct (writeFrame (be16 (opcode step) ++ body) d) as [rw dw] eqn:Ew.
    pose proof Ew as Ew'.
    apply writeFrame_inv in Ew' as [(h & Hh & -> & ->)|(e & _ & -> & ->)].
    2:{ rewrite (bind_rejected _ _ _ _ _ Ew) in H. injection H as <- <-.
        exists [], [], (spec_frame (opcode step) body
                          :: flat_map live_frame steps ++ [spec_frame HSV2_CLIENT_DONE []]).
        repeat split; try discriminate. cbn. now rewrite app_nil_r. }
    rewrite (bind_resolved _ _ _ _ _ Ew) in H.
    pose proof (frame_header _ _ _ _ Hop Hh) as Hf.
    set (d0 := sent h (be16 (opcode step) ++ body) d) in *.
    assert (Hw : written d0 = written d ++ writes_of [(h, be16 (opcode step) ++ body)]).
    { cbn. now rewrite <- app_assoc. }
    destruct (readByte d0) as [[b|e|] d1] eqn:E1.
    + rewrite (bind_resolved _ _ _ _ _ E1) in H.
      apply readByte_consumes in E1 as (C1 & W1 & K1).
      destruct (Byte.eqb b NOTICE_RESPONSE) eqn:Cb; cbn [negb] in H.
      * apply byte_eqb_eq in Cb. subst b.
        apply IH in H as (fs & acks & rest & W & C & K & S & NP & T & T').
        exists ((h, be16 (opcode step) ++ body) :: fs), (NOTICE_RESPONSE :: acks), rest.
        split; [rewrite W, W1, Hw; cbn; now rewrite <- app_assoc|].
        split; [unfold consumes in *; cbn; rewrite <- C; exact C1|].
        split; [eapply keeps_protocol_trans; [exact K1 | exact K]|].
        split; [cbn [map app]; unfold joined at 1; cbn [fst snd]; rewrite Hf, S; reflexivity|].
        split; [exact NP|].
        split; [|exact T'].
        intros Hr'. destruct (T Hr') as (-> & ->). split; [reflexivity|].
        rewrite app_nil_r in S. destruct fs as [|f fs].
        { destruct (flat_map live_frame steps); discriminate. }
        reflexivity.
      * exists [(h, be16 (opcode step) ++ body)], [b],
          (flat_map live_frame steps ++ [spec_frame HSV2_CLIENT_DONE []]).
        assert (r <> Resolved true /\ r <> Pending /\ d' = d1) as (Nt & NP & ->).
        { destruct (Byte.eqb b ERROR_RESPONSE); injection H as <- <-;
            repeat split; discriminate. }
        split; [congruence|].
        split; [exact C1|].
        split; [exact K1|].
        split; [cbn [map app]; unfold joined; cbn [fst snd]; now rewrite Hf|].
        split; [exact NP|].
        split; [intros; contradiction|].
        intros Hn. destruct (flat_map live_frame steps); discriminate.
    + rewrite (bind_rejected _ _ _ _ _ E1) in H. injection H as <- <-.
      apply readByte_rejected in E1 as (C1 & W1 & K1).
      exists [(h, be16 (opcode step) ++ body)], [],
        (flat_map live_frame steps ++ [spec_frame HSV2_CLIENT_DONE []]).
      split; [congruence|].
      split; [exact C1|].
      split; [exact K1|].
      split; [cbn [map app]; unfold joined; cbn [fst snd]; now rewrite Hf|].
      split; [discriminate|].
      split; [discriminate|].
      intros Hn. destruct (flat_map live_frame steps); discriminate.
    + now apply readByte_settles in E1.
Qed.

Arguments be16 : simpl never.
Arguments be32 : simpl never.
Arguments spec_frame : simpl never.

Lemma finishSteps_by_version (d0 : NetezzaHandshake) (steps : list Step) (v : Z) d :
  hsVersion d0 = Some v ->
  finishSteps d0 steps d
  = (Resolved (steps
               ++ (if in_versions v [5; 6]
                   then [mkStep HSV2_64BIT_VARLENA_ENABLED (Some (be16 IPS_CLIENT))]
                   else [])
               ++ [done_step]), d).
Proof.
  intros Hv. unfold finishSteps. rewrite Hv. cbn [is_num in_versions existsb].
  unfold CP_VERSION_5, CP_VERSION_6. rewrite orb_false_r.
  destruct (v =? 5) eqn:E5; [|destruct (v =? 6) eqn:E6]; cbn [orb].
  - unfold bind, lift, ret. cbn. now rewrite <- app_assoc.
  - unfold bind, lift, ret. cbn. now rewrite <- app_assoc.
  - reflexivity.
Qed.

Lemma live_options (pgOptions : string) :
  live_frame (mkStep HSV2_OPTIONS (optionsData pgOptions))
  = match pgOptions with
    | EmptyString => []
    | _ => [spec_frame 4 (spec_cstring pgOptions)]
    end.
Proof. destruct pgOptions; reflexivity. Qed.


Lemma streamed_nothing (stream : list (list byte)) d e :
  stream <> [] -> streamed stream d (Rejected e) d.
Proof.
  intros Hn. exists [], [], stream. repeat split; try discriminate.
  - cbn. now rewrite app_nil_r.
  - intros ->. contradiction.
Qed.

Lemma metadataStream_nonempty host v user pgOptions p1 p2 :
  metadataStream host v user pgOptions p1 p2 <> [].
Proof. unfold metadataStream. discriminate. Qed.

Section Senders.

Variable host : Host.
Variables user pgOptions : string.
Variable d : NetezzaHandshake.
Variable v : Z.
Hypothesis Hv : hsVersion d = Some v.

Let p1 := js_number (protocol1 d).
Let p2 := js_number (protocol2 d).

(** The array's frames are the specification's stream. *)
Lemma sender_stream (audit : bool) r d' :
  in_versions v [4; 6] = audit ->
  (p1b <- lift (packShort p1) ;;
   p2b <- lift (packShort p2) ;;
   remotePid <- lift (packInt (pid host)) ;;
   clientType <- lift (packShort NPSCLIENT_TYPE_NODE) ;;
   steps <- finishSteps d
     ([mkStep HSV2_USER (Some (cstring user))]
      ++ (if audit
          then [mkStep HSV2_APPNAME (Some (cstring (appName host)));
                mkStep HSV2_CLIENT_OS (Some (cstring (clientOS host)));
                mkStep HSV2_CLIENT_HOST_NAME (Some (cstring (clientHostName host)));
                mkStep HSV2_CLIENT_OS_USER (Some (cstring (clientOSUser host)))]
          else [])
      ++ [mkStep HSV2_PROTOCOL (Some (p1b ++ p2b));
          mkStep HSV2_REMOTE_PID (Some remotePid);
          mkStep HSV2_OPTIONS (optionsData pgOptions);
          mkStep HSV2_CLIENT_TYPE (Some clientType)]) ;;
   sendSteps steps) d = (r, d') ->
  streamed (metadataStream host v user pgOptions p1 p2) d r d'.
Proof.
  intros Ha H.
  pose proof (metadataStream_nonempty host v user pgOptions p1 p2) as Hn.
  destruct (packShort p1) as [e|p1b] eqn:E1;
    [cbn in H; injection H as <- <-; now apply streamed_nothing|].
  destruct (packShort p2) as [e|p2b] eqn:E2;
    [cbn in H; injection H as <- <-; now apply streamed_nothing|].
  destruct (packInt (pid host)) as [e|remotePid] eqn:E3;
    [cbn in H; injection H as <- <-; now apply streamed_nothing|].
  rewrite (bind_lift _ _ _ p1b), (bind_lift _ _ _ p2b), (bind_lift _ _ _ remotePid),
    (bind_lift _ _ _ (be16 NPSCLIENT_TYPE_NODE)) in H by reflexivity.
  rewrite (bind_resolved _ _ _ _ _ (finishSteps_by_version d _ v d Hv)) in H.
  rewrite !app_assoc in H.
  apply sendSteps_stream in H.
  - apply packShort_be16 in E1, E2. apply packInt_be32 in E3. subst p1b p2b remotePid.
    unfold metadataStream. rewrite Ha.
    rewrite !flat_map_app in H. cbn [flat_map] in H. rewrite live_options in H.
    unfold cstring, NULL_BYTE in H. unfold spec_cstring.
    destruct audit, (in_versions v [5; 6]); cbn [flat_map live_frame data opcode app] in H;
      rewrite ?app_nil_r in H; rewrite <- ?app_assoc in H; exact H.
  - rewrite !Forall_app. repeat split;
      try (destruct audit); try (destruct (in_versions v [5; 6]));
      repeat (apply Forall_cons || apply Forall_nil); cbv; repeat split; intro; discriminate.
Qed.

End Senders.

Lemma sendHandshakeVersion_stream host user pgOptions d v r d' :
  hsVersion d = Some v -> 2 <= v <= 6 ->
  sendHandshakeVersion host (Some user) pgOptions d = (r, d') ->
  streamed (metadataStream host v user pgOptions
                           (js_number (protocol1 d)) (js_number (protocol2 d))) d r d'.
Proof.
  intros Hv Hr H. unfold sendHandshakeVersion in H. rewrite Hv in H.
  assert (Hc : v = 2 \/ v = 3 \/ v = 4 \/ v = 5 \/ v = 6) by lia.
  destruct Hc as [->|[->|[->|[->| ->]]]]; cbn [is_num] in H;
    match type of H with
    | context [sendHandshakeVersion4] =>
        change (sendHandshakeVersion4 host (Some user) pgOptions d = (r, d')) in H;
        unfold sendHandshakeVersion4 in H;
        now apply (sender_stream host user pgOptions d _ Hv true)
    | _ =>
        change (sendHandshakeVersion2 host (Some user) pgOptions d = (r, d')) in H;
        unfold sendHandshakeVersion2 in H;
        now apply (sender_stream host user pgOptions d _ Hv false)
    end.
Qed.

(** Without a user name the senders throw before they write. *)
Lemma sendHandshakeVersion_no_user host pgOptions d v :
  hsVersion d = Some v -> 2 <= v <= 6 ->
  sendHandshakeVersion host None pgOptions d = (Rejected TypeError, d).
Proof.
  intros Hv Hr. unfold sendHandshakeVersion. rewrite Hv.
  assert (Hc : v = 2 \/ v = 3 \/ v = 4 \/ v = 5 \/ v = 6) by lia.
  destruct Hc as [->|[->|[->|[->| ->]]]]; reflexivity.
Qed.

Lemma frames_writes_of (fs : list (list byte * list byte)) :
  frames (writes_of fs) = map joined fs.
Proof.
  induction fs as [|[h p] fs IH]; cbn; [reflexivity|]. now rewrite <- IH.
Qed.

Lemma is_begin_opcode (f : list byte) :
  is_begin f -> has_opcode HSV2_CLIENT_BEGIN f = true.
Proof. intros (v & _ & ->). reflexivity. Qed.

Lemma count_begin (fs : list (list byte * list byte)) :
  Forall (fun f => is_begin (joined f)) fs ->
  count_opcode HSV2_CLIENT_BEGIN (map joined fs) = length fs.
Proof.
  unfold count_opcode. induction 1 as [|f fs Hf _ IH]; [reflexivity|].
  cbn [map filter]. rewrite (is_begin_opcode _ Hf). cbn. now rewrite IH.
Qed.

(** *** Rounds without a cap *)

Lemma readByte_arriving (b : byte) (rest : list byte) (evs : list event)
  (d : NetezzaHandshake) :
  buffer d = [] -> incoming d = EvData (b :: rest) :: evs ->
  readByte d = (Resolved b, set_io d rest evs).
Proof.
  intros Hb Hi. unfold readByte, bind, readBytes. rewrite Hb, Hi. reflexivity.
Qed.

(** Sent [n] counter-offers of 5 and then ['N'] in one segment, the
    negotiation writes [n + 1] frames. *)
Lemma rounds_from_events (n : nat) :
  length (frames (written (snd (negotiateHandshake
                                  (new_handshake [EvData (offers n ++ [NOTICE_RESPONSE])])))))
  = S n.
Proof.
  set (d := new_handshake [EvData (offers n ++ [NOTICE_RESPONSE])]).
  unfold negotiateHandshake.
  rewrite (run_loop_unfold _ _ _ negotiateBody_progresses).
  rewrite negotiateBody_sent by (cbv; split; discriminate).
  destruct n as [|n].
  - rewrite (readByte_arriving NOTICE_RESPONSE [] []) by reflexivity.
    reflexivity.
  - rewrite (readByte_arriving CHAR_M (CHAR_5 :: offers n ++ [NOTICE_RESPONSE]) [])
      by reflexivity.
    change (Byte.eqb CHAR_M NOTICE_RESPONSE) with false.
    change (Byte.eqb CHAR_M CHAR_M) with true. cbv iota.
    rewrite (readByte_buffered CHAR_5 (offers n ++ [NOTICE_RESPONSE])) by reflexivity.
    change (counterOffer CHAR_5) with (@Resolved (Z + bool) (inl CP_VERSION_5)).
    cbv iota.
    match goal with
    | |- context [run_loop negotiateBody CP_VERSION_5 ?d2] =>
        destruct (rounds_follow_offers n CP_VERSION_5 d2 [])
          as (fs & d' & E & W & L); [cbv; split; discriminate | reflexivity |]
    end.
    rewrite E. cbn [snd]. rewrite W.
    change (written _ ++ writes_of fs)
      with (writes_of ((be32 8, be16 HSV2_CLIENT_BEGIN ++ be16 CP_VERSION_6) :: fs)).
    rewrite frames_writes_of, length_map. cbn. now rewrite L.
Qed.

(** ** Whole phases *)

Lemma frame_opcode_spec (op : Z) (body : list byte) :
  0 <= op < 65536 -> frame_opcode (spec_frame op body) = Some op.
Proof.
  intros Hr. unfold spec_frame, be32, be16, frame_opcode. cbn [app].
  rewrite !Z_of_byte_of_Z. f_equal. Z.div_mod_to_equations. lia.
Qed.

Lemma has_opcode_spec_frame (op op' : Z) (body : list byte) :
  0 <= op' < 65536 -> has_opcode op (spec_frame op' body) = (op' =? op).
Proof.
  intros Hr. unfold has_opcode. now rewrite frame_opcode_spec.
Qed.

Lemma count_opcode_app (op : Z) (fs gs : list (list byte)) :
  count_opcode op (fs ++ gs) = (count_opcode op fs + count_opcode op gs)%nat.
Proof. unfold count_opcode. now rewrite filter_app, length_app. Qed.

Lemma count_done_stream host v user pgOptions p1 p2 :
  count_opcode HSV2_CLIENT_DONE (metadataStream host v user pgOptions p1 p2) = 1%nat.
Proof.
  unfold metadataStream. rewrite !count_opcode_app.
  destruct (in_versions v [4; 6]), (in_versions v [5; 6]), pgOptions;
    unfold count_opcode; cbn [filter];
    rewrite !has_opcode_spec_frame by lia; reflexivity.
Qed.

(** Phase 1 writes [CLIENT_BEGIN] frames only, phase 2 none. *)
Lemma negotiateHandshake_spec d r d' :
  negotiateHandshake d = (r, d') ->
  loop (S (length (inbound d))) negotiateBody CP_VERSION_6 d = Some (r, d').
Proof.
  intros H. rewrite <- H. apply run_loop_eq; [apply negotiateBody_progresses | lia].
Qed.

Lemma sendHandshakeInfo_wrote (P : Z -> Prop) host database securityLevel user pgOptions :
  (forall op, 2 <= op <= 1000 -> P op) ->
  preserves (wrote (opcoded_with P))
            (sendHandshakeInfo host database securityLevel user pgOptions).
Proof.
  intros HP.
  apply (sendHandshakeInfo_preserves (wrote (opcoded_with P)) P);
    try (intros; now apply wrote_same).
  - apply wrote_trans.
  - apply wrote_read.
  - apply wrote_frame.
  - intros op [<-|[<-|[<-|[]]]]; apply HP; cbv; split; discriminate.
  - intros op Hin. apply HP. cbn in Hin.
    repeat (destruct Hin as [<-|Hin]; [cbv; split; discriminate|]). contradiction.
Qed.

Lemma negotiateBody_wrote (P : Z -> Prop) version :
  P HSV2_CLIENT_BEGIN -> preserves (wrote (opcoded_with P)) (negotiateBody version).
Proof.
  intros HP. unfold negotiateBody.
  repeat pres_step (wrote_refl (opcoded_with P)) (wrote_trans (opcoded_with P)).
  - now apply (wrote_frame P HSV2_CLIENT_BEGIN).
  - unfold readByte.
    repeat pres_step (wrote_refl (opcoded_with P)) (wrote_trans (opcoded_with P)).
    apply wrote_read.
  - intros d0 r0 d0' E0. injection E0 as <- <-. now apply wrote_same.
  - unfold readByte.
    repeat pres_step (wrote_refl (opcoded_with P)) (wrote_trans (opcoded_with P)).
    apply wrote_read.
Qed.

Lemma negotiateHandshake_wrote (P : Z -> Prop) :
  P HSV2_CLIENT_BEGIN -> preserves (wrote (opcoded_with P)) negotiateHandshake.
Proof.
  intros HP. apply run_loop_preserves.
  - apply wrote_refl.
  - apply wrote_trans.
  - intros version. now apply negotiateBody_wrote.
Qed.

(** *** A run of [startup] that resolves *)

Lemma if_negb_inv {A} (ok : bool) (e : HandshakeError) (k : M A) d (a : A) d' :
  (if negb ok then throw e else k) d = (Resolved a, d') ->
  ok = true /\ k d = (Resolved a, d').
Proof. destruct ok; cbn; [auto | discriminate]. Qed.

Lemma bind_inv_resolved {A B} (m : M A) (k : A -> M B) d b d' :
  bind m k d = (Resolved b, d') ->
  exists a d1, m d = (Resolved a, d1) /\ k a d1 = (Resolved b, d').
Proof.
  intros H. apply bind_inv in H as [H|[(e & _ & H)|(_ & H)]];
    [exact H | discriminate | discriminate].
Qed.

Lemma startup_resolved host crypto database securityLevel user password pgOptions
  d res d' :
  startup host crypto database securityLevel user password pgOptions d
  = (Resolved res, d') ->
  exists d1 d2 d3 d4,
    negotiateHandshake d = (Resolved true, d1) /\
    sendHandshakeInfo host database securityLevel user pgOptions d1 = (Resolved true, d2) /\
    authenticate crypto password d2 = (Resolved true, d3) /\
    waitConnectionComplete d3 = (Resolved true, d4) /\
    res = mkResult true (secure d4) (buffer d4) true /\
    d' = set_buffer d4 [].
Proof.
  unfold startup. intros H.
  destruct (startup_try _ _ _ _ _ _ _ d) as [[res0|e|] d0] eqn:E; try discriminate.
  injection H as -> ->. unfold startup_try in E.
  apply bind_inv_resolved in E as (ok1 & d1 & H1 & E).
  apply if_negb_inv in E as (-> & E).
  apply bind_inv_resolved in E as (ok2 & d2 & H2 & E).
  apply if_negb_inv in E as (-> & E).
  apply bind_inv_resolved in E as (ok3 & d3 & H3 & E).
  apply if_negb_inv in E as (-> & E).
  apply bind_inv_resolved in E as (ok4 & d4 & H4 & E).
  apply if_negb_inv in E as (-> & E).
  injection E as <- <-. now exists d1, d2, d3, d4.
Qed.

Lemma if_negb_false_inv (ok : bool) (k : M bool) d d' :
  (if negb ok then ret false else k) d = (Resolved true, d') ->
  ok = true /\ k d = (Resolved true, d').
Proof. destruct ok; cbn; [auto | discriminate]. Qed.

Lemma sendHandshakeInfo_resolved host database securityLevel user pgOptions d d' :
  sendHandshakeInfo host database securityLevel user pgOptions d = (Resolved true, d') ->
  exists d1 d2 d3,
    sendDatabase database d = (Resolved true, d1) /\
    setNextDataProtocol d1 = (Resolved true, d2) /\
    secureSession host securityLevel d2 = (Resolved true, d3) /\
    sendHandshakeVersion host user pgOptions d3 = (Resolved true, d').
Proof.
  unfold sendHandshakeInfo. intros E.
  apply bind_inv_resolved in E as (ok1 & d1 & H1 & E).
  apply if_negb_false_inv in E as (-> & E).
  apply bind_inv_resolved in E as (ok2 & d2 & H2 & E).
  apply if_negb_false_inv in E as (-> & E).
  apply bind_inv_resolved in E as (ok3 & d3 & H3 & E).
  apply if_negb_false_inv in E as (-> & E).
  now exists d1, d2, d3.
Qed.

(** *** The negotiated values stay *)

Lemma keeps_protocol_frame (op : Z) (opbytes body : list byte) :
  True -> packShort op = inr opbytes ->
  preserves keeps_protocol (writeFrame (opbytes ++ body)).
Proof. intros _ _. apply keeps_protocol_write. Qed.

Ltac keeps_tac :=
  first [ exact keeps_protocol_refl | exact keeps_protocol_trans
        | exact keeps_protocol_read | exact keeps_protocol_frame
        | exact keeps_protocol_write | intros; exact I | intros; now repeat split ].

Lemma sendDatabase_keeps database : preserves keeps_protocol (sendDatabase database).
Proof.
  apply (sendDatabase_preserves keeps_protocol (fun _ => True)); keeps_tac.
Qed.

Lemma secureSession_keeps host securityLevel :
  preserves keeps_protocol (secureSession host securityLevel).
Proof.
  apply (secureSession_preserves keeps_protocol (fun _ => True)); keeps_tac.
Qed.

Lemma sendHandshakeVersion_keeps host user pgOptions :
  preserves keeps_protocol (sendHandshakeVersion host user pgOptions).
Proof.
  apply (sendHandshakeVersion_preserves keeps_protocol (fun _ => True)); keeps_tac.
Qed.

Lemma authenticate_keeps crypto password :
  preserves keeps_protocol (authenticate crypto password).
Proof.
  apply authenticate_preserves; keeps_tac.
Qed.

Lemma waitConnectionComplete_keeps : preserves keeps_protocol waitConnectionComplete.
Proof.
  apply waitConnectionComplete_preserves; keeps_tac.
Qed.

Lemma negotiateHandshake_sentinel d ok d' :
  negotiateHandshake d = (Resolved ok, d') ->
  ok = true /\ protocol2 d' = Some 0 /\
  exists accepted, hsVersion d' = Some accepted /\ 2 <= accepted <= 6.
Proof.
  intros H. apply negotiateHandshake_spec in H.
  apply negotiate_loop_spec in H as (consumed & fs & _ & _ & _ & _ & _ & _ & S);
    [|cbv; split; discriminate].
  destruct (S ok eq_refl) as (Hok & _ & (acc & Ha & Hr & _) & P2).
  repeat split; auto. now exists acc.
Qed.

(** ** The completion drain *)

Lemma reads_ahead_length d d' :
  reads_ahead d d' -> (length (inbound d') <= length (inbound d))%nat.
Proof.
  intros [consumed H]. unfold consumes in H. rewrite H, length_app. lia.
Qed.

Ltac reads_tac :=
  first [ exact reads_ahead_refl | exact reads_ahead_trans
        | exact reads_ahead_read | exact reads_ahead_write
        | intros; apply reads_ahead_write | intros; exact I
        | intros; now apply reads_ahead_same ].

Lemma readInt_reads : preserves reads_ahead readInt.
Proof.
  apply readInt_preserves; reads_tac.
Qed.

Lemma afterFiller_reads msgType : preserves reads_ahead (afterFiller msgType).
Proof.
  unfold afterFiller.
  repeat pres_step reads_ahead_refl reads_ahead_trans; apply readInt_reads.
Qed.

Lemma bind_bind_ret {A B} (m : M A) (k : M B) d :
  bind (bind m (fun _ => ret tt)) (fun _ => k) d = bind m (fun _ => k) d.
Proof. unfold bind, ret. now destruct (m d) as [[a|e|] d1]. Qed.

(** One round, by the type byte. *)
Lemma drainBody_request d d1 :
  readByte d = (Resolved AUTHENTICATION_REQUEST, d1) ->
  drainBody tt d = (authType <- readInt ;; ret (inl tt)) d1.
Proof.
  intros E. unfold drainBody. rewrite (bind_resolved _ _ _ _ _ E). reflexivity.
Qed.

Lemma drainBody_notice d d1 :
  readByte d = (Resolved NOTICE_RESPONSE, d1) ->
  drainBody tt d = (readBytes 4 ;;; ret (inl tt)) d1.
Proof.
  intros E. unfold drainBody. rewrite (bind_resolved _ _ _ _ _ E). reflexivity.
Qed.

Lemma drainBody_error d d1 :
  readByte d = (Resolved ERROR_RESPONSE, d1) ->
  drainBody tt d
  = (errorBuf <- readBytes 2000 ;;
     throw (ServerError (removeNulls (toStringUtf8 errorBuf)))) d1.
Proof.
  intros E. unfold drainBody. rewrite (bind_resolved _ _ _ _ _ E). reflexivity.
Qed.

Lemma drainBody_other d msgType d1 :
  readByte d = (Resolved msgType, d1) ->
  msgType <> AUTHENTICATION_REQUEST ->
  msgType <> NOTICE_RESPONSE ->
  msgType <> ERROR_RESPONSE ->
  drainBody tt d = (readBytes 8 ;;; afterFiller msgType) d1.
Proof.
  intros E NR NN NE. unfold drainBody. rewrite (bind_resolved _ _ _ _ _ E).
  apply byte_eqb_neq in NR, NN, NE. rewrite NR, NN, NE. cbn [negb andb].
  rewrite bind_bind_ret. reflexivity.
Qed.

Lemma tail_reads {A} (m : M A) d1 r d' :
  preserves reads_ahead m -> m d1 = (r, d') -> reads_ahead d1 d'.
Proof. intros P H. exact (P _ _ _ H). Qed.

(** A round either fails, or has read a type byte and then at most what
    follows it; it leaves the loop only on ['Z'], after the eight bytes
    behind it. *)
Lemma drainBody_inv d r d' :
  drainBody tt d = (r, d') ->
  (exists e, r = Rejected e) \/ r = Pending \/
  exists msgType d1,
    readByte d = (Resolved msgType, d1) /\
    reads_ahead d1 d' /\
    forall ok, r = Resolved (inr ok) ->
      ok = true /\ msgType = READY_FOR_QUERY /\
      exists filler, readBytes 8 d1 = (Resolved filler, d').
Proof.
  intros H. destruct (readByte d) as [[msgType|e|] d1] eqn:E.
  2:{ left. unfold drainBody in H. rewrite (bind_rejected _ _ _ _ _ E) in H.
      injection H as <- <-. now exists e. }
  2:{ now apply readByte_settles in E. }
  right. right. exists msgType, d1. split; [reflexivity|].
  destruct (Byte.byte_eq_dec msgType AUTHENTICATION_REQUEST) as [->|NR].
  { rewrite (drainBody_request _ _ E) in H. split.
    - revert H. apply tail_reads.
      repeat pres_step reads_ahead_refl reads_ahead_trans. apply readInt_reads.
    - intros ok ->. apply bind_inv_resolved in H as (a & d2 & _ & H). discriminate. }
  destruct (Byte.byte_eq_dec msgType NOTICE_RESPONSE) as [->|NN].
  { rewrite (drainBody_notice _ _ E) in H. split.
    - revert H. apply tail_reads.
      repeat pres_step reads_ahead_refl reads_ahead_trans. apply reads_ahead_read.
    - intros ok ->. apply bind_inv_resolved in H as (a & d2 & _ & H). discriminate. }
  destruct (Byte.byte_eq_dec msgType ERROR_RESPONSE) as [->|NE].
  { rewrite (drainBody_error _ _ E) in H. split.
    - revert H. apply tail_reads.
      repeat pres_step reads_ahead_refl reads_ahead_trans. apply reads_ahead_read.
    - intros ok ->. apply bind_inv_resolved in H as (a & d2 & _ & H). discriminate. }
  rewrite (drainBody_other _ _ _ E NR NN NE) in H. split.
  - revert H. apply tail_reads.
    repeat pres_step reads_ahead_refl reads_ahead_trans;
      try apply reads_ahead_read. apply afterFiller_reads.
  - intros ok ->. apply bind_inv_resolved in H as (filler & d2 & E8 & H).
    unfold afterFiller in H.
    destruct (Byte.eqb msgType BACKEND_KEY_DATA).
    { apply bind_inv_resolved in H as (a & d3 & _ & H).
      apply bind_inv_resolved in H as (b & d4 & _ & H). discriminate. }
    destruct (Byte.eqb msgType READY_FOR_QUERY) eqn:CZ; [|discriminate].
    apply byte_eqb_eq in CZ. injection H as <- <-.
    repeat split; auto. now exists filler.
Qed.

Lemma drainBody_progresses : progresses drainBody.
Proof.
  intros [] d [] d' H.
  apply drainBody_inv in H as [(e & H)|[H|(b & d1 & E & R & _)]]; try discriminate.
  apply readByte_consumes in E as (C & _). apply reads_ahead_length in R.
  unfold consumes in C. rewrite C. cbn. lia.
Qed.

(** The drain as a whole: it returns after the first ['Z'] that stands
    where a type byte is expected, and the eight bytes behind it. *)
Lemma drain_loop_spec :
  forall bound d ok d',
    loop bound drainBody tt d = Some (Resolved ok, d') ->
    ok = true /\
    exists messages filler,
      length filler = 8%nat /\
      inbound d = messages ++ [READY_FOR_QUERY] ++ filler ++ inbound d'.
Proof.
  induction bound as [|bound IH]; intros d ok d' H; cbn [loop] in H; [discriminate|].
  destruct (drainBody tt d) as [r0 d0] eqn:E.
  pose proof (drainBody_inv _ _ _ E) as [(e & ->)|[->|(b & d1 & E1 & R & Z)]];
    try discriminate.
  apply readByte_consumes in E1 as (C1 & _). unfold consumes in C1.
  destruct r0 as [[[]|ok0]|e|]; try discriminate.
  - apply IH in H as (-> & messages & filler & L & S). split; [reflexivity|].
    destruct R as [c R]. unfold consumes in R.
    exists (b :: c ++ messages), filler. split; [exact L|].
    rewrite C1, R, S. cbn. now rewrite <- app_assoc.
  - injection H as <- <-.
    destruct (Z ok0 eq_refl) as (-> & -> & filler & E8). split; [reflexivity|].
    apply readBytes_spec in E8 as (_ & _ & _ & L & S).
    exists [], filler. split; [exact L|]. rewrite C1, S. reflexivity.
Qed.

Lemma waitConnectionComplete_spec d ok d' :
  waitConnectionComplete d = (Resolved ok, d') ->
  ok = true /\
  exists messages filler,
    length filler = 8%nat /\
    inbound d = messages ++ [READY_FOR_QUERY] ++ filler ++ inbound d'.
Proof.
  intros H. apply (drain_loop_spec (S (length (inbound d)))).
  rewrite <- H. apply run_loop_eq; [apply drainBody_progresses | lia].
Qed.

(** *** What the other phases read *)

Lemma negotiateHandshake_reads : preserves reads_ahead negotiateHandshake.
Proof.
  intros d r d' H. apply negotiateHandshake_spec in H.
  apply negotiate_loop_spec in H as (consumed & _ & C & _); [|cbv; split; discriminate].
  now exists consumed.
Qed.

Lemma sendHandshakeInfo_reads host database securityLevel user pgOptions :
  preserves reads_ahead (sendHandshakeInfo host database securityLevel user pgOptions).
Proof.
  apply (sendHandshakeInfo_preserves reads_ahead (fun _ => True)); reads_tac.
Qed.

Lemma authenticate_reads crypto password :
  preserves reads_ahead (authenticate crypto password).
Proof.
  apply authenticate_preserves; reads_tac.
Qed.

(** The drain ends on every server input: any bound above the number of
    inbound bytes gives the result of [waitConnectionComplete]. *)
Lemma waitConnectionComplete_ends (d : NetezzaHandshake) (bound : nat) :
  (length (inbound d) < bound)%nat ->
  loop bound drainBody tt d = Some (waitConnectionComplete d).
Proof. apply run_loop_eq, drainBody_progresses. Qed.

(** ** Reads compose *)

Lemma readBytes_readFrom (count : nat) (d : NetezzaHandshake) :
  readBytes count d =
  let '(r, (buf, evs)) := readFrom count (buffer d) (incoming d) in
  (r, set_io d buf evs).
Proof.
  unfold readBytes, readFrom. destruct (count <=? length (buffer d))%nat; reflexivity.
Qed.

Lemma awaitBytes_behind (n : nat) (evs : list event) :
  forall buf m b buf2 evs2,
    (m <= length buf)%nat ->
    awaitBytes n evs (skipn m buf) = (Resolved b, (buf2, evs2)) ->
    awaitBytes (m + n) evs buf = (Resolved (firstn m buf ++ b), (buf2, evs2)).
Proof.
  induction evs as [|ev evs IH]; intros buf m b buf2 evs2 Hm H; cbn in H |- *.
  - discriminate H.
  - destruct ev as [chunk| |message]; try discriminate H.
    assert (Hs : skipn m buf ++ chunk = skipn m (buf ++ chunk)).
    { rewrite skipn_app. replace (m - length buf)%nat with 0%nat by lia. reflexivity. }
    assert (Hf : firstn m (buf ++ chunk) = firstn m buf).
    { rewrite firstn_app. replace (m - length buf)%nat with 0%nat by lia.
      cbn. apply app_nil_r. }
    rewrite Hs in H.
    assert (Hl : length (skipn m (buf ++ chunk)) = (length (buf ++ chunk) - m)%nat)
      by apply length_skipn.
    assert (Hb : (m <= length (buf ++ chunk))%nat) by (rewrite length_app; lia).
    destruct (n <=? length (skipn m (buf ++ chunk)))%nat eqn:C.
    + apply Nat.leb_le in C.
      replace (m + n <=? length (buf ++ chunk))%nat with true
        by (symmetry; apply Nat.leb_le; lia).
      injection H as <- <- <-. f_equal; [|now rewrite skipn_skipn, Nat.add_comm].
      f_equal. rewrite <- Hf. rewrite <- (firstn_skipn m (buf ++ chunk)) at 1.
      rewrite firstn_app, firstn_firstn, length_firstn.
      replace (Nat.min (m + n) m) with m by lia.
      replace (m + n - Nat.min m (length (buf ++ chunk)))%nat with n by lia.
      reflexivity.
    + apply Nat.leb_gt in C.
      replace (m + n <=? length (buf ++ chunk))%nat with false
        by (symmetry; apply Nat.leb_gt; lia).
      rewrite <- Hf. apply IH; [exact Hb | exact H].
Qed.

Lemma readFrom_buffered_then (m n : nat) (buf : list byte) (evs : list event)
  b buf2 evs2 :
  (m <= length buf)%nat ->
  readFrom n (skipn m buf) evs = (Resolved b, (buf2, evs2)) ->
  readFrom (m + n) buf evs = (Resolved (firstn m buf ++ b), (buf2, evs2)).
Proof.
  intros Hm H. unfold readFrom in *.
  pose proof (length_skipn m buf) as Hl.
  destruct (n <=? length (skipn m buf))%nat eqn:C.
  - apply Nat.leb_le in C.
    replace (m + n <=? length buf)%nat with true by (symmetry; apply Nat.leb_le; lia).
    injection H as <- <- <-. f_equal; [|now rewrite skipn_skipn, Nat.add_comm].
    f_equal. rewrite <- (firstn_skipn m buf) at 1.
    rewrite firstn_app, firstn_firstn, length_firstn.
    replace (Nat.min (m + n) m) with m by lia.
    replace (m + n - Nat.min m (length buf))%nat with n by lia.
    reflexivity.
  - apply Nat.leb_gt in C.
    replace (m + n <=? length buf)%nat with false by (symmetry; apply Nat.leb_gt; lia).
    now apply awaitBytes_behind.
Qed.

Lemma awaitBytes_then (m n : nat) (evs : list event) :
  forall buf a buf1 evs1 b buf2 evs2,
    (length buf < m)%nat ->
    awaitBytes m evs buf = (Resolved a, (buf1, evs1)) ->
    readFrom n buf1 evs1 = (Resolved b, (buf2, evs2)) ->
    awaitBytes (m + n) evs buf = (Resolved (a ++ b), (buf2, evs2)).
Proof.
  induction evs as [|ev evs IH]; intros buf a buf1 evs1 b buf2 evs2 Hm Ha Hb;
    cbn in Ha |- *.
  - discriminate Ha.
  - destruct ev as [chunk| |message]; try discriminate Ha.
    destruct (m <=? length (buf ++ chunk))%nat eqn:C.
    + apply Nat.leb_le in C. injection Ha as <- <- <-.
      apply (readFrom_buffered_then m n _ _ _ _ _ C) in Hb.
      unfold readFrom in Hb.
      destruct (m + n <=? length (buf ++ chunk))%nat; exact Hb.
    + apply Nat.leb_gt in C.
      replace (m + n <=? length (buf ++ chunk))%nat with false
        by (symmetry; apply Nat.leb_gt; lia).
      now apply (IH _ _ _ _ _ _ _ C Ha).
Qed.

Lemma readFrom_then (m n : nat) (buf : list byte) (evs : list event)
  a buf1 evs1 b buf2 evs2 :
  readFrom m buf evs = (Resolved a, (buf1, evs1)) ->
  readFrom n buf1 evs1 = (Resolved b, (buf2, evs2)) ->
  readFrom (m + n) buf evs = (Resolved (a ++ b), (buf2, evs2)).
Proof.
  intros Ha Hb. unfold readFrom in Ha.
  destruct (m <=? length buf)%nat eqn:C.
  - apply Nat.leb_le in C. injection Ha as <- <- <-.
    now apply readFrom_buffered_then.
  - apply Nat.leb_gt in C. unfold readFrom.
    replace (m + n <=? length buf)%nat with false by (symmetry; apply Nat.leb_gt; lia).
    now apply (awaitBytes_then m n evs buf a buf1 evs1).
Qed.

Lemma readBytes_compose (m n : nat) (d d1 d2 : NetezzaHandshake) (a b : list byte) :
  readBytes m d = (Resolved a, d1) ->
  readBytes n d1 = (Resolved b, d2) ->
  readBytes (m + n) d = (Resolved (a ++ b), d2).
Proof.
  rewrite !readBytes_readFrom. intros Ha Hb.
  destruct (readFrom m (buffer d) (incoming d)) as [ra [buf1 evs1]] eqn:Ea.
  injection Ha as -> <-. cbn [buffer incoming set_io] in Hb.
  destruct (readFrom n buf1 evs1) as [rb [buf2 evs2]] eqn:Eb.
  injection Hb as -> <-.
  rewrite (readFrom_then m n _ _ _ _ _ _ _ _ Ea Eb). reflexivity.
Qed.

Lemma awaitBytes_enough (count : nat) (evs : list event) :
  forall buf,
    (length buf < count)%nat ->
    if (count <=? length (buf ++ arriving evs))%nat
    then exists buf' evs',
        awaitBytes count evs buf
        = (Resolved (firstn count (buf ++ arriving evs)), (buf', evs'))
    else exists evs',
        awaitBytes count evs buf
        = (Rejected (failure count (length buf) evs), (buf ++ arriving evs, evs')).
Proof.
  induction evs as [|ev evs IH]; intros buf Hb; cbn [arriving awaitBytes failure].
  - rewrite app_nil_r. replace (count <=? length buf)%nat with false
      by (symmetry; apply Nat.leb_gt; lia).
    now eexists.
  - destruct ev as [chunk| |message].
    + rewrite app_assoc. cbv zeta.
      destruct (count <=? length (buf ++ chunk))%nat eqn:C.
      * apply Nat.leb_le in C.
        replace (count <=? length ((buf ++ chunk) ++ arriving evs))%nat with true
          by (symmetry; apply Nat.leb_le; rewrite length_app; lia).
        eexists _, _. f_equal. f_equal.
        rewrite (firstn_app count (buf ++ chunk) (arriving evs)).
        replace (count - length (buf ++ chunk))%nat with 0%nat by lia.
        cbn [firstn]. now rewrite app_nil_r.
      * apply Nat.leb_gt in C. specialize (IH (buf ++ chunk) C).
        rewrite (length_app buf chunk) in IH. exact IH.
    + rewrite app_nil_r. replace (count <=? length buf)%nat with false
        by (symmetry; apply Nat.leb_gt; lia).
      now eexists.
    + rewrite app_nil_r. replace (count <=? length buf)%nat with false
        by (symmetry; apply Nat.leb_gt; lia).
      now eexists.
Qed.

Lemma readBytes_available (count : nat) (d : NetezzaHandshake) :
  let available := buffer d ++ arriving (incoming d) in
  if (count <=? length available)%nat
  then exists d',
      readBytes count d = (Resolved (firstn count available), d') /\
      inbound d = firstn count available ++ inbound d'
  else exists d',
      readBytes count d
      = (Rejected (failure count (length (buffer d)) (incoming d)), d') /\
      buffer d' = available /\ written d' = written d.
Proof.
  cbv zeta. unfold readBytes.
  destruct (count <=? length (buffer d))%nat eqn:C.
  - apply Nat.leb_le in C.
    replace (count <=? length (buffer d ++ arriving (incoming d)))%nat with true
      by (symmetry; apply Nat.leb_le; rewrite length_app; lia).
    eexists. rewrite firstn_app.
    replace (count - length (buffer d))%nat with 0%nat by lia.
    cbn [firstn]. rewrite app_nil_r. split; [reflexivity|].
    unfold inbound. cbn [buffer incoming set_buffer].
    now rewrite app_assoc, firstn_skipn.
  - apply Nat.leb_gt in C.
    pose proof (awaitBytes_enough count (incoming d) (buffer d) C) as H.
    destruct (count <=? length (buffer d ++ arriving (incoming d)))%nat.
    + destruct H as (buf' & evs' & H). rewrite H. eexists. split; [reflexivity|].
      apply awaitBytes_spec in H. destruct H as [_ H].
      unfold inbound. cbn [buffer incoming set_io]. exact H.
    + destruct H as (evs' & H). rewrite H. eexists. split; [reflexivity|].
      split; reflexivity.
Qed.

Lemma awaitBytes_arriving (count : nat) (evs : list event) :
  forall buf bs buf' evs',
    awaitBytes count evs buf = (Resolved bs, (buf', evs')) ->
    buf ++ arriving evs = bs ++ buf' ++ arriving evs'.
Proof.
  induction evs as [|ev evs IH]; intros buf bs buf' evs' H; cbn in H.
  - discriminate H.
  - destruct ev as [chunk| |message]; try discriminate H.
    cbn [arriving]. rewrite app_assoc.
    destruct (count <=? length (buf ++ chunk))%nat.
    + injection H as <- <- <-. now rewrite (app_assoc (firstn _ _)), firstn_skipn.
    + exact (IH _ _ _ _ H).
Qed.

Lemma readBytes_arriving (count : nat) (d : NetezzaHandshake) bs d' :
  readBytes count d = (Resolved bs, d') ->
  length bs = count /\
  buffer d ++ arriving (incoming d) = bs ++ buffer d' ++ arriving (incoming d').
Proof.
  intros H. split; [now apply readBytes_spec in H as (_ & _ & _ & L & _)|].
  unfold readBytes in H. destruct (count <=? length (buffer d))%nat.
  - injection H as <- <-. cbn [buffer incoming set_buffer set_io].
    now rewrite app_assoc, firstn_skipn.
  - destruct (awaitBytes count (incoming d) (buffer d)) as [r [buf evs]] eqn:Ea.
    injection H as -> <-. cbn [buffer incoming set_io].
    exact (awaitBytes_arriving _ _ _ _ _ _ Ea).
Qed.

Lemma readBytes_resolves (count : nat) (d : NetezzaHandshake) :
  (count <= length (buffer d ++ arriving (incoming d)))%nat ->
  exists d',
    readBytes count d
    = (Resolved (firstn count (buffer d ++ arriving (incoming d))), d').
Proof.
  intros Hc. pose proof (readBytes_available count d) as H. cbv zeta in H.
  apply Nat.leb_le in Hc. rewrite Hc in H. destruct H as (d' & H & _). now exists d'.
Qed.

Lemma readBytes_split (m n : nat) (d d2 : NetezzaHandshake) (c : list byte) :
  readBytes (m + n) d = (Resolved c, d2) ->
  exists d1,
    readBytes m d = (Resolved (firstn m c), d1) /\
    readBytes n d1 = (Resolved (skipn m c), d2).
Proof.
  intros H. pose proof (readBytes_arriving _ _ _ _ H) as [Lc Ac].
  destruct (readBytes_resolves m d) as [d1 H1].
  { rewrite Ac, length_app. lia. }
  remember (firstn m (buffer d ++ arriving (incoming d))) as a eqn:Ea.
  pose proof (readBytes_arriving _ _ _ _ H1) as [La Aa].
  destruct (readBytes_resolves n d1) as [d2' H2].
  { apply (f_equal (@length byte)) in Aa. rewrite Ac in Aa.
    rewrite !length_app in Aa. rewrite length_app. lia. }
  remember (firstn n (buffer d1 ++ arriving (incoming d1))) as b eqn:Eb.
  pose proof (readBytes_arriving _ _ _ _ H2) as [Lb _].
  pose proof (readBytes_compose m n _ _ _ _ _ H1 H2) as H12.
  rewrite H in H12. injection H12 as Hc <-.
  exists d1. rewrite Hc.
  rewrite firstn_app, La, Nat.sub_diag, firstn_all2 by lia. cbn [firstn].
  rewrite app_nil_r. split; [exact H1|].
  rewrite skipn_app, La, Nat.sub_diag, skipn_all2 by lia. exact H2.
Qed.

Lemma readByte_read d b d' :
  readByte d = (Resolved b, d') <-> readBytes 1 d = (Resolved [b], d').
Proof.
  unfold readByte. split; intros H.
  - apply bind_inv_resolved in H as (bs & d1 & H1 & H2). injection H2 as <- <-.
    pose proof (readBytes_arriving _ _ _ _ H1) as [L _].
    destruct bs as [|b0 [|b1 bs]]; try discriminate L. exact H1.
  - now rewrite (bind_resolved _ _ _ _ _ H).
Qed.

Lemma readInt_read d d' :
  (exists z, readInt d = (Resolved z, d')) <->
  (exists raw, readBytes 4 d = (Resolved raw, d')).
Proof.
  unfold readInt. split.
  - intros (z & H). apply bind_inv_resolved in H as (raw & d1 & H1 & H2).
    destruct (unpackInt raw); [|discriminate H2]. injection H2 as _ <-. now exists raw.
  - intros (raw & H). pose proof (readBytes_arriving _ _ _ _ H) as [L _].
    rewrite (bind_resolved _ _ _ _ _ H).
    destruct raw as [|b0 [|b1 [|b2 [|b3 raw]]]]; try discriminate L.
    cbn. now eexists.
Qed.

Lemma readBytes_length n d bs d' :
  readBytes n d = (Resolved bs, d') -> length bs = n.
Proof. intros H. now apply readBytes_arriving in H. Qed.

Lemma only_reads_refl d : only_reads d d.
Proof. now destruct d. Qed.

Lemma only_reads_trans d1 d2 d3 : only_reads d1 d2 -> only_reads d2 d3 -> only_reads d1 d3.
Proof. unfold only_reads. intros H12 H23. rewrite H23 at 1. rewrite H12 at 1. reflexivity. Qed.

Lemma only_reads_read count : preserves only_reads (readBytes count).
Proof.
  intros d r d' H. apply readBytes_spec in H as (buf & evs & -> & _). reflexivity.
Qed.

Lemma readBytes_push_write (count : nat) (d : NetezzaHandshake) (w : list byte) :
  readBytes count (push_write d w)
  = (fst (readBytes count d), push_write (snd (readBytes count d)) w).
Proof.
  unfold readBytes. cbn [buffer incoming push_write].
  destruct (count <=? length (buffer d))%nat; [reflexivity|].
  destruct (awaitBytes count (incoming d) (buffer d)) as [r [buf evs]]. reflexivity.
Qed.

(** Reading is not affected by what was written before. *)
Lemma readByte_sent (header payload : list byte) (d : NetezzaHandshake) :
  readByte (sent header payload d)
  = (fst (readByte d), sent header payload (snd (readByte d))).
Proof.
  unfold readByte, bind, sent. rewrite !readBytes_push_write.
  destruct (readBytes 1 d) as [[a|e|] d1]; reflexivity.
Qed.

Lemma readBytes_sent (count : nat) (header payload : list byte) (d : NetezzaHandshake) :
  readBytes count (sent header payload d)
  = (fst (readBytes count d), sent header payload (snd (readBytes count d))).
Proof. unfold sent. now rewrite !readBytes_push_write. Qed.

Lemma app_same_length {A} (a a' b b' : list A) :
  length a = length a' -> a ++ b = a' ++ b' -> a = a' /\ b = b'.
Proof.
  revert a'. induction a as [|x a IH]; intros [|x' a'] L H; try discriminate L.
  - now split.
  - cbn in L, H. injection L as L. injection H as -> H.
    destruct (IH a' L H) as [-> ->]. now split.
Qed.

Lemma writes_of_app (fs gs : list (list byte * list byte)) :
  writes_of (fs ++ gs) = writes_of fs ++ writes_of gs.
Proof. unfold writes_of. apply flat_map_app. Qed.

Lemma written_sent header payload d :
  written (sent header payload d) = written d ++ writes_of [(header, payload)].
Proof. unfold sent, push_write. cbn. now rewrite <- app_assoc. Qed.

Lemma readByte_written d r d' : readByte d = (r, d') -> written d' = written d.
Proof. intros H. apply readByte_spec in H as (buf & evs & -> & _). reflexivity. Qed.

Lemma readBytes_written n d r d' : readBytes n d = (r, d') -> written d' = written d.
Proof. intros H. apply readBytes_spec in H as (buf & evs & -> & _). reflexivity. Qed.

Lemma readInt_written d r d' : readInt d = (r, d') -> written d' = written d.
Proof.
  intros H.
  pose proof (readInt_preserves only_reads only_reads_refl only_reads_trans
                only_reads_read _ _ _ H) as ->.
  reflexivity.
Qed.

(** ** The rounds of the negotiation, exactly *)

Lemma last_cons (v w : Z) (versions : list Z) :
  last (w :: versions) v = last versions w.
Proof.
  revert v w. induction versions as [|x versions IH]; intros v w; [reflexivity|].
  change (last (w :: x :: versions) v) with (last (x :: versions) v).
  now rewrite !IH.
Qed.

Lemma accepted_after_begin (version : Z) (d d1 : NetezzaHandshake) :
  written d1 = written d ->
  set_accepted (beginSent version d1) version
  = set_accepted (with_written d1 (written d ++ beginWrites [version])) version.
Proof.
  intros W. unfold beginSent, sent, push_write, set_accepted, with_written, beginWrites.
  cbn. now rewrite W, <- app_assoc.
Qed.

Lemma negotiate_loop_accepts :
  forall bound version d ok d',
    2 <= version <= 6 ->
    loop bound negotiateBody version d = Some (Resolved ok, d') ->
    ok = true /\
    exists digits versions d0,
      Forall2 offered digits versions /\
      readBytes (length (answers digits)) d = (Resolved (answers digits), d0) /\
      d' = set_accepted
             (with_written d0 (written d ++ beginWrites (version :: versions)))
             (last versions version).
Proof.
  induction bound as [|bound IH]; intros version d ok d' Hv H; cbn [loop] in H;
    [discriminate H|].
  rewrite negotiateBody_sent in H by lia.
  unfold beginSent in H. rewrite readByte_sent in H.
  destruct (readByte d) as [[response|e|] d1] eqn:E1; cbn [fst snd] in H;
    try discriminate H.
  pose proof (readByte_written _ _ _ E1) as W1.
  apply readByte_read in E1.
  destruct (Byte.eqb response NOTICE_RESPONSE) eqn:CN.
  { apply byte_eqb_eq in CN. subst response. injection H as <- <-.
    split; [reflexivity|]. exists [], [], d1. split; [constructor|].
    split; [exact E1|]. now apply accepted_after_begin. }
  destruct (Byte.eqb response CHAR_M) eqn:CM.
  2:{ destruct (Byte.eqb response ERROR_RESPONSE); discriminate H. }
  apply byte_eqb_eq in CM. subst response.
  rewrite readByte_sent in H.
  destruct (readByte d1) as [[versionChar|e|] d2] eqn:E2; cbn [fst snd] in H;
    try discriminate H.
  pose proof (readByte_written _ _ _ E2) as W2.
  apply readByte_read in E2.
  destruct (counterOffer versionChar) as [[version'|b]|e|] eqn:Ec; try discriminate H.
  2:{ apply counterOffer_inv in Ec as (v0 & Hv0 & _). discriminate Hv0. }
  pose proof (counterOffer_inv _ _ Ec) as (v0 & Hv0 & R0). injection Hv0 as <-.
  apply IH in H as (-> & digits & versions & d0 & Hd & Hr & ->); [|lia].
  split; [reflexivity|].
  rewrite readBytes_sent in Hr.
  destruct (readBytes (length (answers digits)) d2) as [r3 d3] eqn:E3.
  cbn [fst snd] in Hr. injection Hr as -> <-.
  exists (versionChar :: digits), (version' :: versions), d3.
  split; [now constructor|]. split.
  - pose proof (readBytes_compose _ _ _ _ _ _ _ E2 E3) as E23.
    exact (readBytes_compose _ _ _ _ _ _ _ E1 E23).
  - rewrite last_cons. f_equal.
    unfold with_written, sent, push_write, beginWrites. cbn. f_equal.
    rewrite W2, W1, <- !app_assoc. reflexivity.
Qed.

Lemma negotiate_accepts_answers (digits : list byte) (versions : list Z) :
  Forall2 offered digits versions ->
  forall version d d0,
    2 <= version <= 6 ->
    readBytes (length (answers digits)) d = (Resolved (answers digits), d0) ->
    run_loop negotiateBody version d
    = (Resolved true,
       set_accepted
         (with_written d0 (written d ++ beginWrites (version :: versions)))
         (last versions version)).
Proof.
  induction 1 as [|versionChar version' digits versions Ho _ IH];
    intros version d d0 Hv Hr;
    rewrite (run_loop_unfold _ _ _ negotiateBody_progresses);
    rewrite negotiateBody_sent by lia; unfold beginSent; rewrite readByte_sent.
  - change (length (answers [])) with 1%nat in Hr. change (answers []) with [NOTICE_RESPONSE] in Hr.
    pose proof (readBytes_written _ _ _ _ Hr) as W.
    rewrite (proj2 (readByte_read _ _ _) Hr). cbn [fst snd].
    change (Byte.eqb NOTICE_RESPONSE NOTICE_RESPONSE) with true. cbv iota.
    f_equal. now apply accepted_after_begin.
  - change (answers (versionChar :: digits))
      with ([CHAR_M] ++ [versionChar] ++ answers digits) in Hr.
    rewrite !length_app in Hr.
    apply readBytes_split in Hr as (d1 & E1 & Hr).
    rewrite firstn_app, Nat.sub_diag, firstn_all in E1. cbn [firstn] in E1.
    rewrite skipn_app, Nat.sub_diag, skipn_all in Hr. cbn [skipn app] in Hr.
    apply readBytes_split in Hr as (d2 & E2 & E3).
    change (firstn (length [versionChar]) (versionChar :: answers digits))
      with [versionChar] in E2.
    change (skipn (length [versionChar]) (versionChar :: answers digits))
      with (answers digits) in E3.
    pose proof (readBytes_written _ _ _ _ E1) as W1.
    pose proof (readBytes_written _ _ _ _ E2) as W2.
    cbn [app] in E1.
    rewrite (proj2 (readByte_read _ _ _) E1). cbn [fst snd].
    change (Byte.eqb CHAR_M NOTICE_RESPONSE) with false.
    change (Byte.eqb CHAR_M CHAR_M) with true. cbv iota.
    rewrite readByte_sent, (proj2 (readByte_read _ _ _) E2). cbn [fst snd].
    unfold offered in Ho. rewrite Ho.
    pose proof (counterOffer_inv _ _ Ho) as (v0 & Hv0 & R0). injection Hv0 as <-.
    rewrite (IH version' _ (sent (be32 8) (be16 HSV2_CLIENT_BEGIN ++ be16 version) d0));
      [|lia|].
    + rewrite last_cons. f_equal. f_equal.
      unfold with_written, sent, push_write, beginWrites. cbn. f_equal.
      rewrite W2, W1, <- !app_assoc. reflexivity.
    + rewrite readBytes_sent, E3. reflexivity.
Qed.

Lemma offered_digits (versionChar : byte) (version : Z) :
  offered versionChar version <->
  In (versionChar, version)
     [(CHAR_2, CP_VERSION_2); (CHAR_3, CP_VERSION_3);
      (CHAR_4, CP_VERSION_4); (CHAR_5, CP_VERSION_5)].
Proof.
  unfold offered, counterOffer. split.
  - destruct (Byte.eqb versionChar CHAR_2) eqn:C2;
      [apply byte_eqb_eq in C2; subst; intros H; injection H as <-; cbn; auto|].
    destruct (Byte.eqb versionChar CHAR_3) eqn:C3;
      [apply byte_eqb_eq in C3; subst; intros H; injection H as <-; cbn; auto|].
    destruct (Byte.eqb versionChar CHAR_4) eqn:C4;
      [apply byte_eqb_eq in C4; subst; intros H; injection H as <-; cbn; auto|].
    destruct (Byte.eqb versionChar CHAR_5) eqn:C5;
      [apply byte_eqb_eq in C5; subst; intros H; injection H as <-; cbn; auto 6|].
    discriminate.
  - intros [H|[H|[H|[H|[]]]]]; injection H as <- <-; reflexivity.
Qed.

(** Whatever the loop ends in: the versions it sent are the one it began
    with and then the versions offered, in the order of the offers. *)
Lemma negotiate_loop_offers :
  forall bound version d r d',
    2 <= version <= 6 ->
    loop bound negotiateBody version d = Some (r, d') ->
    exists digits versions rest,
      Forall2 offered digits versions /\
      consumes (concat (map (fun versionChar => [CHAR_M; versionChar]) digits) ++ rest)
               d d' /\
      written d' = written d ++ beginWrites (version :: versions) /\
      (length rest <= 2)%nat /\
      forall ok, r = Resolved ok ->
                 rest = [NOTICE_RESPONSE] /\
                 hsVersion d' = Some (last versions version).
Proof.
  induction bound as [|bound IH]; intros version d r d' Hv H; cbn [loop] in H;
    [discriminate H|].
  rewrite negotiateBody_sent in H by lia.
  unfold beginSent in H. rewrite readByte_sent in H.
  assert (Hw : forall d0, written d0 = written d ->
                 written (sent (be32 8) (be16 HSV2_CLIENT_BEGIN ++ be16 version) d0)
                 = written d ++ beginWrites [version]).
  { intros d0 W. rewrite written_sent, W. reflexivity. }
  destruct (readByte d) as [[response|e|] d1] eqn:E1; cbn [fst snd] in H.
  3:{ now apply readByte_settles in E1. }
  2:{ injection H as <- <-. apply readByte_rejected in E1 as (C1 & W1 & _).
      exists [], [], []. split; [constructor|]. split; [exact C1|].
      split; [now apply Hw|]. split; [cbn; lia|]. discriminate. }
  apply readByte_consumes in E1 as (C1 & W1 & _).
  destruct (Byte.eqb response NOTICE_RESPONSE) eqn:CN.
  { apply byte_eqb_eq in CN. subst response. injection H as <- <-.
    exists [], [], [NOTICE_RESPONSE]. split; [constructor|]. split; [exact C1|].
    split; [cbn [written set_accepted]; now apply Hw|]. split; [cbn; lia|].
    intros ok _. split; reflexivity. }
  destruct (Byte.eqb response CHAR_M) eqn:CM.
  2:{ exists [], [], [response]. split; [constructor|].
      destruct (Byte.eqb response ERROR_RESPONSE); injection H as <- <-;
        (split; [exact C1|]); (split; [now apply Hw|]); (split; [cbn; lia|]);
        discriminate. }
  apply byte_eqb_eq in CM. subst response.
  rewrite readByte_sent in H.
  destruct (readByte d1) as [[versionChar|e|] d2] eqn:E2; cbn [fst snd] in H.
  3:{ now apply readByte_settles in E2. }
  2:{ injection H as <- <-. apply readByte_rejected in E2 as (C2 & W2 & _).
      exists [], [], [CHAR_M]. split; [constructor|].
      split; [unfold consumes in *; cbn; rewrite C1; cbn; now f_equal|].
      split; [apply Hw; congruence|]. split; [cbn; lia|]. discriminate. }
  apply readByte_consumes in E2 as (C2 & W2 & _).
  destruct (counterOffer versionChar) as [[version'|b]|e|] eqn:Ec.
  - pose proof (counterOffer_inv _ _ Ec) as (v0 & Hv0 & R0). injection Hv0 as <-.
    apply IH in H as (digits & versions & rest & Hd & C & W & L & A); [|lia].
    exists (versionChar :: digits), (version' :: versions), rest.
    split; [now constructor|].
    split.
    { unfold consumes in *. cbn [map concat app].
      change (inbound (sent (be32 8) (be16 HSV2_CLIENT_BEGIN ++ be16 version) d2))
        with (inbound d2) in C.
      rewrite C1. cbn [app]. f_equal. rewrite C2. cbn [app]. f_equal. exact C. }
    split.
    { rewrite W, Hw by congruence. unfold beginWrites. cbn [map writes_of flat_map app].
      now rewrite <- !app_assoc. }
    split; [exact L|].
    intros ok Hok. destruct (A ok Hok) as (-> & ->). split; [reflexivity|].
    now rewrite last_cons.
  - apply counterOffer_inv in Ec as (v0 & Hv0 & _). discriminate Hv0.
  - injection H as <- <-.
    exists [], [], [CHAR_M; versionChar]. split; [constructor|].
    split; [unfold consumes in *; cbn; rewrite C1; cbn; f_equal; rewrite C2; reflexivity|].
    split; [apply Hw; congruence|]. split; [cbn; lia|]. discriminate.
  - unfold counterOffer in Ec.
    repeat match type of Ec with
           | (if ?c then _ else _) = _ => destruct c
           end; discriminate Ec.
Qed.

(** ** How the phases can end *)

Section EndsIn.

Context (E : HandshakeError -> Prop) (P : NetezzaHandshake -> Prop).

Lemma ends_ret {A} (V : A -> Prop) (a : A) : V a -> ends V E P (ret a).
Proof. intros Ha d r d' H. injection H as <- <-. exact Ha. Qed.

Lemma ends_throw {A} (V : A -> Prop) (e : HandshakeError) : E e -> ends V E P (@throw A e).
Proof. intros He d r d' H. injection H as <- <-. exact He. Qed.

Lemma ends_bind {A B} (Vm : A -> Prop) (V : B -> Prop) (m : M A) (k : A -> M B) :
  ends Vm E P m -> (forall a, Vm a -> ends V E P (k a)) -> ends V E P (bind m k).
Proof.
  intros Hm Hk d r d' H.
  apply bind_inv in H as [(a & d1 & H1 & H2)|[(e & H1 & ->)|(H1 & ->)]].
  - apply Hm in H1. exact (Hk a H1 _ _ _ H2).
  - exact (Hm _ _ _ H1).
  - exact (Hm _ _ _ H1).
Qed.

Lemma ends_fun {A} (V : A -> Prop) (f : NetezzaHandshake -> M A) :
  (forall d, ends V E P (f d)) -> ends V E P (fun d => f d d).
Proof. intros H d r d' Heq. exact (H d d r d' Heq). Qed.

Lemma ends_value {A} (V V' : A -> Prop) (m : M A) :
  ends V E P m ->
  (forall d a d', m d = (Resolved a, d') -> V' a) ->
  ends V' E P m.
Proof.
  intros Hm Hv d r d' H. pose proof (Hm _ _ _ H) as Hr.
  destruct r; [exact (Hv _ _ _ H) | exact Hr | exact Hr].
Qed.

Lemma ends_loop {S A} (I : S -> Prop) (V : A -> Prop) (body : S -> M (S + A)) :
  (forall s, I s ->
     ends (fun x => match x with inl s' => I s' | inr a => V a end) E P (body s)) ->
  forall bound s d r d',
    I s ->
    loop bound body s d = Some (r, d') ->
    match r with
    | Resolved a => V a
    | Rejected e => E e
    | Pending => P d'
    end.
Proof.
  intros Hb. induction bound as [|bound IH]; intros s d r d' Hs H; cbn in H.
  - discriminate.
  - destruct (body s d) as [[[s'|a]|e|] d1] eqn:Eb.
    + eapply IH; [|eassumption]. exact (Hb _ Hs _ _ _ Eb).
    + injection H as <- <-. exact (Hb _ Hs _ _ _ Eb).
    + injection H as <- <-. exact (Hb _ Hs _ _ _ Eb).
    + injection H as <- <-. exact (Hb _ Hs _ _ _ Eb).
Qed.

Lemma ends_run_loop {S A} (I : S -> Prop) (V : A -> Prop) (body : S -> M (S + A))
  (s : S) :
  progresses body ->
  (forall s, I s ->
     ends (fun x => match x with inl s' => I s' | inr a => V a end) E P (body s)) ->
  I s ->
  ends V E P (run_loop body s).
Proof.
  intros Hp Hb Hs d r d' H.
  pose proof (run_loop_eq body s d Hp _ (Nat.lt_succ_diag_r _)) as Hl.
  rewrite H in Hl. exact (ends_loop I V body Hb _ _ _ _ _ Hs Hl).
Qed.

Context (E_read : forall e, read_failure e -> E e).

Lemma ends_readBytes (count : nat) : ends (fun _ => True) E P (readBytes count).
Proof.
  intros d r d' H. rewrite readBytes_readFrom in H.
  destruct (readFrom count (buffer d) (incoming d)) as [r0 [buf evs]] eqn:Er.
  injection H as <- <-. destruct r0 as [bs|e|]; [exact I| |].
  - apply E_read. unfold readFrom in Er.
    destruct (count <=? length (buffer d))%nat; [discriminate Er|].
    revert Er. generalize (buffer d). generalize (incoming d).
    induction l as [|ev l IH]; intros buf0 Er; cbn in Er.
    + injection Er as <- _ _. exact I.
    + destruct ev as [chunk| |message].
      * destruct (count <=? length (buf0 ++ chunk))%nat; [discriminate Er|].
        exact (IH _ Er).
      * injection Er as <- _ _. exact I.
      * injection Er as <- _ _. exact I.
  - unfold readFrom in Er.
    destruct (count <=? length (buffer d))%nat; [discriminate Er|].
    now apply awaitBytes_spec in Er.
Qed.

Lemma ends_readByte : ends (fun _ => True) E P readByte.
Proof.
  unfold readByte. eapply ends_bind; [apply ends_readBytes|].
  intros a _. now apply ends_ret.
Qed.

Lemma ends_readInt : ends (fun _ => True) E P readInt.
Proof.
  intros d r d' H. unfold readInt in H.
  apply bind_inv in H as [(raw & d1 & H1 & H2)|[(e & H1 & ->)|(H1 & ->)]].
  - destruct (readBytes_spec _ _ _ _ H1) as (_ & _ & _ & Hl & _).
    destruct raw as [|b0 [|b1 [|b2 [|b3 raw]]]]; try discriminate Hl.
    cbn in H2. injection H2 as <- _. exact I.
  - exact (ends_readBytes _ _ _ _ H1).
  - exact (ends_readBytes _ _ _ _ H1).
Qed.

Context (E_range : forall z, E (RangeError z)).

Lemma ends_packShort (v : Z) : ends (fun _ => True) E P (lift (packShort v)).
Proof.
  unfold packShort. destruct (_ && _); cbn [lift].
  - now apply ends_ret.
  - apply ends_throw, E_range.
Qed.

Lemma ends_packInt (v : Z) : ends (fun _ => True) E P (lift (packInt v)).
Proof.
  unfold packInt. destruct (_ && _); cbn [lift].
  - now apply ends_ret.
  - apply ends_throw, E_range.
Qed.

Lemma ends_bufferFrom (value : option string) :
  (value = None -> E TypeError) ->
  ends (fun _ => True) E P (lift (bufferFrom value)).
Proof.
  intros E_type. destruct value; cbn [bufferFrom lift].
  - now apply ends_ret.
  - apply ends_throw. now apply E_type.
Qed.

Lemma ends_writeFrame (payload : list byte) :
  ends (fun _ => True) E P (writeFrame payload).
Proof.
  intros d r d' H.
  apply writeFrame_inv in H as [(header & _ & -> & _)|(e & He & -> & _)]; [exact I|].
  unfold packInt in He. destruct (_ && _); [discriminate He|].
  injection He as <-. apply E_range.
Qed.

End EndsIn.

Lemma ends_weaken {A} (V V' : A -> Prop) (E E' : HandshakeError -> Prop)
  (P P' : NetezzaHandshake -> Prop) (m : M A) :
  (forall a, V a -> V' a) -> (forall e, E e -> E' e) -> (forall d, P d -> P' d) ->
  ends V E P m -> ends V' E' P' m.
Proof.
  intros Hv He Hp Hm d r d' H. apply Hm in H. destruct r; auto.
Qed.

Lemma negotiation_error_read e : read_failure e -> negotiation_error e.
Proof. destruct e; cbn; tauto. Qed.

Lemma info_error_read user e : read_failure e -> info_error user e.
Proof. destruct e; cbn; tauto. Qed.

Lemma authentication_error_read password e :
  read_failure e -> authentication_error password e.
Proof. destruct e; cbn; tauto. Qed.

Lemma completion_error_read e : read_failure e -> completion_error e.
Proof. destruct e; cbn; tauto. Qed.

Lemma info_error_range user z : info_error user (RangeError z).
Proof. exact I. Qed.

Lemma authentication_error_range password z :
  authentication_error password (RangeError z).
Proof. exact I. Qed.

(** The errors of the completion drain. *)
Lemma drainBody_ends (u : unit) :
  ends (fun x => match x with inl _ => True | inr ok => ok = true end)
       completion_error settled
       (drainBody u).
Proof.
  pose proof (ends_readBytes completion_error settled completion_error_read) as Hr.
  pose proof (ends_readByte completion_error settled completion_error_read) as Hb.
  pose proof (ends_readInt completion_error settled completion_error_read) as Hi.
  unfold drainBody.
  eapply ends_bind; [exact Hb|]. intros msgType _.
  eapply ends_bind with (Vm := fun _ => True).
  - destruct (_ && _).
    + eapply ends_bind; [apply Hr|]. intros ? _. now apply ends_ret.
    + now apply ends_ret.
  - intros _ _.
    destruct (Byte.eqb msgType AUTHENTICATION_REQUEST).
    { eapply ends_bind; [exact Hi|]. intros ? _. now apply ends_ret. }
    destruct (Byte.eqb msgType BACKEND_KEY_DATA).
    { eapply ends_bind; [exact Hi|]. intros ? _.
      eapply ends_bind; [exact Hi|]. intros ? _. now apply ends_ret. }
    destruct (Byte.eqb msgType READY_FOR_QUERY); [now apply ends_ret|].
    destruct (Byte.eqb msgType NOTICE_RESPONSE).
    { eapply ends_bind; [apply Hr|]. intros ? _. now apply ends_ret. }
    destruct (Byte.eqb msgType ERROR_RESPONSE).
    { eapply ends_bind; [apply Hr|]. intros errorBuf _.
      now apply ends_throw. }
    now apply ends_ret.
Qed.

Lemma waitConnectionComplete_ends_in :
  ends (fun ok => ok = true)
       completion_error settled
       waitConnectionComplete.
Proof.
  apply (ends_run_loop _ _ (fun _ => True));
    [exact drainBody_progresses | intros u _; exact (drainBody_ends u) | exact I].
Qed.

Ltac ends_prim E_read E_range :=
  first [ apply ends_readByte; exact E_read
        | apply ends_readBytes; exact E_read
        | apply ends_readInt; exact E_read
        | apply ends_packShort; exact E_range
        | apply ends_packInt; exact E_range
        | apply ends_writeFrame; exact E_range
        | apply ends_bufferFrom; exact (fun H => H) ].

Ltac ends_go E_read E_range :=
  repeat first
    [ apply ends_ret; first [exact I | reflexivity]
    | apply ends_throw; exact I
    | eapply ends_bind; [solve [ends_prim E_read E_range] | intros ? _]
    | match goal with
      | |- ends _ _ _ (if ?c then _ else _) => destruct c
      end ].

Lemma negotiateBody_ends (version : Z) :
  2 <= version <= 6 ->
  ends (fun x => match x with inl v => 2 <= v <= 6 | inr ok => ok = true end)
       negotiation_error settled (negotiateBody version).
Proof.
  intros Hv d r d' H.
  assert (Hr : -32768 <= version <= 32767) by lia.
  pose proof (negotiateBody_round version d Hr) as R. rewrite H in R. cbn [fst snd] in R.
  pose proof (ends_readByte negotiation_error settled negotiation_error_read) as Hb.
  inversion R; subst.
  - exact (Hb _ _ _ H0).
  - reflexivity.
  - exact (Hb _ _ _ H1).
  - unfold counterOffer.
    repeat match goal with
           | |- context [if ?c then _ else _] => destruct c
           end; cbv; try exact I; split; discriminate.
  - exact I.
  - exact I.
Qed.

Lemma negotiateHandshake_ends :
  ends (fun ok => ok = true) negotiation_error settled negotiateHandshake.
Proof.
  apply (ends_run_loop _ _ (fun v => 2 <= v <= 6)).
  - exact negotiateBody_progresses.
  - exact negotiateBody_ends.
  - cbv. split; discriminate.
Qed.

Lemma authenticate_ends crypto password :
  ends (fun ok => ok = true) (authentication_error password) settled
       (authenticate crypto password).
Proof.
  unfold authenticate.
  eapply ends_bind; [apply ends_readByte; exact (authentication_error_read password)|].
  intros first _.
  eapply ends_bind with (Vm := fun _ => True).
  { destruct (Byte.eqb first NOTICE_RESPONSE).
    - apply ends_readByte; exact (authentication_error_read password).
    - now apply ends_ret. }
  intros response _.
  ends_go (authentication_error_read password) (authentication_error_range password).
Qed.

Section InfoEnds.

Context (host : Host) (user : option string).

Lemma upgradeToTLS_ends :
  ends (fun _ => True) (info_error user) (awaiting_tls host) (upgradeToTLS host).
Proof.
  intros d r d' H. unfold upgradeToTLS in H. unfold awaiting_tls.
  destruct (tlsOutcome host); injection H as <- <-; try exact I.
  split; [reflexivity|]. unfold cleanup. now destruct (dataHandler d) eqn:Hd.
Qed.

Lemma sendDatabase_ends database :
  ends (fun _ => True) (info_error user) (awaiting_tls host) (sendDatabase database).
Proof.
  unfold sendDatabase. ends_go (info_error_read user) (info_error_range user).
Qed.

Lemma secureSession_ends securityLevel :
  ends (fun _ => True) (info_error user) (awaiting_tls host) (secureSession host securityLevel).
Proof.
  unfold secureSession. ends_go (info_error_read user) (info_error_range user).
  eapply ends_bind; [apply upgradeToTLS_ends|]. intros ? _.
  ends_go (info_error_read user) (info_error_range user).
Qed.

Lemma sendSteps_ends steps :
  ends (fun _ => True) (info_error user) (awaiting_tls host) (sendSteps steps).
Proof.
  induction steps as [|step steps IH]; cbn [sendSteps].
  - now apply ends_ret.
  - destruct (_ && _); [exact IH|].
    eapply ends_bind; [apply ends_packShort; exact (info_error_range user)|]. intros op _.
    cbv zeta.
    eapply ends_bind; [apply ends_writeFrame; exact (info_error_range user)|]. intros ? _.
    destruct (opcode step =? HSV2_CLIENT_DONE); [now apply ends_ret|].
    eapply ends_bind; [apply ends_readByte; exact (info_error_read user)|]. intros response _.
    destruct (negb _); [|exact IH].
    ends_go (info_error_read user) (info_error_range user).
Qed.

Lemma finishSteps_ends d steps :
  ends (fun _ => True) (info_error user) (awaiting_tls host) (finishSteps d steps).
Proof.
  unfold finishSteps.
  eapply ends_bind with (Vm := fun _ => True); [|intros; now apply ends_ret].
  ends_go (info_error_read user) (info_error_range user).
Qed.

Lemma sendHandshakeVersion_ends pgOptions :
  ends (fun _ => True) (info_error user) (awaiting_tls host) (sendHandshakeVersion host user pgOptions).
Proof.
  intros d r d' H. unfold sendHandshakeVersion in H.
  destruct (_ || _).
  - unfold sendHandshakeVersion4 in H. cbv beta in H.
    match type of H with
    | ?m d = _ => assert (Hm : ends (fun _ => True) (info_error user) (awaiting_tls host) m)
    end; [|exact (Hm _ _ _ H)].
    ends_go (info_error_read user) (info_error_range user).
    eapply ends_bind; [apply finishSteps_ends|]. intros ? _. apply sendSteps_ends.
  - destruct (_ || _).
    + unfold sendHandshakeVersion2 in H. cbv beta in H.
      match type of H with
      | ?m d = _ => assert (Hm : ends (fun _ => True) (info_error user) (awaiting_tls host) m)
      end; [|exact (Hm _ _ _ H)].
      ends_go (info_error_read user) (info_error_range user).
      eapply ends_bind; [apply finishSteps_ends|]. intros ? _. apply sendSteps_ends.
    + injection H as <- <-. exact I.
Qed.

Lemma sendHandshakeInfo_ends database securityLevel pgOptions :
  ends (fun _ => True) (info_error user) (awaiting_tls host)
       (sendHandshakeInfo host database securityLevel user pgOptions).
Proof.
  unfold sendHandshakeInfo.
  eapply ends_bind; [apply sendDatabase_ends|]. intros ok _.
  destruct (negb ok); [now apply ends_ret|].
  eapply ends_bind with (Vm := fun _ => True).
  { intros d r d' H. unfold setNextDataProtocol in H.
    repeat match type of H with
           | (if ?c then _ else _) = _ => destruct c
           end; injection H as <- <-; exact I. }
  intros ok' _. destruct (negb ok'); [now apply ends_ret|].
  eapply ends_bind; [apply secureSession_ends|]. intros ok'' _.
  destruct (negb ok''); [now apply ends_ret|].
  apply sendHandshakeVersion_ends.
Qed.

End InfoEnds.

(** ** The metadata senders, exactly *)

Lemma readByte_failure d e d' : readByte d = (Rejected e, d') -> read_failure e.
Proof.
  intros H. exact (ends_readByte read_failure settled (fun e0 H0 => H0) _ _ _ H).
Qed.

Lemma spec_frame_length (op : Z) (body : list byte) :
  length (spec_frame op body) = (4 + (2 + length body))%nat.
Proof. unfold spec_frame, be32, be16. now rewrite !length_app. Qed.

Lemma spec_frame_writes (op : Z) (body : list byte) :
  [firstn 4 (spec_frame op body); skipn 4 (spec_frame op body)]
  = [be32 (4 + 2 + Z.of_nat (length body)); be16 op ++ body].
Proof. reflexivity. Qed.

Lemma frame_fits (op : Z) (body : list byte) :
  Z.of_nat (length (spec_frame op body)) <= 2147483647 ->
  packInt (Z.of_nat (length (be16 op ++ body)) + 4)
  = inr (be32 (4 + 2 + Z.of_nat (length body))).
Proof.
  intros Hf. rewrite spec_frame_length in Hf.
  replace (Z.of_nat (length (be16 op ++ body)) + 4) with (4 + 2 + Z.of_nat (length body))
    by (rewrite length_app; unfold be16; cbn [length]; lia).
  apply packInt_in_range. lia.
Qed.

(** The loop over an array that ends with [CLIENT_DONE], when every
    frame fits: it writes the first frame, and one more frame for every
    ['N'] it reads, until the array is through or an answer is not
    ['N']. *)
Lemma sendSteps_exact (steps : list Step) :
  Forall (fun step => opcode step <> HSV2_CLIENT_DONE
                      /\ -32768 <= opcode step <= 32767) steps ->
  fits (flat_map live_frame steps) ->
  forall d r d',
    sendSteps (steps ++ [done_step]) d = (r, d') ->
    exists fs rest tail,
      written d' = written d ++ writes_of fs /\
      map joined fs ++ rest
      = flat_map live_frame steps ++ [spec_frame HSV2_CLIENT_DONE []] /\
      fs <> [] /\
      consumes (repeat NOTICE_RESPONSE (pred (length fs)) ++ tail) d d' /\
      (r = Resolved true <-> rest = []) /\
      answered r tail.
Proof.
  induction steps as [|step steps IH]; intros Hs Hfit d r d' H.
  - cbn in H. injection H as <- <-.
    exists [(be32 6, be16 HSV2_CLIENT_DONE)], [], [].
    split; [cbn; unfold sent, push_write; cbn; now rewrite <- app_assoc|].
    split; [reflexivity|]. split; [discriminate|].
    split; [reflexivity|]. split; [tauto | reflexivity].
  - inversion Hs as [|? ? [Hd Hr] Hs']; subst.
    cbn [app sendSteps] in H.
    assert (Hne : (opcode step =? HSV2_CLIENT_DONE) = false) by now apply Z.eqb_neq.
    rewrite Hne in H. cbn [negb] in H. rewrite andb_true_r in H.
    cbn [flat_map] in Hfit |- *. unfold live_frame at 1 in Hfit. unfold live_frame at 1.
    destruct (data step) as [body|] eqn:Ed; cbn [is_null] in H.
    2:{ exact (IH Hs' Hfit _ _ _ H). }
    cbn [app] in Hfit. apply Forall_cons_iff in Hfit as [Hf Hfit].
    specialize (IH Hs' Hfit).
    pose proof (packShort_in_range _ Hr) as Hop.
    rewrite (bind_lift _ _ _ (be16 (opcode step)) Hop) in H.
    pose proof (frame_fits _ _ Hf) as Hh.
    rewrite (bind_resolved _ _ _ _ _ (writeFrame_ok _ _ d Hh)) in H.
    assert (Hj : joined (be32 (4 + 2 + Z.of_nat (length body)), be16 (opcode step) ++ body)
                 = spec_frame (opcode step) body) by reflexivity.
    set (h := be32 (4 + 2 + Z.of_nat (length body))) in *.
    set (d0 := sent h (be16 (opcode step) ++ body) d) in *.
    assert (Hw : written d0 = written d ++ writes_of [(h, be16 (opcode step) ++ body)]).
    { cbn. now rewrite <- app_assoc. }
    destruct (readByte d0) as [[b|e|] d1] eqn:E1.
    + rewrite (bind_resolved _ _ _ _ _ E1) in H.
      apply readByte_consumes in E1 as (C1 & W1 & _).
      destruct (Byte.eqb b NOTICE_RESPONSE) eqn:Cb; cbn [negb] in H.
      * apply byte_eqb_eq in Cb. subst b.
        apply IH in H as (fs & rest & tail & W & S & Hn & C & T & A).
        exists ((h, be16 (opcode step) ++ body) :: fs), rest, tail.
        split; [rewrite W, W1, Hw; cbn; now rewrite <- app_assoc|].
        split; [cbn [map app]; rewrite Hj, S; reflexivity|].
        split; [discriminate|].
        split; [|split; [exact T | exact A]].
        destruct fs as [|f fs]; [contradiction|].
        unfold consumes in *. cbn [length pred repeat app] in C |- *.
        change (inbound d0) with (inbound d) in C1.
        rewrite C1. cbn [app]. f_equal. exact C.
      * exists [(h, be16 (opcode step) ++ body)],
          (flat_map live_frame steps ++ [spec_frame HSV2_CLIENT_DONE []]), [b].
        split; [destruct (Byte.eqb b ERROR_RESPONSE); injection H as <- <-; congruence|].
        split; [cbn [map app]; now rewrite Hj|].
        split; [discriminate|].
        split.
        { destruct (Byte.eqb b ERROR_RESPONSE); injection H as <- <-; exact C1. }
        split.
        { split.
          - intros ->. destruct (Byte.eqb b ERROR_RESPONSE); discriminate H.
          - intros Hn. destruct (flat_map live_frame steps); discriminate Hn. }
        destruct (Byte.eqb b ERROR_RESPONSE) eqn:Ce; injection H as <- <-; cbn.
        -- left. apply byte_eqb_eq in Ce. now subst b.
        -- exists b. split; [reflexivity|].
           split; [now apply byte_eqb_neq in Cb | now apply byte_eqb_neq in Ce].
    + rewrite (bind_rejected _ _ _ _ _ E1) in H. injection H as <- <-.
      pose proof (readByte_failure _ _ _ E1) as Hrf.
      apply readByte_rejected in E1 as (C1 & W1 & _).
      exists [(h, be16 (opcode step) ++ body)],
        (flat_map live_frame steps ++ [spec_frame HSV2_CLIENT_DONE []]), [].
      split; [congruence|].
      split; [cbn [map app]; now rewrite Hj|].
      split; [discriminate|].
      split; [exact C1|].
      split; [|right; now split].
      split; [discriminate|].
      intros Hn. destruct (flat_map live_frame steps); discriminate Hn.
    + now apply readByte_settles in E1.
Qed.

(** When every frame but the last is answered with ['N'], the whole
    array is sent. *)
Lemma sendSteps_acknowledged (steps : list Step) :
  Forall (fun step => opcode step <> HSV2_CLIENT_DONE
                      /\ -32768 <= opcode step <= 32767) steps ->
  fits (flat_map live_frame steps) ->
  forall d d0,
    readBytes (length (flat_map live_frame steps)) d
    = (Resolved (repeat NOTICE_RESPONSE (length (flat_map live_frame steps))), d0) ->
    sendSteps (steps ++ [done_step]) d
    = (Resolved true,
       with_written d0
         (written d
          ++ frameWrites (flat_map live_frame steps ++ [spec_frame HSV2_CLIENT_DONE []]))).
Proof.
  induction steps as [|step steps IH]; intros Hs Hfit d d0 H.
  - cbn in H. injection H as <-. cbn. unfold sent, push_write, with_written. cbn.
    now rewrite <- app_assoc.
  - inversion Hs as [|? ? [Hd Hr] Hs']; subst.
    cbn [app sendSteps].
    assert (Hne : (opcode step =? HSV2_CLIENT_DONE) = false) by now apply Z.eqb_neq.
    rewrite Hne. cbn [negb]. rewrite andb_true_r.
    cbn [flat_map] in Hfit, H |- *.
    assert (Hl : live_frame step
                 = match data step with
                   | Some body => [spec_frame (opcode step) body]
                   | None => []
                   end) by reflexivity.
    rewrite Hl in Hfit, H |- *. clear Hl.
    destruct (data step) as [body|] eqn:Ed; cbn [is_null].
    2:{ exact (IH Hs' Hfit _ _ H). }
    cbn [app] in Hfit. apply Forall_cons_iff in Hfit as [Hf Hfit].
    cbn [app length repeat] in H.
    change (S (length (flat_map live_frame steps)))
      with (1 + length (flat_map live_frame steps))%nat in H.
    apply readBytes_split in H as (da & E1 & E2). cbn [firstn skipn] in E1, E2.
    pose proof (readBytes_written _ _ _ _ E1) as W1.
    rewrite (bind_lift _ _ _ (be16 (opcode step)) (packShort_in_range _ Hr)).
    rewrite (bind_resolved _ _ _ _ _ (writeFrame_ok _ _ d (frame_fits _ _ Hf))).
    set (h := be32 (4 + 2 + Z.of_nat (length body))).
    assert (Eb : readByte (sent h (be16 (opcode step) ++ body) d)
                 = (Resolved NOTICE_RESPONSE, sent h (be16 (opcode step) ++ body) da)).
    { rewrite readByte_sent, (proj2 (readByte_read _ _ _) E1). reflexivity. }
    rewrite (bind_resolved _ _ _ _ _ Eb).
    change (Byte.eqb NOTICE_RESPONSE NOTICE_RESPONSE) with true. cbn [negb].
    rewrite (IH Hs' Hfit _ (sent h (be16 (opcode step) ++ body) d0)).
    + f_equal. unfold with_written, sent, push_write, frameWrites. cbn [flat_map app].
      cbn [incoming secure buffer dataHandler hsVersion protocol1 protocol2 written].
      change (firstn 4 (spec_frame (opcode step) body)) with h.
      change (skipn 4 (spec_frame (opcode step) body)) with (be16 (opcode step) ++ body).
      f_equal. rewrite W1, <- !app_assoc. reflexivity.
    + rewrite readBytes_sent, E2. reflexivity.
Qed.

(** The senders are the loop over the array of the negotiated version. *)
Lemma sender_steps host user pgOptions d v :
  hsVersion d = Some v -> 2 <= v <= 6 ->
  int16_range (js_number (protocol1 d)) -> int16_range (js_number (protocol2 d)) ->
  int32_range (pid host) ->
  exists steps,
    sendHandshakeVersion host (Some user) pgOptions d
    = sendSteps (steps ++ [done_step]) d /\
    Forall (fun step => opcode step <> HSV2_CLIENT_DONE
                        /\ -32768 <= opcode step <= 32767) steps /\
    flat_map live_frame steps ++ [spec_frame HSV2_CLIENT_DONE []]
    = metadataStream host v user pgOptions
        (js_number (protocol1 d)) (js_number (protocol2 d)).
Proof.
  intros Hv Hr H1 H2 H3. unfold int16_range, int32_range in *.
  set (audit := in_versions v [4; 6]).
  exists ([mkStep HSV2_USER (Some (cstring user))]
          ++ (if audit
              then [mkStep HSV2_APPNAME (Some (cstring (appName host)));
                    mkStep HSV2_CLIENT_OS (Some (cstring (clientOS host)));
                    mkStep HSV2_CLIENT_HOST_NAME (Some (cstring (clientHostName host)));
                    mkStep HSV2_CLIENT_OS_USER (Some (cstring (clientOSUser host)))]
              else [])
          ++ [mkStep HSV2_PROTOCOL
                (Some (be16 (js_number (protocol1 d)) ++ be16 (js_number (protocol2 d))));
              mkStep HSV2_REMOTE_PID (Some (be32 (pid host)));
              mkStep HSV2_OPTIONS (optionsData pgOptions);
              mkStep HSV2_CLIENT_TYPE (Some (be16 NPSCLIENT_TYPE_NODE))]
          ++ (if in_versions v [5; 6]
              then [mkStep HSV2_64BIT_VARLENA_ENABLED (Some (be16 IPS_CLIENT))]
              else [])).
  split; [|split].
  - unfold sendHandshakeVersion. rewrite Hv.
    assert (Hc : v = 2 \/ v = 3 \/ v = 4 \/ v = 5 \/ v = 6) by lia.
    destruct Hc as [->|[->|[->|[->| ->]]]]; cbn [is_num orb Z.eqb Pos.eqb CP_VERSION_6
      CP_VERSION_5 CP_VERSION_4 CP_VERSION_3 CP_VERSION_2];
      unfold sendHandshakeVersion4, sendHandshakeVersion2;
      rewrite (bind_lift _ _ _ (utf8 user) eq_refl),
        (bind_lift _ _ _ _ (packShort_in_range _ H1)),
        (bind_lift _ _ _ _ (packShort_in_range _ H2)),
        (bind_lift _ _ _ _ (packInt_in_range _ H3)),
        (bind_lift _ _ _ (be16 NPSCLIENT_TYPE_NODE) eq_refl),
        (bind_resolved _ _ _ _ _ (finishSteps_by_version d _ _ d Hv));
      subst audit; cbn [in_versions existsb Z.eqb Pos.eqb orb app];
      reflexivity.
  - subst audit. rewrite !Forall_app. repeat split;
      try (destruct (in_versions v [4; 6])); try (destruct (in_versions v [5; 6]));
      repeat (apply Forall_cons || apply Forall_nil); cbv; repeat split; intro; discriminate.
  - unfold metadataStream. fold audit.
    rewrite !flat_map_app. cbn [flat_map]. rewrite live_options.
    unfold cstring, NULL_BYTE, spec_cstring.
    destruct audit, (in_versions v [5; 6]); cbn [flat_map live_frame data opcode app];
      rewrite ?app_nil_r; rewrite <- ?app_assoc; reflexivity.
Qed.

(** * The claims *)

(** ** C3: CLIENT_BEGIN and CLIENT_DONE *)

(** C3, as stated, fails: the attempt against a server that counter-offers
    version 2 completes, and sent two [CLIENT_BEGIN] frames. *)
Lemma begin_once_counterexample : ~ begin_once_as_stated.
Proof.
  intros H.
  pose (run := startup exampleHost NodeCrypto.node "mydb" 0
        (Some "admin"%string) (Some EmptyString) EmptyString
                       (new_handshake counterOfferServer)).
  assert (E : run = (Resolved (mkResult true false [] true), snd run))
    by (vm_compute; reflexivity).
  apply H in E. vm_compute in E. discriminate.
Qed.

(** C3, amended: a negotiation that ends well has sent one [CLIENT_BEGIN]
    for every round, that is one more than the counter-offers it took
    (twice the number of [CLIENT_BEGIN] frames is the number of bytes read
    plus one); phase 2 sends no [CLIENT_BEGIN]; and a metadata stream that
    was sent to its end holds exactly one [CLIENT_DONE], as its last
    frame. *)
Theorem begin_per_round_done_once :
  (forall d ok d',
      negotiateHandshake d = (Resolved ok, d') ->
      exists consumed fs,
        consumes consumed d d' /\
        written d' = written d ++ writes_of fs /\
        Forall (fun f => is_begin (joined f)) fs /\
        (2 * count_opcode HSV2_CLIENT_BEGIN (map joined fs)
         = length consumed + 1)%nat)
  /\ (forall host database securityLevel user pgOptions d r d',
         sendHandshakeInfo host database securityLevel user pgOptions d = (r, d') ->
         exists fs,
           written d' = written d ++ writes_of fs /\
           Forall (fun f => opcoded_with (fun op => op <> HSV2_CLIENT_BEGIN) (joined f)) fs)
  /\ (forall host user pgOptions d version d',
         hsVersion d = Some version -> 2 <= version <= 6 ->
         sendHandshakeVersion host user pgOptions d = (Resolved true, d') ->
         exists fs front,
           written d' = written d ++ writes_of fs /\
           map joined fs = front ++ [spec_frame HSV2_CLIENT_DONE []] /\
           count_opcode HSV2_CLIENT_DONE (map joined fs) = 1%nat).
Proof.
  split; [|split].
  - intros d ok d' H. apply negotiateHandshake_spec in H.
    apply negotiate_loop_spec in H as (consumed & fs & C & W & F & _ & _ & _ & S);
      [|cbv; split; discriminate].
    destruct (S ok eq_refl) as (_ & L & _).
    exists consumed, fs. repeat split; auto. now rewrite count_begin.
  - intros host database securityLevel user pgOptions d r d' H.
    eapply (sendHandshakeInfo_wrote (fun op => op <> HSV2_CLIENT_BEGIN)); [|exact H].
    intros op Hop. unfold HSV2_CLIENT_BEGIN. lia.
  - intros host user pgOptions d version d' Hv Hr H.
    destruct user as [user|];
      [|rewrite (sendHandshakeVersion_no_user _ _ _ _ Hv Hr) in H; discriminate H].
    apply (sendHandshakeVersion_stream _ _ _ _ _ _ _ Hv Hr) in H
      as (fs & acks & rest & W & _ & _ & S & _ & T & _).
    destruct (T eq_refl) as (-> & _). rewrite app_nil_r in S.
    exists fs. eexists. split; [exact W|]. split.
    + rewrite S. unfold metadataStream. rewrite !app_assoc. reflexivity.
    + rewrite S. apply count_done_stream.
Qed.

(** C3, witness: the three parts on runs that exist. *)
Lemma begin_per_round_done_once_witness :
  let d := new_handshake [EvData (utf8 "M2N")] in
  let d2 := mkHandshake [EvData (utf8 "NNNN")] [] false [] true (Some 2) (Some 3) (Some 5) in
  (negotiateHandshake d = (Resolved true, snd (negotiateHandshake d)) /\
   exists consumed fs,
     consumes consumed d (snd (negotiateHandshake d)) /\
     written (snd (negotiateHandshake d)) = written d ++ writes_of fs /\
     Forall (fun f => is_begin (joined f)) fs /\
     (2 * count_opcode HSV2_CLIENT_BEGIN (map joined fs) = length consumed + 1)%nat)
  /\ (exists fs,
         written (snd (sendHandshakeInfo exampleHost EmptyString 0
               (Some "admin"%string) EmptyString d2))
         = written d2 ++ writes_of fs /\
         Forall (fun f => opcoded_with (fun op => op <> HSV2_CLIENT_BEGIN) (joined f)) fs)
  /\ (hsVersion d2 = Some 2 /\ 2 <= 2 <= 6 /\
      sendHandshakeVersion exampleHost (Some "admin"%string) EmptyString d2
      = (Resolved true, snd (sendHandshakeVersion exampleHost
            (Some "admin"%string) EmptyString d2)) /\
      exists fs front,
        written (snd (sendHandshakeVersion exampleHost (Some "admin"%string) EmptyString d2))
        = written d2 ++ writes_of fs /\
        map joined fs = front ++ [spec_frame HSV2_CLIENT_DONE []] /\
        count_opcode HSV2_CLIENT_DONE (map joined fs) = 1%nat).
Proof.
  intros d d2. split; [|split].
  - split; [vm_compute; reflexivity|].
    apply (proj1 begin_per_round_done_once d true). vm_compute. reflexivity.
  - eapply (proj1 (proj2 begin_per_round_done_once)). apply surjective_pairing.
  - split; [reflexivity|]. split; [lia|]. split; [vm_compute; reflexivity|].
    apply (proj2 (proj2 begin_per_round_done_once) exampleHost (Some "admin"%string)
             EmptyString d2 2).
    + reflexivity.
    + lia.
    + vm_compute. reflexivity.
Defined.

(** ** C4: the negotiation loop *)

(** C4, as stated, fails: no number bounds the rounds, since a server that
    counter-offers 5 as many times as the bound says is sent one frame
    more; and a counter-offer of 5 after 2 raises the version. *)
Lemma negotiation_bound_counterexample :
  ~ rounds_bounded_as_stated /\ ~ offers_lower_as_stated.
Proof.
  split.
  - intros [bound H].
    specialize (H [EvData (offers bound ++ [NOTICE_RESPONSE])]).
    rewrite rounds_from_events in H. lia.
  - intros H. specialize (H [EvData (utf8 "M2M5N")]).
    vm_compute in H. destruct H as (_ & H & _). discriminate.
Qed.

(** C4, amended: the loop ends on every server input, after at most one
    round more than half the bytes it read (any bound above the number of
    inbound bytes gives the same settled result).  An ['M'] followed by
    a digit from ['2'] to ['5'] sets the version to that digit, lower or
    not: the [CLIENT_BEGIN] frames written carry version 6 and then the
    versions offered, in the order of the offers, and the version
    accepted is the last one offered, so the versions tried and the
    version accepted lie between 2 and 6.  A digit outside ['2'..'5'] is
    rejected with [UnsupportedVersion]. *)
Theorem negotiation_ends (d : NetezzaHandshake) :
  (forall bound,
      (length (inbound d) < bound)%nat ->
      loop bound negotiateBody CP_VERSION_6 d = Some (negotiateHandshake d))
  /\ fst (negotiateHandshake d) <> Pending
  /\ (exists consumed fs,
         consumes consumed d (snd (negotiateHandshake d)) /\
         written (snd (negotiateHandshake d)) = written d ++ writes_of fs /\
         Forall (fun f => is_begin (joined f)) fs /\
         (2 * length fs <= length consumed + 2)%nat /\
         forall ok, fst (negotiateHandshake d) = Resolved ok ->
              exists accepted,
                hsVersion (snd (negotiateHandshake d)) = Some accepted /\
                2 <= accepted <= 6)
  /\ (forall version d1 versionChar d2,
         -32768 <= version <= 32767 ->
         readByte (beginSent version d) = (Resolved CHAR_M, d1) ->
         readByte d1 = (Resolved versionChar, d2) ->
         versionChar <> CHAR_2 -> versionChar <> CHAR_3 ->
         versionChar <> CHAR_4 -> versionChar <> CHAR_5 ->
         negotiateBody version d = (Rejected (UnsupportedVersion versionChar), d2))
  /\ (forall version d1 versionChar d2 version',
         -32768 <= version <= 32767 ->
         readByte (beginSent version d) = (Resolved CHAR_M, d1) ->
         readByte d1 = (Resolved versionChar, d2) ->
         offered versionChar version' ->
         negotiateBody version d = (Resolved (inl version'), d2))
  /\ (forall versionChar version,
         offered versionChar version <->
         In (versionChar, version)
            [(CHAR_2, CP_VERSION_2); (CHAR_3, CP_VERSION_3);
             (CHAR_4, CP_VERSION_4); (CHAR_5, CP_VERSION_5)])
  /\ (exists digits versions rest,
         Forall2 offered digits versions /\
         consumes (concat (map (fun versionChar => [CHAR_M; versionChar]) digits) ++ rest)
                  d (snd (negotiateHandshake d)) /\
         written (snd (negotiateHandshake d))
         = written d ++ beginWrites (CP_VERSION_6 :: versions) /\
         (length rest <= 2)%nat /\
         forall ok, fst (negotiateHandshake d) = Resolved ok ->
                    rest = [NOTICE_RESPONSE] /\
                    hsVersion (snd (negotiateHandshake d))
                    = Some (last versions CP_VERSION_6)).
Proof.
  assert (L : loop (S (length (inbound d))) negotiateBody CP_VERSION_6 d
              = Some (negotiateHandshake d))
    by (apply run_loop_eq; [apply negotiateBody_progresses | lia]).
  destruct (negotiateHandshake d) as [r d'] eqn:E.
  pose proof L as L'.
  apply negotiate_loop_spec in L as (consumed & fs & C & W & F & _ & B & NP & S);
    [|cbv; split; discriminate].
  split; [|split; [|split; [|split; [|split; [|split]]]]].
  - intros bound Hb. rewrite <- E.
    apply run_loop_eq; [apply negotiateBody_progresses | exact Hb].
  - exact NP.
  - exists consumed, fs. cbn [fst snd]. repeat split; auto.
    intros ok ->. destruct (S ok eq_refl) as (_ & _ & (acc & Ha & Hr & _) & _).
    now exists acc.
  - intros version d1 versionChar d2 Hv E1 E2 N2 N3 N4 N5.
    rewrite negotiateBody_sent, E1 by exact Hv.
    change (Byte.eqb CHAR_M NOTICE_RESPONSE) with false.
    change (Byte.eqb CHAR_M CHAR_M) with true. cbv iota.
    rewrite E2. now rewrite counterOffer_outside.
  - intros version d1 versionChar d2 version' Hv E1 E2 Ho.
    rewrite negotiateBody_sent, E1 by exact Hv.
    change (Byte.eqb CHAR_M NOTICE_RESPONSE) with false.
    change (Byte.eqb CHAR_M CHAR_M) with true. cbv iota.
    rewrite E2. unfold offered in Ho. now rewrite Ho.
  - exact offered_digits.
  - cbn [fst snd].
    apply negotiate_loop_offers in L'; [exact L' | cbv; split; discriminate].
Qed.

(** C4, witness: a server that offers ['1'], read with a bound of 3, and
    a server that offers version 2 and then version 5: the second round
    is sent for version 2 and the third for version 5. *)
Lemma negotiation_ends_witness :
  let d := new_handshake [EvData (utf8 "M1")] in
  let d' := new_handshake [EvData (utf8 "M2M5N")] in
  (length (inbound d) < 3)%nat /\
  loop 3 negotiateBody CP_VERSION_6 d = Some (negotiateHandshake d) /\
  negotiateBody CP_VERSION_6 d
  = (Rejected (UnsupportedVersion x31), snd (negotiateHandshake d)) /\
  negotiateBody CP_VERSION_6 d'
  = (Resolved (inl CP_VERSION_2),
     set_io (beginSent CP_VERSION_6 d') (utf8 "M5N") []) /\
  fst (negotiateHandshake d') = Resolved true /\
  written (snd (negotiateHandshake d')) = beginWrites [6; 2; 5] /\
  hsVersion (snd (negotiateHandshake d')) = Some 5.
Proof.
  intros d d'. split; [vm_compute; lia|]. split; [|split; [|split]].
  - apply (proj1 (negotiation_ends d)). vm_compute. lia.
  - apply (proj1 (proj2 (proj2 (proj2 (negotiation_ends d)))) CP_VERSION_6
                 (set_io (beginSent CP_VERSION_6 d) [x31] []) x31);
      try discriminate; try reflexivity.
    cbv. split; discriminate.
  - apply (proj1 (proj2 (proj2 (proj2 (proj2 (negotiation_ends d'))))) CP_VERSION_6
                 (set_io (beginSent CP_VERSION_6 d') (utf8 "2M5N") []) CHAR_2);
      try reflexivity.
    cbv. split; discriminate.
  - split; [vm_compute; reflexivity|]. split; vm_compute; reflexivity.
Defined.

(** ** C5: the metadata stream *)

(** C5: for the negotiated version [v], the metadata sender writes, in
    order, the frames of [metadataStream]: [USER], the four audit frames
    for versions 4 and 6 only, [PROTOCOL], [REMOTE_PID], [OPTIONS]
    unless [pgOptions] is empty, [CLIENT_TYPE], the varlena frame for
    versions 5 and 6, and [CLIENT_DONE] with an empty body.  It writes
    the first frame at once and one more frame for every ['N'] it reads:
    what a run has written is a front part of the stream that is not
    empty, one frame longer than the ['N'] answers read, and the run
    ended by the answer behind them; it returns [true] exactly when it
    wrote all of the stream.  When the server answers every frame but
    the last with ['N'], all of the stream is written and nothing is
    read for [CLIENT_DONE].  (Without a user name the sender throws
    before it writes.) *)
Theorem metadata_stream_by_version host user pgOptions d v stream :
  hsVersion d = Some v -> 2 <= v <= 6 ->
  int16_range (js_number (protocol1 d)) -> int16_range (js_number (protocol2 d)) ->
  int32_range (pid host) ->
  stream = metadataStream host v user pgOptions
             (js_number (protocol1 d)) (js_number (protocol2 d)) ->
  fits stream ->
  (forall r d',
      sendHandshakeVersion host (Some user) pgOptions d = (r, d') ->
      exists fs rest tail,
        written d' = written d ++ writes_of fs /\
        map joined fs ++ rest = stream /\
        fs <> [] /\
        consumes (repeat NOTICE_RESPONSE (length fs - 1) ++ tail) d d' /\
        (r = Resolved true <-> rest = []) /\
        answered r tail)
  /\ (forall d0,
         readBytes (length stream - 1) d
         = (Resolved (repeat NOTICE_RESPONSE (length stream - 1)), d0) ->
         sendHandshakeVersion host (Some user) pgOptions d
         = (Resolved true, with_written d0 (written d ++ frameWrites stream)))
  /\ sendHandshakeVersion host None pgOptions d = (Rejected TypeError, d).
Proof.
  intros Hv Hr H1 H2 H3 -> Hfit.
  destruct (sender_steps host user pgOptions d v Hv Hr H1 H2 H3)
    as (steps & Heq & Hok & Hs).
  rewrite <- Hs in Hfit |- *. rewrite Heq.
  assert (Hfit' : fits (flat_map live_frame steps))
    by (apply Forall_app in Hfit; apply Hfit).
  split; [|split].
  - intros r d' H.
    apply (sendSteps_exact steps Hok Hfit') in H as (fs & rest & tail & W & S & Hn & C & T & A).
    exists fs, rest, tail. rewrite Nat.sub_1_r.
    exact (conj W (conj S (conj Hn (conj C (conj T A))))).
  - intros d0 H. rewrite length_app, Nat.add_sub in H.
    exact (sendSteps_acknowledged steps Hok Hfit' d d0 H).
  - exact (sendHandshakeVersion_no_user host pgOptions d v Hv Hr).
Qed.

(** C5, witness: every version from 2 to 6, with every frame
    acknowledged: versions 2 and 3 without options write five frames,
    version 5 with options seven, version 4 without options nine and
    version 6 with options eleven. *)
Lemma metadata_stream_by_version_witness :
  let state v acks := mkHandshake [EvData (repeat NOTICE_RESPONSE acks)] [] false []
                                  true (Some v) (Some 3) (Some 5) in
  let sent v acks options :=
    (Resolved true,
     with_written (set_io (state v acks) [] [])
       (written (state v acks)
        ++ frameWrites (metadataStream exampleHost v "admin" options 3 5))) in
  sendHandshakeVersion exampleHost (Some "admin"%string) EmptyString (state 2 4%nat)
  = sent 2 4%nat EmptyString
  /\ sendHandshakeVersion exampleHost (Some "admin"%string) EmptyString (state 3 4%nat)
     = sent 3 4%nat EmptyString
  /\ sendHandshakeVersion exampleHost (Some "admin"%string) EmptyString (state 4 8%nat)
     = sent 4 8%nat EmptyString
  /\ sendHandshakeVersion exampleHost (Some "admin"%string) "-c search_path=x"
       (state 5 6%nat)
     = sent 5 6%nat "-c search_path=x"%string
  /\ sendHandshakeVersion exampleHost (Some "admin"%string) "-c search_path=x"
       (state 6 10%nat)
     = sent 6 10%nat "-c search_path=x"%string.
Proof.
  intros state sent. unfold sent, state. split; [|split; [|split; [|split]]];
    (lazymatch goal with
     | |- sendHandshakeVersion ?host (Some ?name) ?options ?d = _ =>
         lazymatch eval cbn in (hsVersion d) with
         | Some ?v =>
             refine (proj1 (proj2 (metadata_stream_by_version host name options d v
                                     _ eq_refl _ _ _ _ eq_refl _)) _ _)
         end
     end;
     [ lia
     | unfold int16_range; cbn; lia
     | unfold int16_range; cbn; lia
     | unfold int32_range; cbn; lia
     | repeat constructor; vm_compute; discriminate
     | reflexivity ]).
Defined.

(** ** C7: the length word *)

Lemma opcoded_length_prefixed (P : Z -> Prop) (f : list byte) :
  opcoded_with P f -> opcoded f /\ length_prefixed f.
Proof.
  intros (op & header & opbytes & body & _ & Hh & Hop & Hf). split.
  - exists op, header, opbytes, body. now repeat split.
  - unfold length_prefixed. rewrite Hf at 1. now apply unpackInt_packInt.
Qed.

(** C7: every frame written in phases 1 and 2 is
    [len(int32 BE) || opcode(int16 BE) || body], and its first four bytes,
    read as a big-endian int32, are the length of the whole frame. *)
Theorem frames_length_prefixed host database securityLevel user pgOptions
  d r1 d1 r2 d2 :
  negotiateHandshake d = (r1, d1) ->
  sendHandshakeInfo host database securityLevel user pgOptions d1 = (r2, d2) ->
  exists fs1 fs2,
    written d1 = written d ++ writes_of fs1 /\
    written d2 = written d1 ++ writes_of fs2 /\
    Forall (fun f => opcoded (joined f) /\ length_prefixed (joined f)) (fs1 ++ fs2).
Proof.
  intros H1 H2.
  apply (negotiateHandshake_wrote (fun _ => True) I) in H1 as (fs1 & W1 & F1).
  apply (sendHandshakeInfo_wrote (fun _ => True)) in H2 as (fs2 & W2 & F2); [|auto].
  exists fs1, fs2. repeat split; auto.
  apply Forall_app. split; (eapply Forall_impl; [|eassumption]);
    intros f; apply opcoded_length_prefixed.
Qed.

(** C7, witness: phases 1 and 2 against the counter-offering server. *)
Lemma frames_length_prefixed_witness :
  let d := new_handshake counterOfferServer in
  let d1 := snd (negotiateHandshake d) in
  let d2 := snd (sendHandshakeInfo exampleHost "mydb" 0 (Some "admin"%string) EmptyString d1) in
  fst (negotiateHandshake d) = Resolved true /\
  fst (sendHandshakeInfo exampleHost "mydb" 0
        (Some "admin"%string) EmptyString d1) = Resolved true /\
  exists fs1 fs2,
    written d1 = written d ++ writes_of fs1 /\
    written d2 = written d1 ++ writes_of fs2 /\
    Forall (fun f => opcoded (joined f) /\ length_prefixed (joined f)) (fs1 ++ fs2).
Proof.
  intros d d1 d2. split; [vm_compute; reflexivity|]. split; [vm_compute; reflexivity|].
  eapply (frames_length_prefixed exampleHost "mydb" 0 (Some "admin"%string) EmptyString d);
    apply surjective_pairing.
Defined.

(** ** C10: the sub-protocol pair *)

Lemma setNextDataProtocol_from_sentinel d :
  protocol2 d = Some 0 ->
  setNextDataProtocol d
  = (Resolved true, set_protocol d (Some PG_PROTOCOL_3) (Some PG_PROTOCOL_5)).
Proof. unfold setNextDataProtocol. now intros ->. Qed.

(** C10: a [startup] that resolves leaves [protocol1 = 3] and
    [protocol2 = 5].  The one call of [setNextDataProtocol] comes after a
    negotiation that set [protocol2] to the sentinel 0 and a [sendDatabase]
    that does not touch it, so it takes the first branch: the values 4 and
    3 and the [false] return are not reached within an attempt. *)
Theorem protocol_fixed_at_3_5 :
  (forall host crypto database securityLevel user password pgOptions d res d',
      startup host crypto database securityLevel user password pgOptions d
      = (Resolved res, d') ->
      protocol1 d' = Some 3 /\ protocol2 d' = Some 5)
  /\ (forall database d ok d1 r d2,
         negotiateHandshake d = (Resolved ok, d1) ->
         sendDatabase database d1 = (r, d2) ->
         setNextDataProtocol d2
         = (Resolved true, set_protocol d2 (Some PG_PROTOCOL_3) (Some PG_PROTOCOL_5))).
Proof.
  assert (B : forall database d ok d1 r d2,
             negotiateHandshake d = (Resolved ok, d1) ->
             sendDatabase database d1 = (r, d2) ->
             setNextDataProtocol d2
             = (Resolved true, set_protocol d2 (Some PG_PROTOCOL_3) (Some PG_PROTOCOL_5))).
  { intros database d ok d1 r d2 H1 H2.
    apply negotiateHandshake_sentinel in H1 as (_ & P2 & _).
    apply sendDatabase_keeps in H2 as (_ & _ & K).
    apply setNextDataProtocol_from_sentinel. congruence. }
  split; [|exact B].
  intros host crypto database securityLevel user password pgOptions d res d' H.
  apply startup_resolved in H as (d1 & d2 & d3 & d4 & H1 & H2 & H3 & H4 & _ & ->).
  apply sendHandshakeInfo_resolved in H2 as (da & db & dc & Ha & Hb & Hc & Hd).
  rewrite (B _ _ _ _ _ _ H1 Ha) in Hb. injection Hb as <-.
  apply secureSession_keeps in Hc as (_ & C1 & C2).
  apply sendHandshakeVersion_keeps in Hd as (_ & D1 & D2).
  apply authenticate_keeps in H3 as (_ & E1 & E2).
  apply waitConnectionComplete_keeps in H4 as (_ & F1 & F2).
  cbn [set_buffer set_io protocol1 protocol2].
  cbn [set_protocol protocol1 protocol2] in C1, C2.
  unfold PG_PROTOCOL_3, PG_PROTOCOL_5 in *. split; congruence.
Qed.

(** C10, witness: the attempt against the counter-offering server. *)
Lemma protocol_fixed_at_3_5_witness :
  let d := new_handshake counterOfferServer in
  let run := startup exampleHost NodeCrypto.node "mydb" 0
        (Some "admin"%string) (Some EmptyString) EmptyString d in
  let d1 := snd (negotiateHandshake d) in
  let d2 := snd (sendDatabase "mydb" d1) in
  fst run = Resolved (mkResult true false [] true) /\
  (protocol1 (snd run) = Some 3 /\ protocol2 (snd run) = Some 5) /\
  negotiateHandshake d = (Resolved true, d1) /\
  setNextDataProtocol d2
  = (Resolved true, set_protocol d2 (Some PG_PROTOCOL_3) (Some PG_PROTOCOL_5)).
Proof.
  intros d run d1 d2. split; [vm_compute; reflexivity|]. split; [|split].
  - apply (proj1 protocol_fixed_at_3_5 exampleHost NodeCrypto.node "mydb"%string 0
                
                       (Some "admin"%string) (Some EmptyString) EmptyString
                       d (mkResult true false [] true)).
    vm_compute. reflexivity.
  - vm_compute. reflexivity.
  - apply (proj2 protocol_fixed_at_3_5 "mydb"%string d true d1 (fst (sendDatabase "mydb" d1))).
    + vm_compute. reflexivity.
    + apply surjective_pairing.
Defined.

(** ** C8: what is handed back *)

Lemma front_of_app {A} (l a b : list A) :
  l = a ++ b -> a = firstn (length l - length b) l.
Proof.
  intros ->. rewrite length_app, Nat.add_sub.
  now rewrite firstn_app, Nat.sub_diag, firstn_all, app_nil_r.
Qed.

(** C8, as stated, fails: with a parameter status in the segment of ['Z'],
    the attempt resolves, but what it hands back is that message without
    its first eight bytes, so it is not what followed ['Z']. *)
Lemma remaining_after_marker_counterexample : ~ remaining_after_marker_as_stated.
Proof.
  intros H.
  pose (run := startup exampleHost NodeCrypto.node "mydb" 0
        (Some "admin"%string) (Some EmptyString) EmptyString
                       (new_handshake readAheadServer)).
  assert (E : run = (Resolved (mkResult true false (skipn 8 parameterStatus) true),
                     snd run))
    by (vm_compute; reflexivity).
  apply H in E as (_ & handshake & E).
  pose proof (front_of_app _ _ _ E) as F.
  rewrite F in E. clear F. apply (f_equal (map Byte.to_N)) in E.
  vm_compute in E. discriminate E.
Qed.

(** C8, amended: when [startup] resolves, the buffer is empty and its
    content went into [remainingBuffer]; [remainingBuffer] followed by
    what the stream delivers later is what the server sent after ['Z']
    and the eight filler bytes that the drain reads behind every ['Z']. *)
Theorem remaining_buffer_after_filler
  host crypto database securityLevel user password pgOptions d res d' :
  startup host crypto database securityLevel user password pgOptions d
  = (Resolved res, d') ->
  buffer d' = [] /\
  exists handshake filler,
    length filler = 8%nat /\
    inbound d
    = handshake ++ [READY_FOR_QUERY] ++ filler
      ++ remainingBuffer res ++ chunks (incoming d').
Proof.
  intros H.
  apply startup_resolved in H as (d1 & d2 & d3 & d4 & H1 & H2 & H3 & H4 & -> & ->).
  split; [reflexivity|].
  apply negotiateHandshake_reads in H1 as [c1 C1].
  apply sendHandshakeInfo_reads in H2 as [c2 C2].
  apply authenticate_reads in H3 as [c3 C3].
  apply waitConnectionComplete_spec in H4 as (_ & messages & filler & L & S).
  exists (c1 ++ c2 ++ c3 ++ messages), filler. split; [exact L|].
  unfold consumes in *. rewrite C1, C2, C3, S. cbn [remainingBuffer set_buffer set_io incoming].
  unfold inbound. now rewrite <- !app_assoc.
Qed.

(** C8, witness: the read-ahead server; the filler is the front of the
    parameter status. *)
Lemma remaining_buffer_after_filler_witness :
  let d := new_handshake readAheadServer in
  let run := startup exampleHost NodeCrypto.node "mydb" 0
        (Some "admin"%string) (Some EmptyString) EmptyString d in
  run = (Resolved (mkResult true false (skipn 8 parameterStatus) true), snd run) /\
  buffer (snd run) = [] /\
  exists handshake filler,
    length filler = 8%nat /\
    inbound d
    = handshake ++ [READY_FOR_QUERY] ++ filler
      ++ skipn 8 parameterStatus ++ chunks (incoming (snd run)).
Proof.
  intros d run. split; [vm_compute; reflexivity|].
  apply (remaining_buffer_after_filler exampleHost NodeCrypto.node "mydb" 0
          
                 (Some "admin"%string) (Some EmptyString) EmptyString
                 d (mkResult true false (skipn 8 parameterStatus) true)).
  vm_compute. reflexivity.
Defined.

(** ** C9: notices and the filler *)

(** C9, as stated, fails: after ['N'] the drain reads four bytes, not
    twelve. *)
Lemma notice_filler_counterexample : ~ notice_filler_as_stated.
Proof.
  intros H.
  specialize (H (set_buffer (new_handshake [])
                            (NOTICE_RESPONSE
                               :: map byte_of_Z [1; 2; 3; 4; 5; 6; 7; 8; 9; 10; 11; 12]))
                (map byte_of_Z [1; 2; 3; 4; 5; 6; 7; 8])
                (map byte_of_Z [9; 10; 11; 12]) [] eq_refl eq_refl eq_refl).
  vm_compute in H. discriminate.
Qed.

(** C9, amended: after ['N'] the drain reads four bytes and ignores them;
    no filler is read and no body is surfaced.  For a type other than
    ['R'], ['N'] and ['E'] the eight filler bytes are read first, and then
    the type is handled: two integers for ['K'], return for ['Z'], nothing
    for the rest. *)
Theorem notice_reads_length_only :
  (forall d d1 len d2,
      readByte d = (Resolved NOTICE_RESPONSE, d1) ->
      readBytes 4 d1 = (Resolved len, d2) ->
      drainBody tt d = (Resolved (inl tt), d2))
  /\ (forall d msgType d1 filler d2,
         msgType <> AUTHENTICATION_REQUEST ->
         msgType <> NOTICE_RESPONSE ->
         msgType <> ERROR_RESPONSE ->
         readByte d = (Resolved msgType, d1) ->
         readBytes 8 d1 = (Resolved filler, d2) ->
         drainBody tt d = afterFiller msgType d2).
Proof.
  split.
  - intros d d1 len d2 E1 E2. rewrite (drainBody_notice _ _ E1).
    now rewrite (bind_resolved _ _ _ _ _ E2).
  - intros d msgType d1 filler d2 NR NN NE E1 E2.
    rewrite (drainBody_other _ _ _ E1 NR NN NE).
    now rewrite (bind_resolved _ _ _ _ _ E2).
Qed.

(** C9, witness: a notice with its four bytes, and a ['K'] message. *)
Lemma notice_reads_length_only_witness :
  let dn := set_buffer (new_handshake []) (NOTICE_RESPONSE :: code 0 ++ utf8 "Z") in
  let dk := set_buffer (new_handshake [])
                       (BACKEND_KEY_DATA :: repeat x00 8 ++ code 42 ++ code 99) in
  drainBody tt dn = (Resolved (inl tt), set_buffer dn (utf8 "Z")) /\
  drainBody tt dk = (Resolved (inl tt), set_buffer dk []).
Proof.
  intros dn dk. split.
  - apply (proj1 notice_reads_length_only dn (set_buffer dn (code 0 ++ utf8 "Z")) (code 0));
      reflexivity.
  - rewrite (proj2 notice_reads_length_only dk BACKEND_KEY_DATA
               (set_buffer dk (repeat x00 8 ++ code 42 ++ code 99)) (repeat x00 8)
               (set_buffer dk (code 42 ++ code 99)));
      try discriminate; reflexivity.
Defined.

(** ** C2: the error response *)

(** The text of the error: for ASCII bytes the decoding changes
    nothing. *)
Lemma toStringUtf8_ascii (text : list byte) :
  Forall (fun b => between 0 127 b = true) text -> toStringUtf8 text = text.
Proof.
  unfold toStringUtf8. induction 1 as [|b text Hb _ IH]; [reflexivity|].
  cbn [utf8_decode utf8_initial u8_needed]. unfold utf8_lead. rewrite Hb.
  cbn [app]. f_equal. exact IH.
Qed.

(** Bytes that are not UTF-8 come out as U+FFFD, and so does a
    character that the 2000th byte cuts. *)
Example error_text_decoded :
  fst (waitConnectionComplete
         (new_handshake
            [EvData (ERROR_RESPONSE :: [xff; x6e; x6f] ++ repeat x00 1997)]))
  = Rejected (ServerError (REPLACEMENT ++ utf8 "no"))
  /\ fst (waitConnectionComplete
            (new_handshake
               [EvData (ERROR_RESPONSE :: repeat x61 1999 ++ [xe2; x82; xac])]))
     = Rejected (ServerError (repeat x61 1999 ++ REPLACEMENT)).
Proof. split; vm_compute; reflexivity. Qed.

(** C2: the source's comment says "read up to 2000 bytes", and the
    specification with it, but the read is [readBytes(2000)], which
    waits for exactly 2000 bytes.  On the specification's own example,
    ['E'] followed by "FATAL: database does not exist" and a NUL, the
    drain does not fail with the server's error: it fails with the
    read's timeout when the server then stays silent, and with the
    stream's end when the server closes.  The server's text is carried only when 2000 bytes follow
    the ['E']; all NULs are then removed, also those inside the text,
    where trimming would keep them. *)
Theorem error_text_needs_2000_bytes :
  let text := utf8 "FATAL: database does not exist" in
  fst (waitConnectionComplete
         (new_handshake [EvData (ERROR_RESPONSE :: text ++ [x00])]))
  = Rejected (ReadTimeout 2000 31)
  /\ fst (waitConnectionComplete
            (new_handshake [EvData (ERROR_RESPONSE :: text ++ [x00]); EvEnd]))
     = Rejected TransportClosed
  /\ fst (waitConnectionComplete
            (new_handshake [EvData (ERROR_RESPONSE :: text ++ repeat x00 1970)]))
     = Rejected (ServerError text)
  /\ (fst (waitConnectionComplete
             (new_handshake
                [EvData (ERROR_RESPONSE
                           :: utf8 "a" ++ [x00] ++ utf8 "b" ++ repeat x00 1997)]))
      = Rejected (ServerError (utf8 "ab"))
      /\ trimTrailingNulls (utf8 "a" ++ [x00] ++ utf8 "b" ++ repeat x00 1997)
         = utf8 "a" ++ [x00] ++ utf8 "b").
Proof.
  cbv zeta. split; [vm_compute; reflexivity|]. split; [vm_compute; reflexivity|].
  split; [vm_compute; reflexivity|]. split; vm_compute; reflexivity.
Qed.

(** ** C6: salted digests *)




(** ** C1: the security level *)

(** Whatever level was asked for, ['N'] is taken as leave to go on
    unsecured. *)
Lemma secureSession_follows_server host securityLevel d d2 :
  -2147483648 <= securityLevel <= 2147483647 ->
  readByte (sent (be32 10) (be16 HSV2_SSL_NEGOTIATE ++ be32 securityLevel) d)
  = (Resolved NOTICE_RESPONSE, d2) ->
  secureSession host securityLevel d = (Resolved true, d2).
Proof.
  intros Hr E. unfold secureSession.
  rewrite (bind_lift _ _ _ (be16 HSV2_SSL_NEGOTIATE)) by reflexivity.
  rewrite (bind_lift _ _ _ (be32 securityLevel)) by now apply packInt_in_range.
  rewrite (bind_resolved _ _ _ tt
             (sent (be32 10) (be16 HSV2_SSL_NEGOTIATE ++ be32 securityLevel) d))
    by (apply writeFrame_ok; reflexivity).
  now rewrite (bind_resolved _ _ _ _ _ E).
Qed.

(** C1: the code at the failing inputs.  With security level 3 and a
    server that answers ['N'] to [SSL_NEGOTIATE], [startup] does not fail:
    it goes on over the plain socket, sends the password in the clear, and
    resolves.  With level 1 and the answer ['S'], [secureSession] sends
    [SSL_CONNECT] and switches to TLS. *)
Theorem security_level_not_enforced :
  (let run := startup exampleHost NodeCrypto.node "mydb" 3
        (Some "admin"%string) (Some "pw"%string) EmptyString
                      (new_handshake cleartextServer) in
   fst run = Resolved (mkResult true false [] true) /\
   In (spec_frame HSV2_SSL_NEGOTIATE (be32 3)) (frames (written (snd run))) /\
   last (frames (written (snd run))) [] = spec_credential (utf8 "pw" ++ [x00]))
  /\ (let run := secureSession exampleHost 1 (new_handshake [EvData [CHAR_S]]) in
      fst run = Resolved true /\
      secure (snd run) = true /\
      frames (written (snd run))
      = [spec_frame HSV2_SSL_NEGOTIATE (be32 1); spec_frame HSV2_SSL_CONNECT (be32 1)]).
Proof.
  split.
  - vm_compute. repeat split. do 2 right. now left.
  - vm_compute. repeat split.
Qed.

(** * Further properties of the code *)

(** ** The packers *)

Lemma byte_of_Z_eq (z : Z) (b : byte) : z mod 256 = Z_of_byte b -> byte_of_Z z = b.
Proof.
  intros H. unfold byte_of_Z. rewrite H. unfold Z_of_byte.
  now rewrite N2Z.id, Byte.of_to_N.
Qed.

(** X1: [packInt] throws exactly outside the signed 32-bit range; inside
    it gives four bytes that [unpackInt] reads back as the same number,
    negative numbers included. *)
Theorem packInt_then_unpackInt (v : Z) :
  match packInt v with
  | inr bs => int32_range v /\ length bs = 4%nat /\ unpackInt bs = Some v
  | inl e => e = RangeError v /\ ~ int32_range v
  end.
Proof.
  unfold int32_range. destruct (packInt v) as [e|bs] eqn:E.
  - unfold packInt in E. destruct (_ && _) eqn:C; [discriminate|].
    injection E as <-. split; [reflexivity | lia].
  - split; [now apply packInt_range in E|]. split; [now apply packInt_length in E|].
    rewrite <- (app_nil_r bs). now apply unpackInt_packInt.
Qed.

(** X2: [unpackInt] reads any four bytes as a number of the signed
    32-bit range, and [packInt] of that number gives the four bytes
    back. *)
Theorem unpackInt_then_packInt (b0 b1 b2 b3 : byte) (rest : list byte) :
  exists v,
    unpackInt (b0 :: b1 :: b2 :: b3 :: rest) = Some v /\
    int32_range v /\
    packInt v = inr [b0; b1; b2; b3].
Proof.
  pose proof (Z_of_byte_range b0) as R0. pose proof (Z_of_byte_range b1) as R1.
  pose proof (Z_of_byte_range b2) as R2. pose proof (Z_of_byte_range b3) as R3.
  unfold unpackInt, int32_range.
  set (u := ((Z_of_byte b0 * 256 + Z_of_byte b1) * 256 + Z_of_byte b2) * 256
            + Z_of_byte b3).
  assert (Hu : 0 <= u < 4294967296) by (unfold u; lia).
  eexists. split; [reflexivity|].
  assert (Hr : -2147483648 <= (if u <? 2147483648 then u else u - 4294967296)
               <= 2147483647)
    by (destruct (u <? 2147483648) eqn:C; lia).
  split; [exact Hr|].
  rewrite (packInt_in_range _ Hr). unfold be32. f_equal.
  repeat f_equal; apply byte_of_Z_eq;
    destruct (u <? 2147483648) eqn:C; unfold u in *;
    Z.div_mod_to_equations; lia.
Qed.

(** X3: [packShort] throws exactly outside the signed 16-bit range; inside
    it gives two bytes, high byte first, that hold the number modulo
    65536. *)
Theorem packShort_two_bytes (v : Z) :
  match packShort v with
  | inr bs =>
      int16_range v /\
      exists hi lo, bs = [hi; lo] /\ Z_of_byte hi * 256 + Z_of_byte lo = v mod 65536
  | inl e => e = RangeError v /\ ~ int16_range v
  end.
Proof.
  unfold int16_range, packShort. destruct (_ && _) eqn:C.
  - split; [lia|]. eexists _, _. split; [reflexivity|].
    rewrite !Z_of_byte_of_Z, Z.shiftr_div_pow2 by lia.
    change (2 ^ 8) with 256. Z.div_mod_to_equations. lia.
  - split; [reflexivity | lia].
Qed.

(** ** Reading *)

(** X4: a read of [m + n] bytes is a read of [m] followed by a read of
    [n]: [readBytes (m + n)] resolves with [c] and ends in [d2] exactly
    when [readBytes m] resolves with a front part [a] of [c] and
    [readBytes n] after it resolves with the rest and ends in [d2],
    whatever the chunks the bytes come in. *)
Theorem readBytes_add (m n : nat) (d d2 : NetezzaHandshake) (c : list byte) :
  readBytes (m + n) d = (Resolved c, d2) <->
  exists a b d1,
    c = a ++ b /\
    readBytes m d = (Resolved a, d1) /\
    readBytes n d1 = (Resolved b, d2).
Proof.
  split.
  - intros H. destruct (readBytes_split m n d d2 c H) as (d1 & H1 & H2).
    exists (firstn m c), (skipn m c), d1. now rewrite firstn_skipn.
  - intros (a & b & d1 & -> & H1 & H2). exact (readBytes_compose m n _ _ _ _ _ H1 H2).
Qed.

(** X4, witness: five bytes in three chunks, read as one and three and
    as four. *)
Lemma readBytes_add_witness :
  readBytes (1 + 3) (new_handshake [EvData [x01; x02]; EvData [x03]; EvData [x04; x05]])
  = (Resolved [x01; x02; x03; x04],
     set_io (new_handshake [EvData [x01; x02]; EvData [x03]; EvData [x04; x05]])
       [x05] []).
Proof.
  apply (proj2 (readBytes_add 1 3
                  (new_handshake [EvData [x01; x02]; EvData [x03]; EvData [x04; x05]])
                  (set_io (new_handshake
                             [EvData [x01; x02]; EvData [x03]; EvData [x04; x05]])
                     [x05] [])
                  [x01; x02; x03; x04])).
  exists [x01], [x02; x03; x04],
    (set_io (new_handshake [EvData [x01; x02]; EvData [x03]; EvData [x04; x05]])
       [x02] [EvData [x03]; EvData [x04; x05]]).
  repeat split.
Defined.

(** X5: [readBytes count] resolves exactly when the bytes in the buffer
    and those that arrive before the stream ends, fails or goes silent
    are at least [count], and then with the first [count] of them.
    Otherwise it rejects, with the read timeout when the stream went
    silent and with the stream's end or error when that came first; the
    bytes that had arrived stay in the buffer and nothing is written. *)
Theorem readBytes_enough (count : nat) (d : NetezzaHandshake) :
  let available := buffer d ++ arriving (incoming d) in
  if (count <=? length available)%nat
  then exists d',
      readBytes count d = (Resolved (firstn count available), d') /\
      inbound d = firstn count available ++ inbound d'
  else exists d',
      readBytes count d
      = (Rejected (failure count (length (buffer d)) (incoming d)), d') /\
      buffer d' = available /\ written d' = written d.
Proof. exact (readBytes_available count d). Qed.

(** ** How [startup] can end *)

Lemma cleanup_detaches (d : NetezzaHandshake) : dataHandler (cleanup d) = false.
Proof. unfold cleanup. now destruct (dataHandler d) eqn:Hd. Qed.

Lemma startup_try_ends host crypto database securityLevel user password pgOptions :
  ends (fun res => success res = true /\ needsInitialization res = true)
       (startup_error user password) (awaiting_tls host)
       (startup_try host crypto database securityLevel user password pgOptions).
Proof.
  unfold startup_try.
  eapply ends_bind.
  { apply (ends_weaken _ _ _ (startup_error user password) _ (awaiting_tls host) _
             (fun a H => H)) with (3 := negotiateHandshake_ends).
    - intros e He. now left.
    - intros d []. }
  intros ok ->. cbn [negb].
  eapply ends_bind.
  { apply (ends_weaken _ _ _ (startup_error user password) _ (awaiting_tls host) _
             (fun a H => H))
      with (3 := sendHandshakeInfo_ends host user database securityLevel pgOptions).
    - intros e He. right. now left.
    - intros d H. exact H. }
  intros ok _. destruct ok; cbn [negb].
  2:{ apply ends_throw. right. right. now left. }
  eapply ends_bind.
  { apply (ends_weaken _ _ _ (startup_error user password) _ (awaiting_tls host) _
             (fun a H => H)) with (3 := authenticate_ends crypto password).
    - intros e He. right. right. right. now left.
    - intros d []. }
  intros ok ->. cbn [negb].
  eapply ends_bind.
  { apply (ends_weaken _ _ _ (startup_error user password) _ (awaiting_tls host) _
             (fun a H => H)) with (3 := waitConnectionComplete_ends_in).
    - intros e He. right. right. right. now right.
    - intros d []. }
  intros ok ->. cbn [negb].
  intros d r d' H. injection H as <- <-. split; reflexivity.
Qed.

Lemma startup_error_phase user password e :
  startup_error user password e -> phase_failure e -> e = HandshakeInfoFailed.
Proof.
  intros [H|[H|[H|[H|H]]]] Hp; destruct e; cbn in H, Hp;
    first [reflexivity | contradiction | discriminate H].
Qed.

Lemma startup_error_type user password :
  startup_error user password TypeError -> user = None \/ password = None.
Proof.
  intros [H|[H|[H|[H|H]]]]; cbn in H;
    first [contradiction | discriminate H | now left | now right].
Qed.

(** X6: a [startup] that rejects has run [cleanup], so the data handler
    is detached, and its error is one of the phases' own: a read failure,
    a refusal by the server, a packing error, the [TypeError] of
    [Buffer.from], or the failure of [sendHandshakeInfo].  The
    [TypeError] is raised only when the user name or the password is
    missing ([undefined] or [null]).  The three other errors that
    [startup] itself throws, for a negotiation, an authentication or a
    completion that returned [false], are never raised. *)
Theorem startup_rejections
  host crypto database securityLevel user password pgOptions d e d' :
  startup host crypto database securityLevel user password pgOptions d
  = (Rejected e, d') ->
  dataHandler d' = false /\
  startup_error user password e /\
  (e = TypeError -> user = None \/ password = None) /\
  e <> HandshakeNegotiationFailed /\
  e <> AuthenticationFailed /\
  e <> ConnectionCompletionFailed.
Proof.
  intros H. unfold startup in H.
  destruct (startup_try host crypto database securityLevel user password pgOptions d)
    as [[res|e0|] d0] eqn:Et; try discriminate H.
  injection H as <- <-.
  pose proof (startup_try_ends _ _ _ _ _ _ _ _ _ _ Et) as He. cbn in He.
  split; [apply cleanup_detaches|]. split; [exact He|].
  split; [intros ->; exact (startup_error_type _ _ He)|].
  repeat split; intros ->;
    pose proof (startup_error_phase _ _ _ He I) as Hp; discriminate Hp.
Qed.

(** X6, witness: the server answers [CLIENT_BEGIN] with ['E']; and no
    password was configured and the server asks for one. *)
Lemma startup_rejections_witness :
  let d := new_handshake [EvData (utf8 "E")] in
  let run := startup exampleHost NodeCrypto.node "mydb" 0 (Some "admin"%string)
               (Some "pw"%string) EmptyString d in
  let d' := new_handshake cleartextServer in
  let run' := startup exampleHost NodeCrypto.node "mydb" 0 (Some "admin"%string)
                None EmptyString d' in
  (fst run = Rejected BadAttributeValue /\
   dataHandler (snd run) = false /\
   startup_error (Some "admin"%string) (Some "pw"%string) BadAttributeValue /\
   (BadAttributeValue = TypeError ->
    Some "admin"%string = None \/ Some "pw"%string = None) /\
   BadAttributeValue <> HandshakeNegotiationFailed /\
   BadAttributeValue <> AuthenticationFailed /\
   BadAttributeValue <> ConnectionCompletionFailed)
  /\ (fst run' = Rejected TypeError /\
      dataHandler (snd run') = false /\
      startup_error (Some "admin"%string) None TypeError /\
      (TypeError = TypeError -> Some "admin"%string = None \/ @None string = None) /\
      TypeError <> HandshakeNegotiationFailed /\
      TypeError <> AuthenticationFailed /\
      TypeError <> ConnectionCompletionFailed).
Proof.
  intros d run d' run'. split.
  - split; [vm_compute; reflexivity|].
    apply (startup_rejections exampleHost NodeCrypto.node "mydb" 0 (Some "admin"%string)
             (Some "pw"%string) EmptyString d BadAttributeValue (snd run)).
    vm_compute. reflexivity.
  - split; [vm_compute; reflexivity|].
    apply (startup_rejections exampleHost NodeCrypto.node "mydb" 0 (Some "admin"%string)
             None EmptyString d' TypeError (snd run')).
    vm_compute. reflexivity.
Defined.

(** X7: [startup] settles on every finite input, by a result or an
    error, except in one place: it stays pending only when the TLS
    handshake of [upgradeToTLS] neither completes nor fails, and the
    data handler is then detached. *)
Theorem startup_pending_in_tls
  host crypto database securityLevel user password pgOptions d d' :
  startup host crypto database securityLevel user password pgOptions d
  = (Pending, d') ->
  tlsOutcome host = TlsSilent /\ dataHandler d' = false.
Proof.
  intros H. unfold startup in H.
  destruct (startup_try host crypto database securityLevel user password pgOptions d)
    as [[res|e0|] d0] eqn:Et; try discriminate H.
  injection H as <-.
  exact (startup_try_ends _ _ _ _ _ _ _ _ _ _ Et).
Qed.

(** X7, witness: the server asks for TLS and the handshake stays silent. *)
Lemma startup_pending_in_tls_witness :
  let d := new_handshake [EvData (utf8 "NNS")] in
  let run := startup silentHost NodeCrypto.node "mydb" 0 (Some "admin"%string)
               (Some "pw"%string) EmptyString d in
  fst run = Pending /\
  tlsOutcome silentHost = TlsSilent /\ dataHandler (snd run) = false.
Proof.
  intros d run. split; [vm_compute; reflexivity|].
  apply (startup_pending_in_tls silentHost NodeCrypto.node "mydb" 0
           (Some "admin"%string) (Some "pw"%string) EmptyString d (snd run)).
  vm_compute. reflexivity.
Defined.

(** ** What the completion drain accepts *)

(** A round that goes on has read over one message. *)
Lemma drainBody_skips d d1 :
  drainBody tt d = (Resolved (inl tt), d1) ->
  exists message, skipped message = true /\
                  readBytes (length message) d = (Resolved message, d1).
Proof.
  intros H. destruct (readByte d) as [[msgType|e|] da] eqn:E.
  2:{ unfold drainBody in H. rewrite (bind_rejected _ _ _ _ _ E) in H. discriminate H. }
  2:{ now apply readByte_settles in E. }
  pose proof (proj1 (readByte_read _ _ _) E) as E1.
  destruct (Byte.byte_eq_dec msgType AUTHENTICATION_REQUEST) as [->|NR].
  { rewrite (drainBody_request _ _ E) in H.
    apply bind_inv_resolved in H as (z & d2 & H2 & H3). injection H3 as <-.
    destruct (proj1 (readInt_read da d2) (ex_intro _ z H2)) as (raw & Hr).
    exists (AUTHENTICATION_REQUEST :: raw). split.
    - cbn. rewrite (readBytes_length _ _ _ _ Hr). reflexivity.
    - exact (readBytes_compose 1 (length raw) _ _ _ [_] raw E1
               (eq_ind_r (fun n => readBytes n da = _) Hr (readBytes_length _ _ _ _ Hr))). }
  destruct (Byte.byte_eq_dec msgType NOTICE_RESPONSE) as [->|NN].
  { rewrite (drainBody_notice _ _ E) in H.
    apply bind_inv_resolved in H as (raw & d2 & Hr & H3). injection H3 as <-.
    exists (NOTICE_RESPONSE :: raw). split.
    - cbn. rewrite (readBytes_length _ _ _ _ Hr). reflexivity.
    - exact (readBytes_compose 1 (length raw) _ _ _ [_] raw E1
               (eq_ind_r (fun n => readBytes n da = _) Hr (readBytes_length _ _ _ _ Hr))). }
  destruct (Byte.byte_eq_dec msgType ERROR_RESPONSE) as [->|NE].
  { rewrite (drainBody_error _ _ E) in H.
    apply bind_inv_resolved in H as (raw & d2 & Hr & H3). discriminate H3. }
  rewrite (drainBody_other _ _ _ E NR NN NE) in H.
  apply bind_inv_resolved in H as (filler & d2 & Hf & H).
  pose proof (readBytes_length _ _ _ _ Hf) as Lf.
  apply byte_eqb_neq in NR, NN, NE.
  unfold afterFiller in H.
  destruct (Byte.eqb msgType BACKEND_KEY_DATA) eqn:CK.
  { apply bind_inv_resolved in H as (pid & d3 & Hp & H).
    apply bind_inv_resolved in H as (key & d4 & Hk & H). injection H as <-.
    destruct (proj1 (readInt_read d2 d3) (ex_intro _ pid Hp)) as (rp & Hrp).
    destruct (proj1 (readInt_read d3 d4) (ex_intro _ key Hk)) as (rk & Hrk).
    pose proof (readBytes_length _ _ _ _ Hrp) as Lp.
    pose proof (readBytes_length _ _ _ _ Hrk) as Lk.
    pose proof (readBytes_compose _ _ _ _ _ _ _ Hrp Hrk) as H48.
    pose proof (readBytes_compose _ _ _ _ _ _ _ Hf H48) as H16.
    pose proof (readBytes_compose _ _ _ _ _ _ _ E1 H16) as H17.
    exists (msgType :: filler ++ rp ++ rk). split.
    - cbn [skipped]. rewrite NR, NN, NE, CK. cbn [orb].
      destruct (Byte.eqb msgType READY_FOR_QUERY) eqn:CZ.
      + apply byte_eqb_eq in CZ. subst msgType. discriminate CK.
      + rewrite !length_app, Lf, Lp, Lk. reflexivity.
    - cbn [length]. rewrite !length_app, Lf, Lp, Lk. exact H17. }
  destruct (Byte.eqb msgType READY_FOR_QUERY) eqn:CZ; [discriminate H|].
  injection H as <-.
  exists (msgType :: filler). split.
  - cbn [skipped]. rewrite NR, NN, NE, CK, CZ, Lf. reflexivity.
  - cbn [length]. rewrite Lf. exact (readBytes_compose 1 8 _ _ _ [_] filler E1 Hf).
Qed.

(** A message of these shapes is read over in one round. *)
Lemma drainBody_skipping d message d1 :
  skipped message = true ->
  readBytes (length message) d = (Resolved message, d1) ->
  drainBody tt d = (Resolved (inl tt), d1).
Proof.
  intros Hs H. destruct message as [|msgType body]; [discriminate Hs|].
  change (length (msgType :: body)) with (1 + length body)%nat in H.
  apply readBytes_split in H as (da & E1 & Hb). cbn [firstn skipn] in E1, Hb.
  pose proof (proj2 (readByte_read _ _ _) E1) as E.
  cbn [skipped] in Hs.
  destruct (Byte.eqb msgType AUTHENTICATION_REQUEST) eqn:CR.
  { apply byte_eqb_eq in CR. subst msgType. cbn [orb] in Hs.
    apply Nat.eqb_eq in Hs. rewrite Hs in Hb.
    rewrite (drainBody_request _ _ E).
    destruct (proj2 (readInt_read da d1) (ex_intro _ body Hb)) as (z & Hz).
    now rewrite (bind_resolved _ _ _ _ _ Hz). }
  destruct (Byte.eqb msgType NOTICE_RESPONSE) eqn:CN.
  { apply byte_eqb_eq in CN. subst msgType. cbn [orb] in Hs.
    apply Nat.eqb_eq in Hs. rewrite Hs in Hb.
    rewrite (drainBody_notice _ _ E).
    now rewrite (bind_resolved _ _ _ _ _ Hb). }
  cbn [orb] in Hs.
  destruct (Byte.eqb msgType ERROR_RESPONSE) eqn:CE; [discriminate Hs|].
  destruct (Byte.eqb msgType READY_FOR_QUERY) eqn:CZ; [discriminate Hs|].
  cbn [orb] in Hs.
  apply byte_eqb_neq in CR, CN, CE.
  rewrite (drainBody_other _ _ _ E CR CN CE). unfold afterFiller. rewrite CZ.
  destruct (Byte.eqb msgType BACKEND_KEY_DATA) eqn:CK.
  - apply Nat.eqb_eq in Hs. rewrite Hs in Hb.
    change 16%nat with (8 + (4 + 4))%nat in Hb.
    apply readBytes_split in Hb as (d2 & Hf & Hb).
    apply readBytes_split in Hb as (d3 & Hp & Hk).
    rewrite (bind_resolved _ _ _ _ _ Hf).
    destruct (proj2 (readInt_read d2 d3) (ex_intro _ _ Hp)) as (pid & Hpid).
    destruct (proj2 (readInt_read d3 d1) (ex_intro _ _ Hk)) as (key & Hkey).
    rewrite (bind_resolved _ _ _ _ _ Hpid).
    now rewrite (bind_resolved _ _ _ _ _ Hkey).
  - apply Nat.eqb_eq in Hs. rewrite Hs in Hb.
    now rewrite (bind_resolved _ _ _ _ _ Hb).
Qed.

Lemma drainBody_ready d filler d' :
  readBytes 9 d = (Resolved (READY_FOR_QUERY :: filler), d') ->
  drainBody tt d = (Resolved (inr true), d').
Proof.
  intros H. change 9%nat with (1 + 8)%nat in H.
  apply readBytes_split in H as (da & E1 & Hf). cbn [firstn skipn] in E1, Hf.
  pose proof (proj2 (readByte_read _ _ _) E1) as E.
  rewrite (drainBody_other _ _ _ E); try discriminate.
  now rewrite (bind_resolved _ _ _ _ _ Hf).
Qed.

Lemma drainBody_returns d ok d' :
  drainBody tt d = (Resolved (inr ok), d') ->
  ok = true /\
  exists filler, length filler = 8%nat /\
                 readBytes 9 d = (Resolved (READY_FOR_QUERY :: filler), d').
Proof.
  intros H.
  destruct (drainBody_inv _ _ _ H) as [(e & He)|[He|(msgType & d1 & E & _ & Hr)]];
    try discriminate He.
  destruct (Hr ok eq_refl) as (-> & -> & filler & Hf).
  split; [reflexivity|]. exists filler. split; [exact (readBytes_length _ _ _ _ Hf)|].
  exact (readBytes_compose 1 8 _ _ _ [_] filler (proj1 (readByte_read _ _ _) E) Hf).
Qed.

Lemma drain_loop_accepts :
  forall bound d ok d',
    loop bound drainBody tt d = Some (Resolved ok, d') ->
    ok = true /\
    exists messages filler,
      Forall (fun message => skipped message = true) messages /\
      length filler = 8%nat /\
      readBytes (length (completion messages filler)) d
      = (Resolved (completion messages filler), d').
Proof.
  induction bound as [|bound IH]; intros d ok d' H; cbn [loop] in H; [discriminate H|].
  destruct (drainBody tt d) as [[[[]|ok0]|e|] d1] eqn:Eb; try discriminate H.
  - apply IH in H as (-> & messages & filler & Hm & Lf & Hr).
    split; [reflexivity|].
    apply drainBody_skips in Eb as (message & Hs & Hread).
    exists (message :: messages), filler. split; [now constructor|].
    split; [exact Lf|].
    unfold completion in *. cbn [concat]. rewrite <- app_assoc, length_app.
    exact (readBytes_compose _ _ _ _ _ _ _ Hread Hr).
  - injection H as <- <-.
    apply drainBody_returns in Eb as (-> & filler & Lf & Hr).
    split; [reflexivity|]. exists [], filler. split; [constructor|].
    split; [exact Lf|]. unfold completion. cbn [concat app length]. rewrite Lf. exact Hr.
Qed.

Lemma drain_accepts_completion (messages : list (list byte)) (filler : list byte) :
  Forall (fun message => skipped message = true) messages ->
  length filler = 8%nat ->
  forall d d',
    readBytes (length (completion messages filler)) d
    = (Resolved (completion messages filler), d') ->
    waitConnectionComplete d = (Resolved true, d').
Proof.
  intros Hm Lf. unfold waitConnectionComplete.
  induction Hm as [|message messages Hs _ IH]; intros d d' H;
    rewrite (run_loop_unfold _ _ _ drainBody_progresses).
  - unfold completion in H. cbn [concat app length] in H. rewrite Lf in H.
    now rewrite (drainBody_ready _ _ _ H).
  - unfold completion in H. cbn [concat] in H. rewrite <- app_assoc, length_app in H.
    apply readBytes_split in H as (d1 & H1 & H2).
    rewrite firstn_app, Nat.sub_diag, firstn_all in H1. cbn [firstn] in H1.
    rewrite app_nil_r in H1.
    rewrite skipn_app, Nat.sub_diag, skipn_all in H2. cbn [skipn app] in H2.
    rewrite (drainBody_skipping _ _ _ Hs H1).
    exact (IH _ _ H2).
Qed.

(** X8: the completion drain resolves, and then with [true], exactly
    when the bytes it reads are messages of the shapes it reads over,
    ['R'] or ['N'] with 4 bytes, ['K'] with 16, any other type but ['E']
    and ['Z'] with 8, followed by ['Z'] and 8 bytes; it reads these
    bytes and no more, and keeps none of them. *)
Theorem drain_accepts (d d' : NetezzaHandshake) (ok : bool) :
  waitConnectionComplete d = (Resolved ok, d') <->
  ok = true /\
  exists messages filler,
    Forall (fun message => skipped message = true) messages /\
    length filler = 8%nat /\
    readBytes (length (completion messages filler)) d
    = (Resolved (completion messages filler), d').
Proof.
  split.
  - intros H. unfold waitConnectionComplete in H.
    pose proof (run_loop_eq drainBody tt d drainBody_progresses _
                  (Nat.lt_succ_diag_r _)) as Hl.
    rewrite H in Hl. exact (drain_loop_accepts _ _ _ _ Hl).
  - intros (-> & messages & filler & Hm & Lf & H).
    exact (drain_accepts_completion messages filler Hm Lf d d' H).
Qed.

(** X8, witness: a notice, an authentication request, the backend key
    data and a parameter status in front of ['Z']. *)
Lemma drain_accepts_witness :
  let messages :=
    [ NOTICE_RESPONSE :: repeat x00 4;
      AUTHENTICATION_REQUEST :: code 0;
      BACKEND_KEY_DATA :: repeat x00 8 ++ code 42 ++ code 99;
      x53 :: repeat x00 8 ] in
  let d := new_handshake [EvData (completion messages (repeat x00 8) ++ [x31])] in
  waitConnectionComplete d = (Resolved true, set_io d [x31] []).
Proof.
  intros messages d.
  apply (proj2 (drain_accepts d (set_io d [x31] []) true)).
  split; [reflexivity|]. exists messages, (repeat x00 8).
  split; [repeat constructor|]. split; reflexivity.
Defined.

(** ** The completion drain only reads *)

(** X9: whatever the completion drain ends in, it has changed the
    buffer and the pending input only: nothing is written, the process
    id and the key of the backend key data are not kept, and an
    authentication request is read over whatever its code.  It never
    returns [false] and never stays pending, and it rejects only with
    the server's error text or a failed read. *)
Theorem drain_only_reads (d d' : NetezzaHandshake) (r : outcome bool) :
  waitConnectionComplete d = (r, d') ->
  d' = set_io d (buffer d') (incoming d') /\
  match r with
  | Resolved ok => ok = true
  | Rejected e => completion_error e
  | Pending => False
  end.
Proof.
  intros H. split.
  - exact (waitConnectionComplete_preserves only_reads only_reads_refl only_reads_trans
             only_reads_read _ _ _ H).
  - exact (waitConnectionComplete_ends_in _ _ _ H).
Qed.

(** X9, witness: the server's error text in the drain. *)
Lemma drain_only_reads_witness :
  let d := new_handshake [EvData (ERROR_RESPONSE :: utf8 "no" ++ repeat x00 1998)] in
  fst (waitConnectionComplete d) = Rejected (ServerError (utf8 "no")) /\
  snd (waitConnectionComplete d)
  = set_io d (buffer (snd (waitConnectionComplete d)))
      (incoming (snd (waitConnectionComplete d))) /\
  completion_error (ServerError (utf8 "no")).
Proof.
  intros d. split; [vm_compute; reflexivity|].
  apply (drain_only_reads d (snd (waitConnectionComplete d))
           (Rejected (ServerError (utf8 "no")))).
  vm_compute. reflexivity.
Defined.

(** ** The TLS negotiation *)

Lemma secureSession_run host (securityLevel : Z) (d : NetezzaHandshake) :
  int32_range securityLevel ->
  secureSession host securityLevel d
  = match readByte d with
    | (Resolved responseChar, d1) =>
        let d2 := negotiateSent securityLevel d1 in
        if Byte.eqb responseChar NOTICE_RESPONSE then (Resolved true, d2)
        else if Byte.eqb responseChar CHAR_S then
          let d3 := connectSent securityLevel d2 in
          match tlsOutcome host with
          | SecureConnect =>
              (Resolved true, set_dataHandler (set_secure (cleanup d3) true) true)
          | TlsFailure message => (Rejected (TlsHandshakeFailed message), cleanup d3)
          | TlsSilent => (Pending, cleanup d3)
          end
        else if Byte.eqb responseChar ERROR_RESPONSE then (Rejected TlsRejected, d2)
        else (Rejected (UnknownSslResponse responseChar), d2)
    | (Rejected e, d1) => (Rejected e, negotiateSent securityLevel d1)
    | (Pending, d1) => (Pending, negotiateSent securityLevel d1)
    end.
Proof.
  intros Hr. unfold secureSession, int32_range in *.
  assert (Hop : packShort HSV2_SSL_NEGOTIATE = inr (be16 HSV2_SSL_NEGOTIATE))
    by (apply packShort_in_range; cbv; split; discriminate).
  assert (Hop' : packShort HSV2_SSL_CONNECT = inr (be16 HSV2_SSL_CONNECT))
    by (apply packShort_in_range; cbv; split; discriminate).
  assert (Hh : forall op, packInt (Z.of_nat (length (be16 op ++ be32 securityLevel)) + 4)
                          = inr (be32 10)) by (intros op; reflexivity).
  rewrite (bind_lift _ _ _ _ Hop), (bind_lift _ _ _ _ (packInt_in_range _ Hr)).
  rewrite (bind_resolved _ _ _ _ _ (writeFrame_ok _ _ d (Hh _))).
  unfold bind at 1. fold (negotiateSent securityLevel d).
  unfold negotiateSent at 1. rewrite readByte_sent.
  fold (negotiateSent securityLevel (snd (readByte d))).
  destruct (readByte d) as [[responseChar|e|] d1]; cbn [fst snd]; try reflexivity.
  destruct (Byte.eqb responseChar NOTICE_RESPONSE); [reflexivity|].
  destruct (Byte.eqb responseChar CHAR_S).
  - rewrite (bind_lift _ _ _ _ Hop'), (bind_lift _ _ _ _ (packInt_in_range _ Hr)).
    rewrite (bind_resolved _ _ _ _ _ (writeFrame_ok _ _ _ (Hh _))).
    fold (connectSent securityLevel (negotiateSent securityLevel d1)).
    unfold bind, upgradeToTLS. cbv zeta.
    destruct (tlsOutcome host); reflexivity.
  - destruct (Byte.eqb responseChar ERROR_RESPONSE); reflexivity.
Qed.

Lemma unwritten_sent header payload d : unwritten (sent header payload d) = unwritten d.
Proof. reflexivity. Qed.

Lemma unwritten_cleanup_sent header payload d :
  unwritten (cleanup (sent header payload d)) = unwritten (cleanup d).
Proof. unfold cleanup. cbn [dataHandler sent push_write]. now destruct (dataHandler d). Qed.



(** X11: what reached the buffer in clear text stays there across the
    upgrade: when the chunk that carries the server's ['S'] carries more
    bytes behind it and the TLS handshake completes, [secureSession]
    resolves on the TLS socket with exactly these bytes in the buffer, so
    that the next read takes them as the first bytes of the secured
    session. *)
Theorem secureSession_keeps_cleartext host (securityLevel : Z) (d : NetezzaHandshake)
  (behind : list byte) (later : list event) :
  int32_range securityLevel ->
  tlsOutcome host = SecureConnect ->
  buffer d = [] ->
  incoming d = EvData (CHAR_S :: behind) :: later ->
  exists d',
    secureSession host securityLevel d = (Resolved true, d') /\
    secure d' = true /\ dataHandler d' = true /\
    buffer d' = behind /\ incoming d' = later /\
    readBytes (length behind) d' = (Resolved behind, set_buffer d' []).
Proof.
  intros Hr Ht Hb Hi. rewrite (secureSession_run host securityLevel d Hr).
  assert (E : readByte d = (Resolved CHAR_S, set_io d behind later)).
  { unfold readByte, bind, readBytes. rewrite Hb, Hi. reflexivity. }
  rewrite E, Ht. cbv zeta.
  change (Byte.eqb CHAR_S NOTICE_RESPONSE) with false.
  change (Byte.eqb CHAR_S CHAR_S) with true. cbv iota.
  eexists. split; [reflexivity|].
  assert (Hbuf : buffer (set_dataHandler
                   (set_secure
                      (cleanup (connectSent securityLevel
                         (negotiateSent securityLevel (set_io d behind later)))) true)
                   true) = behind).
  { unfold cleanup. cbn [dataHandler connectSent negotiateSent sent push_write set_io].
    now destruct (dataHandler d). }
  assert (Hinc : incoming (set_dataHandler
                   (set_secure
                      (cleanup (connectSent securityLevel
                         (negotiateSent securityLevel (set_io d behind later)))) true)
                   true) = later).
  { unfold cleanup. cbn [dataHandler connectSent negotiateSent sent push_write set_io].
    now destruct (dataHandler d). }
  repeat split; try assumption.
  rewrite readBytes_buffered by (rewrite Hbuf; lia).
  rewrite Hbuf, firstn_all, skipn_all. reflexivity.
Qed.

(** X11, witness: an authentication request sent in clear text in the
    chunk of the ['S'] is found in the buffer of the secured session. *)
Lemma secureSession_keeps_cleartext_witness :
  exists d',
    secureSession exampleHost 3
      (new_handshake [EvData (CHAR_S :: AUTHENTICATION_REQUEST :: code 3)])
    = (Resolved true, d') /\
    secure d' = true /\ dataHandler d' = true /\
    buffer d' = AUTHENTICATION_REQUEST :: code 3 /\ incoming d' = [] /\
    readBytes (length (AUTHENTICATION_REQUEST :: code 3)) d'
    = (Resolved (AUTHENTICATION_REQUEST :: code 3), set_buffer d' []).
Proof.
  apply (secureSession_keeps_cleartext exampleHost 3
           (new_handshake [EvData (CHAR_S :: AUTHENTICATION_REQUEST :: code 3)])
           (AUTHENTICATION_REQUEST :: code 3) []).
  - unfold int32_range. lia.
  - reflexivity.
  - reflexivity.
  - reflexivity.
Defined.

(** ** The protocol fallback *)

Lemma setNextDataProtocol_step (d : NetezzaHandshake) (p q : Z) :
  protocol2 d = Some p ->
  (p = 0 /\ q = PG_PROTOCOL_5) \/ (p = 5 /\ q = PG_PROTOCOL_4)
  \/ (p = 4 /\ q = PG_PROTOCOL_3) ->
  setNextDataProtocol d = (Resolved true, set_protocol d (Some PG_PROTOCOL_3) (Some q)).
Proof.
  intros Hp Hq. unfold setNextDataProtocol, is_num. rewrite Hp.
  destruct Hq as [[-> ->]|[[-> ->]|[-> ->]]]; reflexivity.
Qed.

Lemma setNextDataProtocol_stops (d : NetezzaHandshake) :
  protocol2 d <> Some 0 -> protocol2 d <> Some 5 -> protocol2 d <> Some 4 ->
  setNextDataProtocol d = (Resolved false, d).
Proof.
  intros H0 H5 H4. unfold setNextDataProtocol, is_num.
  destruct (protocol2 d) as [p|]; [|reflexivity].
  destruct (p =? 0) eqn:C0; [apply Z.eqb_eq in C0; congruence|].
  destruct (p =? 5) eqn:C5; [apply Z.eqb_eq in C5; congruence|].
  destruct (p =? 4) eqn:C4; [apply Z.eqb_eq in C4; congruence|].
  reflexivity.
Qed.

Ltac next_protocol S :=
  match goal with
  | |- context [setNextDataProtocol (set_protocol ?a ?b ?c)] =>
      rewrite (S (set_protocol a b c) eq_refl); cbn [snd]
  end.

(** X12: [setNextDataProtocol] steps down from 3.5 to 3.4 to 3.3 and
    then gives up: from the state that the negotiation leaves
    ([protocol2 = 0]) three calls in a row return [true] and set these
    versions, and from any state the fourth call in a row returns
    [false] and changes nothing. *)
Theorem setNextDataProtocol_fallback (d : NetezzaHandshake) :
  let d1 := snd (setNextDataProtocol d) in
  let d2 := snd (setNextDataProtocol d1) in
  let d3 := snd (setNextDataProtocol d2) in
  setNextDataProtocol d3 = (Resolved false, d3) /\
  (protocol2 d = Some 0 ->
   setNextDataProtocol d
   = (Resolved true, set_protocol d (Some PG_PROTOCOL_3) (Some PG_PROTOCOL_5)) /\
   setNextDataProtocol d1
   = (Resolved true, set_protocol d (Some PG_PROTOCOL_3) (Some PG_PROTOCOL_4)) /\
   setNextDataProtocol d2
   = (Resolved true, set_protocol d (Some PG_PROTOCOL_3) (Some PG_PROTOCOL_3))).
Proof.
  cbv zeta.
  assert (S3 : forall d0, protocol2 d0 = Some 3 ->
                          setNextDataProtocol d0 = (Resolved false, d0))
    by (intros d0 H; apply setNextDataProtocol_stops; rewrite H; discriminate).
  assert (S4 : forall d0, protocol2 d0 = Some 4 ->
                          setNextDataProtocol d0
                          = (Resolved true,
                             set_protocol d0 (Some PG_PROTOCOL_3) (Some PG_PROTOCOL_3)))
    by (intros d0 H; apply (setNextDataProtocol_step d0 4); auto).
  assert (S5 : forall d0, protocol2 d0 = Some 5 ->
                          setNextDataProtocol d0
                          = (Resolved true,
                             set_protocol d0 (Some PG_PROTOCOL_3) (Some PG_PROTOCOL_4)))
    by (intros d0 H; apply (setNextDataProtocol_step d0 5); auto).
  assert (S0 : forall d0, protocol2 d0 = Some 0 ->
                          setNextDataProtocol d0
                          = (Resolved true,
                             set_protocol d0 (Some PG_PROTOCOL_3) (Some PG_PROTOCOL_5)))
    by (intros d0 H; apply (setNextDataProtocol_step d0 0); auto).
  assert (D : forall q, {protocol2 d = Some q} + {protocol2 d <> Some q})
    by (intros q; decide equality; apply Z.eq_dec).
  split.
  - destruct (D 0) as [H0|H0].
    { rewrite (S0 d H0). cbn [snd]. next_protocol S5. next_protocol S4.
      now next_protocol S3. }
    destruct (D 5) as [H5|H5].
    { rewrite (S5 d H5). cbn [snd]. next_protocol S4. next_protocol S3.
      now next_protocol S3. }
    destruct (D 4) as [H4|H4].
    { rewrite (S4 d H4). cbn [snd]. next_protocol S3. next_protocol S3.
      now next_protocol S3. }
    repeat (rewrite (setNextDataProtocol_stops d H0 H5 H4); cbn [snd]).
    reflexivity.
  - intros H0. rewrite (S0 d H0). cbn [snd]. next_protocol S5. next_protocol S4.
    repeat split.
Qed.

(** X12, witness: the state after the server accepted version 6. *)
Lemma setNextDataProtocol_fallback_witness :
  let d := set_accepted (new_handshake []) 6 in
  setNextDataProtocol d
  = (Resolved true, set_protocol d (Some PG_PROTOCOL_3) (Some PG_PROTOCOL_5)) /\
  setNextDataProtocol (snd (setNextDataProtocol d))
  = (Resolved true, set_protocol d (Some PG_PROTOCOL_3) (Some PG_PROTOCOL_4)) /\
  setNextDataProtocol (snd (setNextDataProtocol (snd (setNextDataProtocol d))))
  = (Resolved true, set_protocol d (Some PG_PROTOCOL_3) (Some PG_PROTOCOL_3)).
Proof.
  intros d.
  exact (proj2 (setNextDataProtocol_fallback d) eq_refl).
Defined.

(** ** Authentication without a digest *)






(** ** What a successful attempt has written *)

Lemma same_transport_refl d : same_transport d d.
Proof. reflexivity. Qed.

Lemma same_transport_trans d1 d2 d3 :
  same_transport d1 d2 -> same_transport d2 d3 -> same_transport d1 d3.
Proof. unfold same_transport. congruence. Qed.

Lemma same_transport_read count : preserves same_transport (readBytes count).
Proof.
  intros d r d' H. apply readBytes_spec in H as (buf & evs & -> & _). reflexivity.
Qed.

Lemma same_transport_write payload : preserves same_transport (writeFrame payload).
Proof.
  intros d r d' H.
  apply writeFrame_inv in H as [(h & _ & _ & ->)|(e & _ & _ & ->)]; reflexivity.
Qed.

Lemma same_transport_frame (op : Z) (opbytes body : list byte) :
  True -> packShort op = inr opbytes ->
  preserves same_transport (writeFrame (opbytes ++ body)).
Proof. intros _ _. apply same_transport_write. Qed.

Ltac transport_tac :=
  first [ exact same_transport_refl | exact same_transport_trans
        | exact same_transport_read | exact same_transport_frame
        | exact same_transport_write | intros; exact I ].

Lemma sendDatabase_sent database d d' :
  sendDatabase database d = (Resolved true, d') ->
  exists fs,
    written d' = written d ++ writes_of fs /\
    map joined fs = databaseFrames database /\
    consumes (if falsy database then [] else [NOTICE_RESPONSE]) d d' /\
    secure d' = secure d.
Proof.
  unfold sendDatabase, databaseFrames. intros H.
  destruct (falsy database).
  - injection H as <-. exists []. cbn. rewrite app_nil_r. now repeat split.
  - assert (Hop : packShort HSV2_DB = inr (be16 HSV2_DB))
      by (apply packShort_in_range; cbv; split; discriminate).
    rewrite (bind_lift _ _ _ _ Hop) in H.
    apply bind_inv_resolved in H as ([] & d1 & Hw & H).
    apply writeFrame_inv in Hw as [(header & Hh & _ & ->)|(e & _ & He & _)];
      [|discriminate He].
    apply bind_inv_resolved in H as (response & d2 & Hr & H).
    assert (d' = d2 /\ response = NOTICE_RESPONSE) as [-> ->].
    { destruct (Byte.eqb response NOTICE_RESPONSE) eqn:CN.
      - apply byte_eqb_eq in CN. now injection H.
      - destruct (Byte.eqb response ERROR_RESPONSE); discriminate H. }
    exists [(header, be16 HSV2_DB ++ utf8 database ++ NULL_BYTE)].
    split; [rewrite (readByte_written _ _ _ Hr); apply written_sent|].
    split.
    { cbn [map joined fst snd]. f_equal.
      exact (frame_header HSV2_DB _ (utf8 database ++ NULL_BYTE) header Hop Hh). }
    split; [exact (proj1 (readByte_consumes _ _ _ Hr))|].
    apply readByte_spec in Hr as (buf & evs & -> & _). reflexivity.
Qed.

Lemma secureSession_level host securityLevel d ok d' :
  secureSession host securityLevel d = (Resolved ok, d') -> int32_range securityLevel.
Proof.
  intros H. unfold secureSession in H.
  apply bind_inv_resolved in H as (op & d1 & _ & H).
  apply bind_inv_resolved in H as (level & d2 & Hl & _).
  destruct (packInt securityLevel) as [e|bs] eqn:E; [discriminate Hl|].
  exact (packInt_range _ _ E).
Qed.

Lemma secureSession_sent host securityLevel d d' :
  secureSession host securityLevel d = (Resolved true, d') ->
  exists fs upgraded,
    written d' = written d ++ writes_of fs /\
    map joined fs
    = negotiateFrame securityLevel
      :: (if upgraded : bool then [connectFrame securityLevel] else []) /\
    consumes [if upgraded then CHAR_S else NOTICE_RESPONSE] d d' /\
    secure d' = (if upgraded then true else secure d).
Proof.
  intros H. pose proof (secureSession_level _ _ _ _ _ H) as Hr.
  rewrite (secureSession_run host securityLevel d Hr) in H.
  destruct (readByte d) as [[responseChar|e|] d1] eqn:E; try discriminate H.
  pose proof (readByte_written _ _ _ E) as W.
  pose proof (proj1 (readByte_consumes _ _ _ E)) as C.
  assert (S1 : secure d1 = secure d)
    by (apply readByte_spec in E as (buf & evs & -> & _); reflexivity).
  cbv zeta in H.
  destruct (Byte.eqb responseChar NOTICE_RESPONSE) eqn:CN.
  { apply byte_eqb_eq in CN. subst responseChar. injection H as <-.
    exists [(be32 10, be16 HSV2_SSL_NEGOTIATE ++ be32 securityLevel)], false.
    split; [unfold negotiateSent; now rewrite written_sent, W|].
    split; [reflexivity|]. split; [exact C | exact S1]. }
  destruct (Byte.eqb responseChar CHAR_S) eqn:CS.
  { apply byte_eqb_eq in CS. subst responseChar.
    destruct (tlsOutcome host); try discriminate H. injection H as <-.
    exists [(be32 10, be16 HSV2_SSL_NEGOTIATE ++ be32 securityLevel);
            (be32 10, be16 HSV2_SSL_CONNECT ++ be32 securityLevel)], true.
    split.
    { unfold cleanup, connectSent, negotiateSent.
      cbn [dataHandler sent push_write]. destruct (dataHandler d1);
        cbn [written set_dataHandler set_secure sent push_write]; rewrite W;
        cbn; now rewrite <- !app_assoc. }
    split; [reflexivity|].
    split; [|reflexivity].
    unfold consumes in *. rewrite C. f_equal.
    unfold inbound, cleanup, connectSent, negotiateSent.
    cbn [dataHandler sent push_write]. now destruct (dataHandler d1). }
  destruct (Byte.eqb responseChar ERROR_RESPONSE); discriminate H.
Qed.

Lemma authenticate_credential crypto password d ok d' :
  authenticate crypto password d = (Resolved ok, d') ->
  exists fs,
    written d' = written d ++ writes_of fs /\
    (map joined fs = [] \/ exists body, map joined fs = [spec_credential (body ++ [x00])]).
Proof.
  intros H. unfold authenticate in H.
  apply bind_inv_resolved in H as (first & d1 & H1 & H).
  apply bind_inv_resolved in H as (response & d2 & H2 & H).
  assert (W2 : written d2 = written d).
  { rewrite <- (readByte_written _ _ _ H1).
    destruct (Byte.eqb first NOTICE_RESPONSE).
    - exact (readByte_written _ _ _ H2).
    - now injection H2 as _ <-. }
  destruct (negb (Byte.eqb response AUTHENTICATION_REQUEST)); [discriminate H|].
  apply bind_inv_resolved in H as (authType & d3 & H3 & H).
  pose proof (readInt_written _ _ _ H3) as W3.
  assert (Hsend : forall body d4 d5,
             written d4 = written d ->
             (writeFrame (body ++ NULL_BYTE) ;;; ret true) d4 = (Resolved ok, d5) ->
             exists fs,
               written d5 = written d ++ writes_of fs /\
               (map joined fs = [] \/
                exists body, map joined fs = [spec_credential (body ++ [x00])])).
  { intros body d4 d5 W4 Hs.
    apply bind_inv_resolved in Hs as ([] & d6 & Hw & Hs). injection Hs as _ <-.
    apply writeFrame_inv in Hw as [(header & Hh & _ & ->)|(e & _ & He & _)];
      [|discriminate He].
    exists [(header, body ++ NULL_BYTE)]. split.
    - now rewrite written_sent, W4.
    - right. exists body. cbn [map]. f_equal.
      apply packInt_be32 in Hh. subst header. unfold spec_credential, joined.
      cbn [fst snd]. change NULL_BYTE with [x00]. now rewrite Z.add_comm. }
  destruct (authType =? AUTH_REQ_OK).
  { injection H as _ <-. exists []. split.
    - cbn. rewrite app_nil_r. congruence.
    - now left. }
  apply bind_inv_resolved in H as (passwordBuffer & dp & Hp & H).
  assert (dp = d3) as -> by (destruct password; [now injection Hp | discriminate Hp]).
  destruct (authType =? AUTH_REQ_PASSWORD).
  { refine (Hsend _ _ _ _ H). congruence. }
  destruct (authType =? AUTH_REQ_MD5).
  { apply bind_inv_resolved in H as (salt & d4 & H4 & H).
    refine (Hsend _ _ _ _ H).
    rewrite (readBytes_written _ _ _ _ H4). congruence. }
  destruct (authType =? AUTH_REQ_SHA256).
  { apply bind_inv_resolved in H as (salt & d4 & H4 & H).
    refine (Hsend _ _ _ _ H).
    rewrite (readBytes_written _ _ _ _ H4). congruence. }
  discriminate H.
Qed.

Lemma beginWrites_frames (versions : list Z) :
  exists fs, beginWrites versions = writes_of fs /\ map joined fs = map beginFrame versions.
Proof.
  exists (map (fun version => (be32 8, be16 HSV2_CLIENT_BEGIN ++ be16 version)) versions).
  split; [reflexivity|]. rewrite map_map. reflexivity.
Qed.

(** X15: when [startup] resolves, the server's bytes began with the
    counter-offers and the ['N'] of the negotiation, the ['N'] for the
    database unless its name is empty, and ['N'] or ['S'] for the
    security level; and what [startup] has written is, in this order:
    [CLIENT_BEGIN] for version 6 and for each version offered, one per
    round, the last of them with the version now in [hsVersion]; the
    [DB] frame unless the database name is empty; the [SSL_NEGOTIATE]
    frame with the security level, followed by the [SSL_CONNECT] frame
    exactly when the server answered ['S'], and then the transport is
    the TLS socket, which is also the stream handed back, while after
    ['N'] the transport is the one it was; the metadata stream of the
    accepted version for the user name, with data protocol 3.5; and at
    most one credential frame.  The completion drain added nothing. *)
Theorem startup_transcript
  host crypto database securityLevel user password pgOptions d res d' :
  startup host crypto database securityLevel user password pgOptions d
  = (Resolved res, d') ->
  exists name digits versions upgraded credential fs later,
    user = Some name /\
    Forall2 offered digits versions /\
    inbound d
    = answers digits
      ++ (if falsy database then [] else [NOTICE_RESPONSE])
      ++ [if upgraded : bool then CHAR_S else NOTICE_RESPONSE]
      ++ later /\
    written d' = written d ++ writes_of fs /\
    map joined fs
    = map beginFrame (CP_VERSION_6 :: versions)
      ++ databaseFrames database
      ++ [negotiateFrame securityLevel]
      ++ (if upgraded then [connectFrame securityLevel] else [])
      ++ metadataStream host (last versions CP_VERSION_6) name pgOptions
           PG_PROTOCOL_3 PG_PROTOCOL_5
      ++ credential /\
    hsVersion d' = Some (last versions CP_VERSION_6) /\
    secure d' = (if upgraded then true else secure d) /\
    stream res = secure d' /\
    (credential = [] \/ exists body, credential = [spec_credential (body ++ [x00])]).
Proof.
  intros H.
  apply startup_resolved in H as (d1 & d2 & d3 & d4 & H1 & H2 & H3 & H4 & -> & ->).
  (* phase 1 *)
  pose proof (negotiateHandshake_sentinel _ _ _ H1) as (_ & P1 & accepted & V1 & Rv).
  pose proof (negotiateHandshake_spec _ _ _ H1) as L1.
  apply negotiate_loop_accepts in L1 as (_ & digits & versions & d0 & Hd & Hr & E1);
    [|cbv; split; discriminate].
  pose proof (readBytes_spec _ _ _ _ Hr) as (buf & evs & E0 & _ & C0).
  assert (W1 : written d1 = written d ++ beginWrites (CP_VERSION_6 :: versions))
    by (rewrite E1; reflexivity).
  assert (S1 : secure d1 = secure d) by (rewrite E1, E0; reflexivity).
  assert (I1 : inbound d = answers digits ++ inbound d1)
    by (rewrite C0, E1; reflexivity).
  assert (Hacc : accepted = last versions CP_VERSION_6)
    by (rewrite E1 in V1; cbn in V1; now injection V1).
  subst accepted.
  destruct (beginWrites_frames (CP_VERSION_6 :: versions)) as (fs1 & Wb & Jb).
  (* phase 2 *)
  apply sendHandshakeInfo_resolved in H2 as (da & db & dc & Ha & Hn & Hs & Hm).
  pose proof (sendDatabase_keeps _ _ _ _ Ha) as (Kv & _ & Kp).
  apply sendDatabase_sent in Ha as (fsa & Wa & Ja & Ca & Sa).
  rewrite setNextDataProtocol_from_sentinel in Hn by congruence.
  injection Hn as <-.
  pose proof (secureSession_keeps _ _ _ _ _ Hs) as (Sv & Sp1 & Sp2).
  cbn [hsVersion protocol1 protocol2 set_protocol] in Sv, Sp1, Sp2.
  apply secureSession_sent in Hs as (fss & upgraded & Ws & Js & Cs & Ss).
  cbn [written set_protocol secure] in Ws, Ss.
  unfold consumes in Cs, Ca.
  change (inbound (set_protocol da (Some PG_PROTOCOL_3) (Some PG_PROTOCOL_5)))
    with (inbound da) in Cs.
  assert (Hvc : hsVersion dc = Some (last versions CP_VERSION_6)) by congruence.
  destruct user as [name|];
    [|rewrite (sendHandshakeVersion_no_user _ _ _ _ Hvc Rv) in Hm; discriminate Hm].
  pose proof (sendHandshakeVersion_keeps _ _ _ _ _ _ Hm) as (Mv & _ & _).
  assert (Sm : same_transport dc d2).
  { revert Hm. apply (sendHandshakeVersion_preserves same_transport (fun _ => True));
      transport_tac. }
  apply (sendHandshakeVersion_stream _ _ _ _ _ _ _ Hvc Rv) in Hm
      as (fsm & acks & rest & Wm & _ & _ & Jm & _ & Tm & _).
  destruct (Tm eq_refl) as (-> & _). rewrite app_nil_r in Jm.
  rewrite Sp1, Sp2 in Jm. cbn [js_number] in Jm.
  (* phases 3 and 4 *)
  pose proof (authenticate_keeps _ _ _ _ _ H3) as (Av & _ & _).
  assert (S3 : same_transport d2 d3).
  { revert H3. apply authenticate_preserves; transport_tac. }
  apply authenticate_credential in H3 as (fsc & Wc & Jc).
  pose proof (waitConnectionComplete_keeps _ _ _ H4) as (Dv & _ & _).
  pose proof (waitConnectionComplete_preserves only_reads only_reads_refl
                only_reads_trans only_reads_read _ _ _ H4) as D4.
  assert (W4 : written d4 = written d3) by (rewrite D4; reflexivity).
  assert (S4 : secure d4 = secure d3) by (rewrite D4; reflexivity).
  unfold same_transport in Sm, S3.
  exists name, digits, versions, upgraded, (map joined fsc),
    (fs1 ++ fsa ++ fss ++ fsm ++ fsc), (inbound dc).
  split; [reflexivity|]. split; [exact Hd|].
  split; [rewrite I1, Ca, Cs; reflexivity|].
  split.
  { cbn [written set_buffer set_io].
    rewrite W4, Wc, Wm, Ws, Wa, W1, Wb, !writes_of_app, <- !app_assoc. reflexivity. }
  split.
  { rewrite !map_app, Jb, Ja, Js, Jm. cbn [app]. rewrite <- ?app_assoc. reflexivity. }
  split; [cbn [hsVersion set_buffer set_io]; congruence|].
  assert (Sfin : secure d4 = (if upgraded then true else secure d))
    by (rewrite S4, S3, Sm, Ss; destruct upgraded; congruence).
  split; [exact Sfin|]. split; [reflexivity|]. exact Jc.
Qed.

(** X15, witness: the server that asks for the password in clear
    text. *)
Lemma startup_transcript_witness :
  let d := new_handshake cleartextServer in
  let run := startup exampleHost NodeCrypto.node "mydb" 3 (Some "admin"%string)
               (Some "pw"%string) EmptyString d in
  exists name digits versions upgraded credential fs later,
    Some "admin"%string = Some name /\
    Forall2 offered digits versions /\
    inbound d
    = answers digits
      ++ (if falsy "mydb" then [] else [NOTICE_RESPONSE])
      ++ [if upgraded : bool then CHAR_S else NOTICE_RESPONSE]
      ++ later /\
    written (snd run) = written d ++ writes_of fs /\
    map joined fs
    = map beginFrame (CP_VERSION_6 :: versions)
      ++ databaseFrames "mydb"
      ++ [negotiateFrame 3]
      ++ (if upgraded then [connectFrame 3] else [])
      ++ metadataStream exampleHost (last versions CP_VERSION_6) name EmptyString
           PG_PROTOCOL_3 PG_PROTOCOL_5
      ++ credential /\
    hsVersion (snd run) = Some (last versions CP_VERSION_6) /\
    secure (snd run) = (if upgraded then true else secure d) /\
    stream (mkResult true false [] true) = secure (snd run) /\
    (credential = [] \/ exists body, credential = [spec_credential (body ++ [x00])]).
Proof.
  intros d run.
  apply (startup_transcript exampleHost NodeCrypto.node "mydb" 3 (Some "admin"%string)
           (Some "pw"%string) EmptyString d (mkResult true false [] true) (snd run)).
  vm_compute. reflexivity.
Defined.

(** ** What the negotiation accepts *)

(** X16: [negotiateHandshake] resolves, and then with [true], exactly
    when the server's answers are counter-offers, each an ['M'] and a
    digit from ['2'] to ['5'], followed by ['N'].  It has then read
    these bytes and no more, has written [CLIENT_BEGIN] for version 6
    and for each offered version in the order of the offers, and has set
    [hsVersion] to the last version offered (6 without an offer) and
    [protocol2] to 0. *)
Theorem negotiation_accepts (d d' : NetezzaHandshake) (ok : bool) :
  negotiateHandshake d = (Resolved ok, d') <->
  ok = true /\
  exists digits versions d0,
    Forall2 offered digits versions /\
    readBytes (length (answers digits)) d = (Resolved (answers digits), d0) /\
    d' = set_accepted
           (with_written d0 (written d ++ beginWrites (CP_VERSION_6 :: versions)))
           (last versions CP_VERSION_6).
Proof.
  split.
  - intros H. apply negotiateHandshake_spec in H.
    apply negotiate_loop_accepts in H; [exact H | cbv; split; discriminate].
  - intros (-> & digits & versions & d0 & Hd & Hr & ->).
    apply (negotiate_accepts_answers digits versions Hd); [cbv; split; discriminate|].
    exact Hr.
Qed.

(** X16, witness: the server offers version 4, then version 5, and
    accepts. *)
Lemma negotiation_accepts_witness :
  let d := new_handshake [EvData (utf8 "M4M"); EvData (utf8 "5N")] in
  negotiateHandshake d
  = (Resolved true,
     set_accepted (with_written (set_io d [] []) (beginWrites [6; 4; 5])) 5).
Proof.
  intros d.
  apply (proj2 (negotiation_accepts d _ true)).
  split; [reflexivity|]. exists [CHAR_4; CHAR_5], [4; 5], (set_io d [] []).
  split; [repeat constructor|]. split; reflexivity.
Defined.

(** ** When sending the handshake information fails *)

Lemma refused_after d d1 d' : reads_ahead d d1 -> refused d1 d' -> refused d d'.
Proof.
  intros [c1 H1] (c2 & response & H2 & HN & HE).
  exists (c1 ++ c2), response. split; [|now split].
  unfold consumes in *. now rewrite H1, H2, !app_assoc.
Qed.

Lemma lift_resolved {A} (x : HandshakeError + A) d a d1 :
  lift x d = (Resolved a, d1) -> d1 = d.
Proof. destruct x; intros H; [discriminate H | now injection H]. Qed.

Lemma sendSteps_false (steps : list Step) :
  forall d d', sendSteps steps d = (Resolved false, d') -> refused d d'.
Proof.
  induction steps as [|step steps IH]; intros d d' H; cbn [sendSteps] in H.
  - discriminate H.
  - destruct (is_null (data step) && negb (opcode step =? HSV2_CLIENT_DONE));
      [exact (IH _ _ H)|].
    apply bind_inv_resolved in H as (op & d1 & H1 & H).
    apply lift_resolved in H1. subst d1.
    apply bind_inv_resolved in H as ([] & d2 & Hw & H).
    assert (R2 : reads_ahead d d2).
    { destruct (data step); cbv zeta in Hw; exact (reads_ahead_write _ _ _ _ Hw). }
    destruct (opcode step =? HSV2_CLIENT_DONE); [discriminate H|].
    apply bind_inv_resolved in H as (response & d3 & Hr & H).
    apply readByte_consumes in Hr as (C3 & _).
    destruct (Byte.eqb response NOTICE_RESPONSE) eqn:CN; cbn [negb] in H.
    + apply (refused_after d d3).
      * eapply reads_ahead_trans; [exact R2 | now exists [response]].
      * exact (IH _ _ H).
    + destruct (Byte.eqb response ERROR_RESPONSE) eqn:CE; [discriminate H|].
      injection H as <-. apply (refused_after d d2 d3 R2).
      exists [], response. split; [exact C3|].
      split; [now apply byte_eqb_neq in CN | now apply byte_eqb_neq in CE].
Qed.

Lemma sendHandshakeVersion_false host user pgOptions d d' :
  sendHandshakeVersion host user pgOptions d = (Resolved false, d') -> refused d d'.
Proof.
  intros H. unfold sendHandshakeVersion in H.
  destruct (_ || _).
  - unfold sendHandshakeVersion4 in H.
    apply bind_inv_resolved in H as (ub & d1 & H1 & H). apply lift_resolved in H1 as ->.
    apply bind_inv_resolved in H as (p1 & d1 & H1 & H). apply lift_resolved in H1 as ->.
    apply bind_inv_resolved in H as (p2 & d1 & H1 & H). apply lift_resolved in H1 as ->.
    apply bind_inv_resolved in H as (rp & d1 & H1 & H). apply lift_resolved in H1 as ->.
    apply bind_inv_resolved in H as (ct & d1 & H1 & H). apply lift_resolved in H1 as ->.
    apply bind_inv_resolved in H as (steps & d1 & H1 & H).
    apply finishSteps_spec in H1 as (-> & _). exact (sendSteps_false _ _ _ H).
  - destruct (_ || _); [|discriminate H].
    unfold sendHandshakeVersion2 in H.
    apply bind_inv_resolved in H as (ub & d1 & H1 & H). apply lift_resolved in H1 as ->.
    apply bind_inv_resolved in H as (p1 & d1 & H1 & H). apply lift_resolved in H1 as ->.
    apply bind_inv_resolved in H as (p2 & d1 & H1 & H). apply lift_resolved in H1 as ->.
    apply bind_inv_resolved in H as (rp & d1 & H1 & H). apply lift_resolved in H1 as ->.
    apply bind_inv_resolved in H as (ct & d1 & H1 & H). apply lift_resolved in H1 as ->.
    apply bind_inv_resolved in H as (steps & d1 & H1 & H).
    apply finishSteps_spec in H1 as (-> & _). exact (sendSteps_false _ _ _ H).
Qed.

Lemma sendDatabase_false database d d' :
  sendDatabase database d = (Resolved false, d') -> refused d d'.
Proof.
  intros H. unfold sendDatabase in H.
  destruct (falsy database); [discriminate H|].
  apply bind_inv_resolved in H as (op & d1 & H1 & H). apply lift_resolved in H1 as ->.
  apply bind_inv_resolved in H as ([] & d2 & Hw & H).
  apply reads_ahead_write in Hw.
  apply bind_inv_resolved in H as (response & d3 & Hr & H).
  apply readByte_consumes in Hr as (C3 & _).
  destruct (Byte.eqb response NOTICE_RESPONSE) eqn:CN; [discriminate H|].
  destruct (Byte.eqb response ERROR_RESPONSE) eqn:CE; [discriminate H|].
  injection H as <-. apply (refused_after d d2 d3 Hw).
  exists [], response. split; [exact C3|].
  split; [now apply byte_eqb_neq in CN | now apply byte_eqb_neq in CE].
Qed.

Lemma secureSession_true host securityLevel d ok d' :
  secureSession host securityLevel d = (Resolved ok, d') -> ok = true.
Proof.
  intros H. pose proof (secureSession_level _ _ _ _ _ H) as Hr.
  rewrite (secureSession_run host securityLevel d Hr) in H.
  destruct (readByte d) as [[responseChar|e|] d1]; try discriminate H. cbv zeta in H.
  destruct (Byte.eqb responseChar NOTICE_RESPONSE); [now injection H|].
  destruct (Byte.eqb responseChar CHAR_S).
  - destruct (tlsOutcome host); try discriminate H. now injection H.
  - destruct (Byte.eqb responseChar ERROR_RESPONSE); discriminate H.
Qed.

Lemma sendHandshakeInfo_false host database securityLevel user pgOptions d d' :
  protocol2 d = Some 0 ->
  sendHandshakeInfo host database securityLevel user pgOptions d = (Resolved false, d') ->
  refused d d'.
Proof.
  intros Hp H. unfold sendHandshakeInfo in H.
  apply bind_inv_resolved in H as (ok & da & Ha & H).
  destruct ok; cbn [negb] in H.
  2:{ injection H as <-. exact (sendDatabase_false _ _ _ Ha). }
  pose proof (sendDatabase_keeps _ _ _ _ Ha) as (_ & _ & Kp).
  assert (Ra : reads_ahead d da).
  { revert Ha. apply (sendDatabase_preserves reads_ahead (fun _ => True)); reads_tac. }
  apply bind_inv_resolved in H as (ok & db & Hn & H).
  rewrite setNextDataProtocol_from_sentinel in Hn by congruence.
  injection Hn as <- <-. cbn [negb] in H.
  apply bind_inv_resolved in H as (ok & dc & Hs & H).
  pose proof (secureSession_true _ _ _ _ _ Hs) as ->. cbn [negb] in H.
  assert (Rc : reads_ahead (set_protocol da (Some PG_PROTOCOL_3) (Some PG_PROTOCOL_5)) dc).
  { revert Hs. apply (secureSession_preserves reads_ahead (fun _ => True)); reads_tac. }
  apply (refused_after d dc); [|exact (sendHandshakeVersion_false _ _ _ _ _ H)].
  eapply reads_ahead_trans; [exact Ra|].
  eapply reads_ahead_trans; [|exact Rc]. now apply reads_ahead_same.
Qed.

(** X17: [startup] rejects with the failure of [sendHandshakeInfo] only
    when that method returned [false], and the last byte that was read
    is then an answer that is neither ['N'] nor ['E']: an answer to the
    [DB] frame or to a metadata frame that the driver does not know.
    What came behind that byte is still unread. *)
Theorem handshake_info_failed
  host crypto database securityLevel user password pgOptions d d' :
  startup host crypto database securityLevel user password pgOptions d
  = (Rejected HandshakeInfoFailed, d') ->
  exists d1 d2 consumed response,
    negotiateHandshake d = (Resolved true, d1) /\
    sendHandshakeInfo host database securityLevel user pgOptions d1
    = (Resolved false, d2) /\
    d' = cleanup d2 /\
    inbound d = consumed ++ [response] ++ inbound d' /\
    response <> NOTICE_RESPONSE /\ response <> ERROR_RESPONSE.
Proof.
  intros H. unfold startup in H.
  destruct (startup_try host crypto database securityLevel user password pgOptions d)
    as [[res|e0|] d0] eqn:Et; try discriminate H.
  injection H as -> <-. unfold startup_try in Et.
  apply bind_inv in Et as [(ok & d1 & H1 & Et)|[(e & H1 & He)|(_ & He)]];
    [| |discriminate He].
  2:{ injection He as <-. now apply negotiateHandshake_ends in H1. }
  pose proof (negotiateHandshake_sentinel _ _ _ H1) as (-> & P1 & _). cbn [negb] in Et.
  apply bind_inv in Et as [(ok & d2 & H2 & Et)|[(e & H2 & He)|(_ & He)]];
    [| |discriminate He].
  2:{ injection He as <-. now apply sendHandshakeInfo_ends in H2. }
  destruct ok; cbn [negb] in Et.
  - apply bind_inv in Et as [(ok & d3 & H3 & Et)|[(e & H3 & He)|(_ & He)]];
      [| |discriminate He].
    2:{ injection He as <-. now apply authenticate_ends in H3. }
    pose proof (authenticate_ends _ _ _ _ _ H3) as Hok. cbn in Hok. subst ok.
    cbn [negb] in Et.
    apply bind_inv in Et as [(ok & d4 & H4 & Et)|[(e & H4 & He)|(_ & He)]];
      [| |discriminate He].
    2:{ injection He as <-. now apply waitConnectionComplete_ends_in in H4. }
    pose proof (waitConnectionComplete_ends_in _ _ _ H4) as Hok. cbn in Hok. subst ok.
    discriminate Et.
  - injection Et as <-.
    pose proof (negotiateHandshake_reads _ _ _ H1) as R1.
    pose proof (sendHandshakeInfo_false _ _ _ _ _ _ _ P1 H2) as R2.
    destruct (refused_after _ _ _ R1 R2) as (consumed & response & C & HN & HE).
    exists d1, d2, consumed, response. repeat split; auto.
    unfold consumes in C. rewrite C, <- app_assoc. do 2 f_equal.
    unfold cleanup, inbound. now destruct (dataHandler d2).
Qed.

(** X17, witness: the server accepts version 6 and answers the [DB]
    frame with ['X']. *)
Lemma handshake_info_failed_witness :
  let d := new_handshake [EvData (utf8 "NXrest")] in
  exists d1 d2 consumed response,
    negotiateHandshake d = (Resolved true, d1) /\
    sendHandshakeInfo exampleHost "mydb" 0 (Some "admin"%string) EmptyString d1
    = (Resolved false, d2) /\
    snd (startup exampleHost NodeCrypto.node "mydb" 0
          (Some "admin"%string) (Some "pw"%string) EmptyString d)
    = cleanup d2 /\
    inbound d
    = consumed ++ [response]
      ++ inbound (snd (startup exampleHost NodeCrypto.node "mydb" 0 (Some "admin"%string)
                         (Some "pw"%string)
                         EmptyString d)) /\
    response <> NOTICE_RESPONSE /\ response <> ERROR_RESPONSE.
Proof.
  intros d.
  apply (handshake_info_failed exampleHost NodeCrypto.node "mydb" 0
        (Some "admin"%string) (Some "pw"%string)
           EmptyString d).
  vm_compute. reflexivity.
Defined.
